(** * ALPM-GUI: the command execution and caching pipeline

    A shallow embedding of [CommandRunner._execute], [PasswordDialog] and
    [App.process_queue] of [app.py].

    - A Python [str] is a [string], its characters the code points below 256.
    - The cache directory is a finite map from the paths that exist to what
      is there: a file that reads as a text, or something whose reading
      raises (a directory, bytes that are not UTF-8, a file that may not be
      read).
    - What is outside the program is given: what the user does with the
      password dialog, what [subprocess.Popen] and the process do, and what
      opening and writing the cache file does, which can raise (no directory
      for a key with a slash in it, a name too long, a full disk).
    - Every effect of the worker thread is an [Event] of a trace, in program
      order: a call posted to the UI thread with [app.after], the call of
      [Popen], a write to the input stream of the process.  The UI thread
      runs the posted calls in the order of their posting. *)

From Stdlib Require Import Ascii.
From stdpp Require Import base gmap strings list pretty sorting.

(** ** Text *)

Module Text.

Definition CR : ascii := "013"%char.
Definition LF : ascii := "010"%char.

(** The truth value of a [str]: only the empty one is false. *)
Definition truthy (s : string) : bool :=
  match s with
  | EmptyString => false
  | String _ _ => true
  end.

(** [str.isspace] on the code points below 256. *)
Definition isspace (c : ascii) : bool :=
  match c with
  | "009" | "010" | "011" | "012" | "013"
  | "028" | "029" | "030" | "031" | " "
  | "133" | "160" => true
  | _ => false
  end%char.

Fixpoint lstrip (s : string) : string :=
  match s with
  | EmptyString => EmptyString
  | String c r => if isspace c then lstrip r else s
  end.

Fixpoint rstrip (s : string) : string :=
  match s with
  | EmptyString => EmptyString
  | String c r =>
      match rstrip r with
      | EmptyString => if isspace c then EmptyString else String c EmptyString
      | r' => String c r'
      end
  end.

(** [s.strip()] *)
Definition strip (s : string) : string := rstrip (lstrip s).

(** [s.startswith(p)] *)
Fixpoint startswith (p s : string) : bool :=
  match p, s with
  | EmptyString, _ => true
  | String a p', String b s' => if decide (a = b) then startswith p' s' else false
  | String _ _, EmptyString => false
  end.

(** [needle in hay] *)
Fixpoint contains (needle hay : string) : bool :=
  startswith needle hay ||
  match hay with
  | EmptyString => false
  | String _ r => contains needle r
  end.

(** [s.endswith("/")] *)
Fixpoint ends_with_slash (s : string) : bool :=
  match s with
  | EmptyString => false
  | String c EmptyString => if decide (c = "/"%char) then true else false
  | String _ r => ends_with_slash r
  end.

(** [sep.join(parts)] *)
Fixpoint join (sep : string) (parts : list string) : string :=
  match parts with
  | [] => ""
  | [x] => x
  | x :: rest => x +:+ sep +:+ join sep rest
  end.

(** Universal newlines, as a text stream opened with the default
    [newline=None] reads: both a carriage return followed by a line feed
    and a lone carriage return come out as one line feed. *)
Fixpoint translate_newlines (s : string) : string :=
  match s with
  | EmptyString => EmptyString
  | String c r =>
      if decide (c = CR) then
        match r with
        | String c' r' =>
            if decide (c' = LF) then String LF (translate_newlines r')
            else String LF (translate_newlines r)
        | EmptyString => String LF EmptyString
        end
      else String c (translate_newlines r)
  end.

(** The lines that repeated [readline()] calls return until the empty
    string: each keeps its line feed, the last one may lack it. *)
Fixpoint readlines (s : string) : list string :=
  match s with
  | EmptyString => []
  | String c r =>
      if decide (c = LF) then String c EmptyString :: readlines r
      else match readlines r with
           | [] => [String c EmptyString]
           | l :: ls => String c l :: ls
           end
  end.

End Text.

(** ** The password dialog *)

(** What the user does with the modal dialog. *)
Inductive DialogAction : Type :=
  | PressOk (entry : string)   (* the OK button or Return, with the entry's text *)
  | PressCancel.               (* the Cancel button or closing the window *)

Module PasswordDialog.

Definition _ok_event (entry : string) : option string := Some entry.

Definition _cancel_event : option string := None.

Definition get_input (a : DialogAction) : option string :=
  match a with
  | PressOk entry => _ok_event entry
  | PressCancel => _cancel_event
  end.

End PasswordDialog.

(** ** The command runner *)

Record Request : Type := {
  command : list string;
  callback : bool;               (* a completion callback is supplied *)
  log_callback : bool;           (* a per-line sink is supplied *)
  source : option string;
  cache_key : option string;
  force_refresh : bool;
  requires_sudo : bool;
  set_global_busy : bool
}.

(** What [subprocess.Popen] and the process do. *)
Inductive ProcOutcome : Type :=
  | SpawnNotFound                        (* Popen raises FileNotFoundError *)
  | SpawnError (e : string)              (* Popen raises another exception, [str(e)] *)
  | Exited (raw : string) (returncode : Z).
      (* the process runs; [raw] is its decoded stdout and stderr *)

(** An exception raised inside the [try] statement, by the [except] clause
    that catches it. *)
Inductive Raised : Type :=
  | NotFound                   (* FileNotFoundError *)
  | Unexpected (e : string).   (* any other exception, [str(e)] *)

(** What [open(cache_path, 'w')] and [f.write(output_str)] do. *)
Inductive WriteOutcome : Type :=
  | Written
  | WriteFails (x : Raised) (remains : option string).
      (* [x] is raised; [remains] is none when the file is as before ([open]
         raised), and the text that the file holds otherwise *)

Record World : Type := {
  dialog : DialogAction;
  process : ProcOutcome;
  cache_write : WriteOutcome
}.

(** What the cache directory holds at a path. *)
Inductive Node : Type :=
  | Readable (text : string)   (* a file, and the text it holds *)
  | Unreadable.                (* [open] or [f.read()] raises *)

Inductive Event : Type :=
  | SetBusy (is_busy : bool)                    (* app.set_busy *)
  | UpdateStatus (text : string)                (* app.update_status *)
  | LogToConsole (message : string)             (* app.log_to_console *)
  | LogCallback (text : string)                 (* the per-line sink *)
  | ShowError (title message : string)          (* messagebox.showerror *)
  | Callback (output : string) (src : option string)  (* the completion callback *)
  | AskPassword (title text : string)           (* the PasswordDialog is opened *)
  | Popen (argv : list string)                  (* subprocess.Popen is called *)
  | StdinWrite (data : string)                  (* process.stdin.write *)
  | OpenProcessDialog (title : string)          (* ProcessDialog(self, title) *)
  | QueueButton (text : string)                 (* sidebar.queue_button.configure *)
  | DialogAppendLog (text : string)             (* dialog.append_log *)
  | DialogOnComplete                            (* dialog.on_complete *)
  | RefreshInstalledList (force : bool).        (* app.refresh_installed_list *)

(** The three ways through the test of the return code. *)
Inductive Classification : Type :=
  | Success | NonZeroExit | AuthFailure.

Record Result : Type := {
  events : list Event;             (* in program order *)
  files : gmap string Node;        (* the cache directory afterwards *)
  fault : bool                     (* an exception left the worker uncaught *)
}.

Definition nl : string := String Text.LF EmptyString.

Section Runner.

(** [Config.CACHE_DIR] *)
Variable CACHE_DIR : string.

(** [os.path.join(a, b)] *)
Definition path_join (a b : string) : string :=
  if Text.startswith "/" b then b
  else if negb (Text.truthy a) || Text.ends_with_slash a then a +:+ b
  else a +:+ "/" +:+ b.

Definition cache_path (cache_key : option string) : option string :=
  match cache_key with
  | Some k => if Text.truthy k then Some (path_join CACHE_DIR k) else None
  | None => None
  end.

(** [f.read()] of a file opened for reading as text. *)
Definition read (n : Node) : Node :=
  match n with
  | Readable text => Readable (Text.translate_newlines text)
  | Unreadable => Unreadable
  end.

(** [cache_path and os.path.exists(cache_path)], and then what reading the
    file gives: none when there is no key or nothing at the path. *)
Definition cache_get (fs : gmap string Node) (cache_key : option string)
  : option Node :=
  match cache_path cache_key with
  | Some p => if Text.truthy p then read <$> fs !! p else None
  | None => None
  end.

(** [if cache_path and output_str.strip(): write]: the cache directory
    afterwards, and the exception when the write raised one. *)
Definition cache_put (fs : gmap string Node) (cache_key : option string)
    (output_str : string) (o : WriteOutcome) : gmap string Node * option Raised :=
  match cache_path cache_key with
  | Some p =>
      if Text.truthy p && Text.truthy (Text.strip output_str) then
        match o with
        | Written => (<[p := Readable output_str]> fs, None)
        | WriteFails x remains =>
            (match remains with
             | Some text => <[p := Readable text]> fs
             | None => fs
             end,
             Some x)
        end
      else (fs, None)
  | None => (fs, None)
  end.

Definition classify (returncode : Z) (output_str : string) : Classification :=
  if negb (returncode =? 0)%Z && Text.contains "incorrect password" output_str
  then AuthFailure
  else if negb (returncode =? 0)%Z then NonZeroExit
  else Success.

Definition report (returncode : Z) (output_str : string) : list Event :=
  match classify returncode output_str with
  | AuthFailure =>
      [LogToConsole "Error: Incorrect password for sudo.";
       ShowError "Authentication Failed" "The password you entered was incorrect."]
  | NonZeroExit =>
      [LogToConsole ("Process exited with code " +:+ pretty returncode)]
  | Success => []
  end.

Definition when {A} (b : bool) (l : list A) : list A := if b then l else [].
Arguments when : simpl never.

(** The two [except] clauses, for what was raised in the [try] statement,
    if anything was: the events that the clause posts, and whether the
    clause itself raises, as [command[0]] does for an empty command. *)
Definition except (rq : Request) (argv : list string) (raised : option Raised)
  : list Event * bool :=
  match raised with
  | Some NotFound =>
      match argv with
      | [] => ([], true)
      | argv0 :: _ =>
          let msg := "Error: Command not found - " +:+ argv0 +:+ "." in
          ([LogToConsole msg; ShowError "Command Not Found" msg], false)
      end
  | Some (Unexpected e) =>
      let msg := "An unexpected error occurred: " +:+ e in
      ([LogToConsole msg] ++ when (log_callback rq) [LogCallback (msg +:+ nl)], false)
  | None => ([], false)
  end.
Arguments except : simpl never.

(** The [try] statement: the events, [output_str] afterwards, the cache
    directory and whether an [except] clause raised. *)
Definition try_popen (rq : Request) (argv : list string) (password : option string)
    (o : ProcOutcome) (wo : WriteOutcome) (fs : gmap string Node)
  : list Event * option string * gmap string Node * bool :=
  match o with
  | Exited raw returncode =>
      let full_output := Text.readlines (Text.translate_newlines raw) in
      let output_str := Text.join "" full_output in
      let stored := cache_put fs (cache_key rq) output_str wo in
      let caught := except rq argv stored.2 in
      ([Popen argv]
         ++ match password with
            | Some pw => when (Text.truthy pw) [StdinWrite (pw +:+ nl)]
            | None => []
            end
         ++ when (log_callback rq) (LogCallback <$> full_output)
         ++ report returncode output_str
         ++ caught.1,
       Some output_str,
       stored.1,
       caught.2)
  | SpawnNotFound =>
      let caught := except rq argv (Some NotFound) in
      ([Popen argv] ++ caught.1, None, fs, caught.2)
  | SpawnError e =>
      let caught := except rq argv (Some (Unexpected e)) in
      ([Popen argv] ++ caught.1, None, fs, caught.2)
  end.

(** From the cache test to the end of [_execute]. *)
Definition execute_body (rq : Request) (argv : list string) (password : option string)
    (o : ProcOutcome) (wo : WriteOutcome) (fs : gmap string Node) (before : list Event)
  : Result :=
  match cache_get fs (cache_key rq), force_refresh rq with
  | Some (Readable output_str), false =>
      {| events := before
           ++ when (log_callback rq) [LogCallback output_str]
           ++ [UpdateStatus "Ready (from cache)"]
           ++ when (callback rq) [Callback output_str (source rq)]
           ++ when (set_global_busy rq) [SetBusy false];
         files := fs;
         fault := false |}
  | Some Unreadable, false =>
      (* the read is outside the [try] statement *)
      {| events := before; files := fs; fault := true |}
  | _, _ =>
      let cmd_str := Text.join " " argv in
      let '(evs, output_str, fs', raised) := try_popen rq argv password o wo fs in
      let running :=
        before
          ++ [UpdateStatus ("Running: " +:+ cmd_str);
              LogToConsole ("Running: " +:+ cmd_str)]
          ++ evs in
      if raised then {| events := running; files := fs'; fault := true |}
      else
        {| events := running
             ++ [UpdateStatus "Ready"]
             ++ match output_str with
                | Some out => when (callback rq) [Callback out (source rq)]
                | None => []
                end
             ++ when (set_global_busy rq) [SetBusy false];
           files := fs';
           fault := false |}
  end.

Definition _execute (rq : Request) (w : World) (fs : gmap string Node) : Result :=
  let busy := when (set_global_busy rq) [SetBusy true] in
  if requires_sudo rq then
    let asked :=
      busy ++ [AskPassword "Authentication Required" "Enter administrator password:"] in
    match PasswordDialog.get_input (dialog w) with
    | Some (String _ _ as password) =>
        execute_body rq (["sudo"; "-S"] ++ command rq) (Some password)
          (process w) (cache_write w) fs asked
    | _ =>
        let log_msg := "Sudo command cancelled: No password provided." in
        {| events := asked
             ++ [LogToConsole log_msg]
             ++ when (log_callback rq) [LogCallback (log_msg +:+ nl)]
             ++ when (set_global_busy rq) [SetBusy false]
             ++ when (callback rq) [Callback "" (source rq)];
           files := fs;
           fault := false |}
    end
  else execute_body rq (command rq) None (process w) (cache_write w) fs busy.

End Runner.

(** ** The job queue *)

Module Config.
Definition SOURCE_PACMAN : string := "pacman".
Definition SOURCE_YAY : string := "yay".
Definition SOURCE_FLATPAK : string := "flatpak".
End Config.

(** An entry of [App.package_queue]. *)
Module Item.
Record t : Type := { action : string; pkg_name : string; source : string }.
End Item.

Module Job.
Record t : Type := { cmd : list string; sudo : bool }.
End Job.

Section Queue.

Variable CACHE_DIR : string.

(** [[p['pkg_name'] for p in queue_copy if p['action'] == act and ...]]:
    the packages of one action, of the flatpak source or of the others. *)
Definition select (queue_copy : list Item.t) (act : string) (flatpak : bool)
  : list string :=
  Item.pkg_name <$>
    List.filter
      (λ p, bool_decide (Item.action p = act)
            && (if flatpak
                then bool_decide (Item.source p = Config.SOURCE_FLATPAK)
                else bool_decide (Item.source p ≠ Config.SOURCE_FLATPAK)))
      queue_copy.

Definition build_jobs (queue_copy : list Item.t) : list Job.t :=
  let installs := select queue_copy "install" false in
  let removes := select queue_copy "remove" false in
  let flatpak_installs := select queue_copy "install" true in
  let flatpak_removes := select queue_copy "remove" true in
  match installs with
  | [] => []
  | _ => [{| Job.cmd := ["yay"; "-S"; "--noconfirm"] ++ installs; Job.sudo := true |}]
  end
  ++ match removes with
     | [] => []
     | _ => [{| Job.cmd := ["pacman"; "-Rns"; "--noconfirm"] ++ removes;
                Job.sudo := true |}]
     end
  ++ match flatpak_installs with
     | [] => []
     | _ => [{| Job.cmd := ["flatpak"; "install"; "flathub"; "-y"; "--verbose"]
                             ++ flatpak_installs;
                Job.sudo := false |}]
     end
  ++ match flatpak_removes with
     | [] => []
     | _ => [{| Job.cmd := ["flatpak"; "uninstall"; "-y"; "--verbose"] ++ flatpak_removes;
                Job.sudo := false |}]
     end.

(** The arguments of [command_runner.run] in [run_next_job]. *)
Definition job_request (job : Job.t) : Request :=
  {| command := Job.cmd job;
     callback := true;
     log_callback := true;
     source := None;
     cache_key := None;
     force_refresh := true;
     requires_sudo := Job.sudo job;
     set_global_busy := false |}.

Definition is_callback (e : Event) : bool :=
  match e with
  | Callback _ _ => true
  | _ => false
  end.

Definition all_complete : list Event :=
  [DialogAppendLog (nl +:+ nl +:+ "All operations complete." +:+ nl);
   DialogOnComplete;
   LogToConsole "Package queue processing finished.";
   RefreshInstalledList true].

(** [run_next_job] is the completion callback of the job it starts: the
    next call happens when, and only when, the worker of the job before
    posts its callback.  The [i]-th job runs in [world i]. *)
Fixpoint run_next_job (jobs : list Job.t) (i : nat) (world : nat → World)
    (fs : gmap string Node) : Result :=
  match jobs with
  | [] => {| events := all_complete; files := fs; fault := false |}
  | job :: jobs =>
      let r := _execute CACHE_DIR (job_request job) (world i) fs in
      if existsb is_callback (events r) then
        let r' := run_next_job jobs (S i) world (files r) in
        {| events := events r ++ events r'; files := files r'; fault := fault r' |}
      else r
  end.

Definition clear_queue : list Event :=
  [QueueButton "Show Queue (0)"; UpdateStatus "Queue cleared."].

Definition process_queue (package_queue : list Item.t) (world : nat → World)
    (fs : gmap string Node) : Result :=
  match package_queue with
  | [] => {| events := []; files := fs; fault := false |}
  | _ =>
      let queue_copy := package_queue in
      let r := run_next_job (build_jobs queue_copy) 0 world fs in
      {| events := [OpenProcessDialog "Processing Queue"] ++ clear_queue ++ events r;
         files := files r;
         fault := fault r |}
  end.

End Queue.

(** ** Observations on a trace *)

Definition popens (evs : list Event) : list (list string) :=
  omap (λ e, match e with Popen argv => Some argv | _ => None end) evs.

Definition stdin_writes (evs : list Event) : list string :=
  omap (λ e, match e with StdinWrite data => Some data | _ => None end) evs.

Definition callbacks (evs : list Event) : list (string * option string) :=
  omap (λ e, match e with Callback out src => Some (out, src) | _ => None end) evs.

Definition sink (evs : list Event) : list string :=
  omap (λ e, match e with LogCallback text => Some text | _ => None end) evs.

Definition alerts (evs : list Event) : list (string * string) :=
  omap (λ e, match e with ShowError t m => Some (t, m) | _ => None end) evs.

Definition console (evs : list Event) : list string :=
  omap (λ e, match e with LogToConsole m => Some m | _ => None end) evs.

Definition statuses (evs : list Event) : list string :=
  omap (λ e, match e with UpdateStatus t => Some t | _ => None end) evs.

Definition refreshes (evs : list Event) : list bool :=
  omap (λ e, match e with RefreshInstalledList f => Some f | _ => None end) evs.

(** The trace with what went into the input stream of the process blanked. *)
Definition redact (e : Event) : Event :=
  match e with
  | StdinWrite _ => StdinWrite ""
  | _ => e
  end.

(** The text that the read loop of [_execute] accumulates from a process
    that prints [raw]. *)
Definition transcript (raw : string) : string :=
  Text.join "" (Text.readlines (Text.translate_newlines raw)).

(** The argument vector that [_execute] passes to [Popen]. *)
Definition effective_argv (rq : Request) : list string :=
  if requires_sudo rq then ["sudo"; "-S"] ++ command rq else command rq.

(** The request asks for elevation and the dialog gives no password. *)
Definition elevation_cancelled (rq : Request) (w : World) : bool :=
  requires_sudo rq &&
  match PasswordDialog.get_input (dialog w) with
  | Some pw => negb (Text.truthy pw)
  | None => true
  end.

(** No carriage return in the text. *)
Fixpoint no_cr (s : string) : bool :=
  match s with
  | EmptyString => true
  | String c r => if decide (c = Text.CR) then false else no_cr r
  end.

(** Nothing but whitespace in the text. *)
Fixpoint blank (s : string) : bool :=
  match s with
  | EmptyString => true
  | String c r => Text.isspace c && blank r
  end.

(** ** Concrete runs *)

Module Scenario.

Definition CACHE_DIR : string := "/home/user/.cache/apm_cache".

(** The request of [refresh_installed_list] in system mode. *)
Definition installed_request (force : bool) : Request :=
  {| command := ["pacman"; "-Q"];
     callback := true;
     log_callback := false;
     source := Some Config.SOURCE_PACMAN;
     cache_key := Some ("installed_" +:+ Config.SOURCE_PACMAN +:+ ".cache");
     force_refresh := force;
     requires_sudo := false;
     set_global_busy := true |}.

(** The same command with a sink, asking for elevation. *)
Definition elevated_cached_request : Request :=
  {| command := ["pacman"; "-Q"];
     callback := true;
     log_callback := true;
     source := Some Config.SOURCE_PACMAN;
     cache_key := Some "installed_pacman.cache";
     force_refresh := false;
     requires_sudo := true;
     set_global_busy := true |}.

Definition installed_cached : gmap string Node :=
  {[ "/home/user/.cache/apm_cache/installed_pacman.cache"
       := Readable ("vim 9.1.0-1" +:+ nl) ]}.

(** A request without elevation opens no dialog; the cache file can be
    written. *)
Definition cancelling (o : ProcOutcome) : World :=
  {| dialog := PressCancel; process := o; cache_write := Written |}.

(** The request of [InfoDialog] for a system package. *)
Definition info_request (pkg_name : string) : Request :=
  {| command := ["yay"; "-Si"; pkg_name];
     callback := true;
     log_callback := false;
     source := None;
     cache_key := Some ("info_" +:+ pkg_name +:+ ".cache");
     force_refresh := false;
     requires_sudo := false;
     set_global_busy := true |}.

Definition lookup_failed : World :=
  {| dialog := PressCancel;
     process := Exited ("error: package 'nosuchpkg' was not found" +:+ nl) 1;
     cache_write := Written |}.

(** Two flatpak entries of the package queue, on a machine without flatpak. *)
Definition flatpak_queue : list Item.t :=
  [{| Item.action := "install"; Item.pkg_name := "org.gimp.GIMP";
      Item.source := Config.SOURCE_FLATPAK |};
   {| Item.action := "remove"; Item.pkg_name := "org.videolan.VLC";
      Item.source := Config.SOURCE_FLATPAK |}].

Definition flatpak_missing : nat → World :=
  λ _, {| dialog := PressCancel; process := SpawnNotFound; cache_write := Written |}.

(** One system package to remove and one to install, queued in that order. *)
Definition system_queue : list Item.t :=
  [{| Item.action := "remove"; Item.pkg_name := "nano";
      Item.source := Config.SOURCE_PACMAN |};
   {| Item.action := "install"; Item.pkg_name := "vim";
      Item.source := Config.SOURCE_PACMAN |}].

(** The install, which runs first, fails with exit code 1; the removal
    succeeds. *)
Definition first_fails : nat → World :=
  λ i, match i with
       | 0 => {| dialog := PressOk "hunter2";
                 process := Exited ("error: target not found: vim" +:+ nl) 1;
                 cache_write := Written |}
       | _ => {| dialog := PressOk "hunter2";
                 process := Exited ("removing nano..." +:+ nl) 0;
                 cache_write := Written |}
       end.

(** The removal job of [system_queue], and a run of it with a wrong
    password. *)
Definition remove_job : Job.t :=
  {| Job.cmd := ["pacman"; "-Rns"; "--noconfirm"; "nano"]; Job.sudo := true |}.

Definition wrong_password_output : string :=
  "Sorry, try again." +:+ nl +:+ "sudo: 1 incorrect password attempt" +:+ nl.

Definition wrong_password : World :=
  {| dialog := PressOk "hunter2"; process := Exited wrong_password_output 1;
     cache_write := Written |}.

(** The cache file of the installed list is there and cannot be read. *)
Definition installed_unreadable : gmap string Node :=
  {[ "/home/user/.cache/apm_cache/installed_pacman.cache" := Unreadable ]}.

(** What [pacman -Q] prints, with the line ending of a terminal. *)
Definition installed_raw : string :=
  "vim 9.1.0-1" +:+ String Text.CR nl.

(** [pacman -Q] runs with elevation, and the disk is full when its output
    is written to the cache: the file is left empty. *)
Definition disk_full : World :=
  {| dialog := PressOk "hunter2"; process := Exited installed_raw 0;
     cache_write := WriteFails (Unexpected "[Errno 28] No space left on device")
                      (Some "") |}.

End Scenario.

(** ** The package queue *)

Module PackageQueue.

(** [App.is_in_queue]: the action of the first entry of that name. *)
Fixpoint is_in_queue (package_queue : list Item.t) (pkg_name : string) : option string :=
  match package_queue with
  | [] => None
  | item :: rest =>
      if decide (Item.pkg_name item = pkg_name) then Some (Item.action item)
      else is_in_queue rest pkg_name
  end.

(** [App.add_to_queue]: the queue afterwards and the calls made. *)
Definition add_to_queue (package_queue : list Item.t) (action pkg_name source : string)
  : list Item.t * list Event :=
  match is_in_queue package_queue pkg_name with
  | Some (String _ _) =>
      (package_queue, [UpdateStatus ("'" +:+ pkg_name +:+ "' is already in the queue.")])
  | _ =>
      let package_queue :=
        package_queue
          ++ [{| Item.action := action; Item.pkg_name := pkg_name; Item.source := source |}] in
      (package_queue,
       [UpdateStatus ("Added '" +:+ pkg_name +:+ "' to " +:+ action +:+ " queue.");
        QueueButton ("Show Queue (" +:+ pretty (length package_queue) +:+ ")")])
  end.

(** [App.remove_from_queue] *)
Definition remove_from_queue (package_queue : list Item.t) (pkg_name : string)
  : list Item.t * list Event :=
  let package_queue :=
    List.filter (λ p, bool_decide (Item.pkg_name p ≠ pkg_name)) package_queue in
  (package_queue,
   [UpdateStatus ("Removed '" +:+ pkg_name +:+ "' from queue.");
    QueueButton ("Show Queue (" +:+ pretty (length package_queue) +:+ ")")]).

End PackageQueue.

(** ** The information dialog's action button *)

Module InfoDialog.

Inductive Button : Type :=
  | RemoveFromQueue     (* "Remove from Queue": [remove_from_queue] *)
  | Uninstall           (* "Uninstall": [add_to_queue("remove")] *)
  | Install.            (* "Install": [add_to_queue("install")] *)

(** The button that [__init__] builds. *)
Definition action_button (installed_packages : gset string) (package_queue : list Item.t)
    (pkg_name : string) : Button :=
  let is_installed := bool_decide (pkg_name ∈ installed_packages) in
  let is_queued :=
    match PackageQueue.is_in_queue package_queue pkg_name with
    | Some _ => true
    | None => false
    end in
  if is_queued then RemoveFromQueue
  else if is_installed then Uninstall
  else Install.

(** What the button's command does to the queue. *)
Definition press (b : Button) (package_queue : list Item.t) (pkg_name source : string)
  : list Item.t * list Event :=
  match b with
  | RemoveFromQueue => PackageQueue.remove_from_queue package_queue pkg_name
  | Uninstall => PackageQueue.add_to_queue package_queue "remove" pkg_name source
  | Install => PackageQueue.add_to_queue package_queue "install" pkg_name source
  end.

(** The information request that [__init__] starts; none when an uninstalled
    flatpak has no remote (the dialog then shows a fixed message). *)
Definition info_request (installed_packages : gset string) (pkg_name source : string)
    (remote : option string) : option Request :=
  let is_installed := bool_decide (pkg_name ∈ installed_packages) in
  let cmd :=
    if decide (source = Config.SOURCE_FLATPAK) then
      if is_installed then ["flatpak"; "info"; pkg_name]
      else match remote with
           | Some (String _ _ as remote) => ["flatpak"; "remote-info"; remote; pkg_name]
           | _ => []
           end
    else ["yay"; "-Si"; pkg_name] in
  match cmd with
  | [] => None
  | _ =>
      Some {| command := cmd;
              callback := true;
              log_callback := false;
              source := None;
              cache_key := Some ("info_" +:+ pkg_name +:+ ".cache");
              force_refresh := false;
              requires_sudo := false;
              set_global_busy := true |}
  end.

End InfoDialog.

(** ** The pages of a list view *)

Module Pages.

(** [Config.ITEMS_PER_PAGE] *)
Definition ITEMS_PER_PAGE : Z := 50.

(** [data[start:stop]], for indices of either sign. *)
Definition slice {A} (data : list A) (start stop : Z) : list A :=
  let len := Z.of_nat (length data) in
  let clamp (i : Z) := if (i <? 0)%Z then Z.max (i + len) 0 else Z.min i len in
  take (Z.to_nat (clamp stop - clamp start)) (drop (Z.to_nat (clamp start)) data).

Definition total_pages {A} (data : list A) : Z :=
  (Z.of_nat (length data) + ITEMS_PER_PAGE - 1) `div` ITEMS_PER_PAGE.

(** [data[start:end]] of [update_page_view] *)
Definition page_items {A} (data : list A) (page : Z) : list A :=
  let start := ((page - 1) * ITEMS_PER_PAGE)%Z in
  let end_ := (start + ITEMS_PER_PAGE)%Z in
  slice data start end_.

(** What [update_page_view] leaves on the screen. *)
Inductive View (A : Type) : Type :=
  | NoPackages
      (* the label "No packages found."; the page controls are hidden *)
  | Page (items : list A) (controls : option (string * bool * bool)).
      (* one frame per item; the page controls, when shown: the text of the
         label, whether "<< Prev" is enabled, whether "Next >>" is *)
Arguments NoPackages {A}.
Arguments Page {A} items controls.

Definition update_page_view {A} (data : list A) (page : Z) : View A :=
  match data with
  | [] => NoPackages
  | _ =>
      Page (page_items data page)
        (if (1 <? total_pages data)%Z
         then Some ("Page " +:+ pretty page +:+ " of " +:+ pretty (total_pages data),
                    (1 <? page)%Z, (page <? total_pages data)%Z)
         else None)
  end.

(** The page number after [change_page]. *)
Definition change_page (page delta : Z) : Z := (page + delta)%Z.

(** A click on one of the two buttons: "<< Prev" calls [change_page] with -1,
    "Next >>" with 1; a button that is disabled or not on the screen calls
    nothing. *)
Inductive Click : Type := Prev | Next.

Definition click {A} (data : list A) (page : Z) (c : Click) : Z :=
  match update_page_view data page with
  | Page _ (Some (_, prev_enabled, next_enabled)) =>
      match c with
      | Prev => if prev_enabled then change_page page (-1) else page
      | Next => if next_enabled then change_page page 1 else page
      end
  | _ => page
  end.

End Pages.

(** ** The progress dialog *)

Module ProcessDialog.

Record t : Type := {
  winfo_exists : bool;         (* the window has not been destroyed *)
  close_enabled : bool;        (* the state of the "Close" button is "normal" *)
  textbox : string;
  progress_running : bool;
  warnings : nat;              (* "In Progress" warnings shown *)
  bells : nat
}.

Definition __init__ : t :=
  {| winfo_exists := true; close_enabled := false; textbox := "";
     progress_running := true; warnings := 0; bells := 0 |}.

Definition destroy (d : t) : t :=
  {| winfo_exists := false; close_enabled := close_enabled d; textbox := textbox d;
     progress_running := progress_running d; warnings := warnings d; bells := bells d |}.

Definition append_log (d : t) (text : string) : t :=
  if winfo_exists d then
    {| winfo_exists := true; close_enabled := close_enabled d;
       textbox := textbox d +:+ text;
       progress_running := progress_running d; warnings := warnings d; bells := bells d |}
  else d.

Definition on_complete (d : t) : t :=
  if winfo_exists d then
    {| winfo_exists := true; close_enabled := true; textbox := textbox d;
       progress_running := false; warnings := warnings d; bells := S (bells d) |}
  else d.

Definition _on_close_attempt (d : t) : t :=
  if negb (close_enabled d) then
    {| winfo_exists := winfo_exists d; close_enabled := close_enabled d;
       textbox := textbox d; progress_running := progress_running d;
       warnings := S (warnings d); bells := bells d |}
  else destroy d.

(** What can happen to the dialog: the calls that [process_queue] and the
    workers post, and what the user does with the window. *)
Inductive Op : Type :=
  | AppendLog (text : string)
  | OnComplete
  | CloseWindow        (* the window manager's close: [_on_close_attempt] *)
  | ClickClose.        (* a click on "Close": [destroy], when the button is enabled *)

Definition step (d : t) (op : Op) : t :=
  match op with
  | AppendLog text => append_log d text
  | OnComplete => on_complete d
  | CloseWindow => if winfo_exists d then _on_close_attempt d else d
  | ClickClose => if winfo_exists d && close_enabled d then destroy d else d
  end.

(** The calls on the dialog in a trace of [process_queue], whose sink is
    [dialog.append_log]. *)
Definition of_events (evs : list Event) : list Op :=
  omap (λ e, match e with
             | LogCallback text => Some (AppendLog text)
             | DialogAppendLog text => Some (AppendLog text)
             | DialogOnComplete => Some OnComplete
             | _ => None
             end) evs.

End ProcessDialog.

(** The events that a worker of the runner can post or do. *)
Definition runner_event (e : Event) : bool :=
  match e with
  | SetBusy _ | UpdateStatus _ | LogToConsole _ | LogCallback _ | ShowError _ _
  | Callback _ _ | AskPassword _ _ | Popen _ | StdinWrite _ => true
  | OpenProcessDialog _ | QueueButton _ | DialogAppendLog _ | DialogOnComplete
  | RefreshInstalledList _ => false
  end.

(** The first job of [Scenario.flatpak_queue]. *)
Definition flatpak_install_job : Job.t :=
  {| Job.cmd := ["flatpak"; "install"; "flathub"; "-y"; "--verbose"; "org.gimp.GIMP"];
     Job.sudo := false |}.

(** ** The requests of a search *)

(** [s.replace(' ', '_')] *)
Fixpoint replace_spaces (s : string) : string :=
  match s with
  | EmptyString => EmptyString
  | String c r => String (if decide (c = " "%char) then "_"%char else c) (replace_spaces r)
  end.

(** [search_packages_event] on the "Search Results" tab in system mode: the
    request it starts for the text of the search entry, none for a blank
    one. *)
Definition search_request (use_aur : bool) (entry : string) : option Request :=
  let query := Text.strip entry in
  if negb (Text.truthy query) then None
  else
    let '(cmd, source) :=
      if use_aur then (["yay"; "-Ss"; query], Config.SOURCE_YAY)
      else (["pacman"; "-Ss"; query], Config.SOURCE_PACMAN) in
    Some {| command := cmd;
            callback := true;
            log_callback := false;
            source := Some source;
            cache_key := Some (source +:+ "_" +:+ replace_spaces query +:+ ".cache");
            force_refresh := false;
            requires_sudo := false;
            set_global_busy := true |}.

(** The arguments of [set_busy] in a trace. *)
Definition busy_flags (evs : list Event) : list bool :=
  omap (λ e, match e with SetBusy b => Some b | _ => None end) evs.

(** No underscore in the text. *)
Fixpoint has_underscore (s : string) : bool :=
  match s with
  | EmptyString => false
  | String c r => if decide (c = "_"%char) then true else has_underscore r
  end.

(** The searches of the concrete runs: with the AUR helper, and without. *)
Definition search_yay (query : string) : Request :=
  {| command := ["yay"; "-Ss"; query];
     callback := true;
     log_callback := false;
     source := Some Config.SOURCE_YAY;
     cache_key := Some ("yay_" +:+ replace_spaces query +:+ ".cache");
     force_refresh := false;
     requires_sudo := false;
     set_global_busy := true |}.

Definition search_pacman (query : string) : Request :=
  {| command := ["pacman"; "-Ss"; query];
     callback := true;
     log_callback := false;
     source := Some Config.SOURCE_PACMAN;
     cache_key := Some ("pacman_" +:+ replace_spaces query +:+ ".cache");
     force_refresh := false;
     requires_sudo := false;
     set_global_busy := true |}.

(** The information request for the GIMP flatpak, with one command or the
    other. *)
Definition info_flatpak (cmd : list string) : Request :=
  {| command := cmd;
     callback := true;
     log_callback := false;
     source := None;
     cache_key := Some "info_org.gimp.GIMP.cache";
     force_refresh := false;
     requires_sudo := false;
     set_global_busy := true |}.

(** ** More text, and sorting *)

Module Str.

(** [s.split(sep)] for a separator of one character. *)
Fixpoint split (sep : ascii) (s : string) : list string :=
  match s with
  | EmptyString => [EmptyString]
  | String c r =>
      if decide (c = sep) then EmptyString :: split sep r
      else match split sep r with
           | [] => [String c EmptyString]
           | x :: xs => String c x :: xs
           end
  end.

(** [s.split()]: the runs of characters that are not whitespace. *)
Fixpoint split_ws (s : string) : list string :=
  match s with
  | EmptyString => []
  | String c r =>
      if Text.isspace c then split_ws r
      else match r with
           | EmptyString => [String c EmptyString]
           | String c' _ =>
               if Text.isspace c' then String c EmptyString :: split_ws r
               else match split_ws r with
                    | [] => [String c EmptyString]
                    | w :: ws => String c w :: ws
                    end
           end
  end.

(** [c.lower()] on the code points below 256: the letters A to Z and the
    capital letters from 192 to 222, the multiplication sign apart. *)
Definition lower_char (c : ascii) : ascii :=
  let n := N_of_ascii c in
  if ((65 <=? n) && (n <=? 90) || (192 <=? n) && (n <=? 222) && negb (n =? 215))%N
  then ascii_of_N (n + 32) else c.

Fixpoint lower (s : string) : string :=
  match s with
  | EmptyString => EmptyString
  | String c r => String (lower_char c) (lower r)
  end.

(** [list.sort(key=key)] and [sorted(l, key=key)]: a stable sort that compares
    keys with [<] only. *)
Section Sort.
Context {A K : Type} (key : A → K) (lt : K → K → bool).

Fixpoint insert (x : A) (l : list A) : list A :=
  match l with
  | [] => [x]
  | y :: l' => if lt (key y) (key x) then y :: insert x l' else x :: l
  end.

Definition sort_by (l : list A) : list A := foldr insert [] l.

(** The order after the sort of a list that was in the order [R]: smaller
    key first; among equal keys, the order before. *)
Definition sorted_after (R : A → A → Prop) (x y : A) : Prop :=
  lt (key y) (key x) = false ∧ (lt (key x) (key y) = true ∨ R x y).

End Sort.

(** [sorted(l)] for strings, which compare by code points. *)
Definition sorted (l : list string) : list string := sort_by id String.ltb l.

End Str.

(** ** What the callbacks make of a transcript *)

(** [App._sort_results], for results whose ['name'] is given by [name]. *)
Definition _sort_results {A} (name : A → option string) (results : list A)
    (query : string) : list A :=
  let query_lower := Str.lower query in
  let results := Str.sort_by (λ p, Str.lower (default "" (name p))) String.ltb results in
  Str.sort_by
    (λ p, if decide (Str.lower (default "" (name p)) = query_lower) then 0 else 1)
    Nat.ltb results.

(** The entries that [App.parse_group_packages] puts in the search results. *)
Module GroupPackage.
Record t : Type := { name : string; desc : string; source : string }.
End GroupPackage.

Definition parse_group_packages (output : string) : list GroupPackage.t :=
  (λ pkg_name, {| GroupPackage.name := pkg_name;
                  GroupPackage.desc := "Member of selected group";
                  GroupPackage.source := Config.SOURCE_PACMAN |})
    <$> List.filter Text.truthy (Str.sorted (Str.split Text.LF (Text.strip output))).

(** The loop of [App._parse_upgradable_system] and of [App.parse_groups]:
    the first field of every line that is not empty, in order; none when a
    line has no field, where [line.split()[0]] raises IndexError. *)
Fixpoint first_fields (lines : list string) : option (list string) :=
  match lines with
  | [] => Some []
  | line :: rest =>
      if Text.truthy line then
        match Str.split_ws line with
        | [] => None
        | field :: _ => (field ::.) <$> first_fields rest
        end
      else first_fields rest
  end.

(** [App._parse_upgradable_system]: the set [upgradable_packages]
    afterwards; none when IndexError is raised. *)
Definition _parse_upgradable_system (output : string) : option (gset string) :=
  list_to_set <$> first_fields (Str.split Text.LF (Text.strip output)).

(** [App.parse_groups]: the texts of the group buttons, from the top; none
    when IndexError is raised. *)
Definition parse_groups (output : string) : option (list string) :=
  (λ fields, Str.sorted (remove_dups fields))
    <$> first_fields (Str.split Text.LF (Text.strip output)).

(** What [pacman -Sg] prints, with a group listed twice. *)
Definition Scenario_groups : string :=
  "xorg" +:+ nl +:+ "gnome" +:+ nl +:+ "base-devel" +:+ nl +:+ "gnome" +:+ nl.

(** What [yay -Qu] prints for two packages. *)
Definition Scenario_upgradable : string :=
  "linux 6.9.1-1 -> 6.10.2-1" +:+ nl +:+ "vim 9.0.1-1 -> 9.1.0-1" +:+ nl.

(** ** The list of installed packages *)

(** An entry of [full_installed_packages_data]; a key that the dictionary
    does not have is [None]. *)
Module Installed.
Record t : Type := {
  friendly_name : option string;
  name : string;
  version : string;
  size : option string;
  source : string;
  is_installed : option bool
}.

Definition mark (pkg : t) : t :=
  {| friendly_name := friendly_name pkg; name := name pkg; version := version pkg;
     size := size pkg; source := source pkg; is_installed := Some true |}.
End Installed.

Definition TAB : ascii := "009"%char.

(** The loop over the lines of [pacman -Q]: none when [name, version =
    line.split()] raises ValueError. *)
Fixpoint installed_pacman (source : string) (lines : list string)
    : option (list Installed.t) :=
  match lines with
  | [] => Some []
  | line :: rest =>
      if Text.truthy line then
        match Str.split_ws line with
        | [name; version] =>
            ({| Installed.friendly_name := None; Installed.name := name;
                Installed.version := version; Installed.size := None;
                Installed.source := source; Installed.is_installed := None |} ::.)
              <$> installed_pacman source rest
        | _ => None
        end
      else installed_pacman source rest
  end.

(** The loop over the lines of [flatpak list]. *)
Definition installed_flatpak (source : string) (lines : list string) : list Installed.t :=
  omap (λ line,
          match Str.split TAB line with
          | p0 :: p1 :: p2 :: _ :: _ :: p5 :: _ =>
              Some {| Installed.friendly_name := Some p0; Installed.name := p1;
                      Installed.version := p2; Installed.size := Some p5;
                      Installed.source := source; Installed.is_installed := None |}
          | _ => None
          end) lines.

(** What [App.parse_and_display_installed] leaves in the application. *)
Module Listing.
Record t : Type := {
  installed_packages : gset string;
  full_installed_packages_data : list Installed.t;
  installed_packages_data : list Installed.t;
  installed_page : Z
}.
End Listing.

Definition parse_and_display_installed (installed_packages : gset string)
    (output source : string) : option Listing.t :=
  let lines := Str.split Text.LF (Text.strip output) in
  packages ←
    (if decide (source = Config.SOURCE_PACMAN) then installed_pacman source lines
     else if decide (source = Config.SOURCE_FLATPAK)
          then Some (installed_flatpak source lines)
          else Some []);
  let installed_packages :=
    foldl (λ s pkg, s ∪ {[ Installed.name pkg ]}) installed_packages packages in
  let packages := Installed.mark <$> packages in
  let full := Str.sort_by (λ p, Str.lower (Installed.name p)) String.ltb packages in
  Some {| Listing.installed_packages := installed_packages;
          Listing.full_installed_packages_data := full;
          Listing.installed_packages_data := full;
          Listing.installed_page := 1 |}.

(** [App.search_packages_event] on the tab "Installed": the new
    [installed_packages_data], for the text of the search entry. *)
Definition filter_installed (full_installed_packages_data : list Installed.t)
    (entry : string) : list Installed.t :=
  let query := Text.strip entry in
  let query_lower := Str.lower query in
  if negb (Text.truthy query_lower) then full_installed_packages_data
  else _sort_results (λ p, Some (Installed.name p))
         (List.filter (λ pkg, Text.contains query_lower (Str.lower (Installed.name pkg)))
                      full_installed_packages_data)
         query.

(** What [pacman -Q] prints for two packages, and the list made of it. *)
Definition Scenario_listing : string :=
  "vim 9.1.0-1" +:+ nl +:+ "bash 5.2.26-2" +:+ nl.

Definition Scenario_installed_data : list Installed.t :=
  default [] (Listing.full_installed_packages_data
                <$> parse_and_display_installed ∅ Scenario_listing Config.SOURCE_PACMAN).

(** ** The results of a system search *)

(** An entry that [App.parse_system_search] puts in the search results. *)
Module Found.
Record t : Type := { name : string; version : string; desc : string; source : string }.
End Found.

(** The body of the loop for a header line, given its description and what
    the rest of the loop gives: none when [repo_and_name[1]] raises
    IndexError. *)
Definition found (header_line desc_line : string) (later : option (list Found.t))
    : option (list Found.t) :=
  match Str.split_ws header_line with
  | p0 :: p1 :: _ =>
      match Str.split "/" p0 with
      | repo :: name :: _ =>
          ({| Found.name := name; Found.version := p1; Found.desc := desc_line;
              Found.source := if Text.contains "aur" repo then Config.SOURCE_YAY
                              else Config.SOURCE_PACMAN |} ::.) <$> later
      | _ => None
      end
  | _ => later
  end.

(** The loop [while i < len(lines)], which steps over a description line. *)
Fixpoint system_search (lines : list string) : option (list Found.t) :=
  match lines with
  | [] => Some []
  | header_line :: rest =>
      if Text.contains "/" header_line && negb (Text.startswith " " header_line) then
        match rest with
        | next :: rest' =>
            if Text.startswith "    " next
            then found header_line (Text.strip next) (system_search rest')
            else found header_line "" (system_search rest)
        | [] => found header_line "" (system_search rest)
        end
      else system_search rest
  end.

(** [App.parse_system_search]: the new [search_results_data], for the text
    of the search entry. *)
Definition parse_system_search (output entry : string) : option (list Found.t) :=
  (λ packages, _sort_results (λ p, Some (Found.name p)) packages entry)
    <$> system_search (Str.split Text.LF (Text.strip output)).

(** What [yay -Ss vim] prints for two packages. *)
Definition Scenario_search : string :=
  "extra/vim 9.1.0-1" +:+ nl +:+ "    Vi Improved" +:+ nl
  +:+ "aur/vim-git r1.abc-1" +:+ nl +:+ "    Vim from git" +:+ nl.

(** ** The text functions on small inputs *)

Example translate_newlines_ex :
  Text.translate_newlines ("a" +:+ String Text.CR (String Text.LF "b") +:+ String Text.CR "c")
  = "a" +:+ String Text.LF "b" +:+ String Text.LF "c".
Proof. reflexivity. Qed.

Example strip_ex : Text.strip "  a b  " = "a b".
Proof. reflexivity. Qed.

Example contains_ex :
  Text.contains "incorrect password" "sudo: 1 incorrect password attempt" = true.
Proof. reflexivity. Qed.

Example pretty_ex : pretty (-9)%Z = "-9" /\ pretty 1%Z = "1".
Proof. split; reflexivity. Qed.

Example readlines_ex :
  Text.readlines ("ab" +:+ String Text.LF "cd") = ["ab" +:+ String Text.LF ""; "cd"].
Proof. reflexivity. Qed.

(** ** Facts on text *)

Section TextFacts.
Import Text.

Lemma app_cons c s t : String c s +:+ t = String c (s +:+ t).
Proof. reflexivity. Qed.

Lemma app_empty_r s : s +:+ "" = s.
Proof. induction s as [|c s IH]; [done|]. by rewrite app_cons, IH. Qed.

Lemma join_empty_cons x rest : join "" (x :: rest) = x +:+ join "" rest.
Proof. destruct rest; simpl; [by rewrite app_empty_r | done]. Qed.

(** Joining the lines read gives back the text. *)
Lemma join_readlines s : join "" (readlines s) = s.
Proof.
  induction s as [|c r IH]; [done|].
  cbn [readlines]. case_decide as Hc.
  - by rewrite join_empty_cons, IH.
  - destruct (readlines r) as [|l ls] eqn:E.
    + simpl in IH. by subst r.
    + rewrite join_empty_cons, app_cons. rewrite join_empty_cons in IH. by rewrite IH.
Qed.

(** No carriage return survives the translation. *)
Lemma translate_newlines_no_cr s : no_cr (translate_newlines s) = true.
Proof.
  assert (H : ∀ n s, String.length s ≤ n → no_cr (translate_newlines s) = true).
  { intros n. induction n as [|n IH]; intros [|c r] Hlen; simpl in *; try done; try lia.
    case_decide.
    - destruct r as [|c' r']; [done|]. case_decide; simpl in *.
      + apply IH. lia.
      + specialize (IH (String c' r')). simpl in IH. apply IH. lia.
    - simpl. case_decide; [done|]. apply IH. lia. }
  by apply (H (String.length s)).
Qed.

Lemma translate_newlines_id s : no_cr s = true → translate_newlines s = s.
Proof.
  induction s as [|c r IH]; [done|]. simpl. case_decide; [done|].
  intros ?. by rewrite IH.
Qed.

Lemma translate_newlines_idemp s :
  translate_newlines (translate_newlines s) = translate_newlines s.
Proof. apply translate_newlines_id, translate_newlines_no_cr. Qed.

Lemma rstrip_empty s : rstrip s = "" ↔ blank s = true.
Proof.
  induction s as [|c r IH]; [done|]. simpl.
  destruct (rstrip r) as [|c' r'] eqn:E.
  - destruct (isspace c); simpl; [|done]. by rewrite <- IH.
  - split; [done|]. intros [_ Hb]%andb_prop. by apply IH in Hb.
Qed.

Lemma blank_lstrip s : blank (lstrip s) = blank s.
Proof.
  induction s as [|c r IH]; [done|]. simpl.
  destruct (isspace c) eqn:E; [done|]. simpl. by rewrite E.
Qed.

(** [s.strip()] is empty exactly when [s] holds nothing but whitespace. *)
Lemma truthy_strip s : truthy (strip s) = negb (blank s).
Proof.
  unfold strip. rewrite <- (blank_lstrip s).
  destruct (rstrip (lstrip s)) as [|c r] eqn:E.
  - apply rstrip_empty in E. by rewrite E.
  - destruct (blank (lstrip s)) eqn:Hb; [|done].
    apply rstrip_empty in Hb. congruence.
Qed.

Lemma startswith_spec p s : startswith p s = true ↔ ∃ t, s = p +:+ t.
Proof.
  revert s. induction p as [|a p IH]; intros s; simpl.
  - split; [by exists s | done].
  - destruct s as [|b s].
    + split; [done | by intros [t Ht]].
    + case_decide as Hab.
      * subst b. rewrite IH. split; intros [t Ht]; exists t.
        -- by rewrite app_cons, <- Ht.
        -- rewrite app_cons in Ht. by simplify_eq.
      * split; [done|]. intros [t Ht]. rewrite app_cons in Ht. by simplify_eq.
Qed.

(** [needle in hay] holds exactly when [hay] is some text, then [needle],
    then some text. *)
Lemma contains_spec needle hay :
  contains needle hay = true ↔ ∃ pre post, hay = pre +:+ needle +:+ post.
Proof.
  induction hay as [|c r IH].
  - simpl. rewrite orb_false_r, startswith_spec. split.
    + intros [t Ht]. by exists "", t.
    + intros [[|c pre] [post H]]; [by exists post|]. by rewrite app_cons in H.
  - cbn [contains]. rewrite orb_true_iff, startswith_spec, IH. split.
    + intros [[t Ht] | (pre & post & H)].
      * by exists "", t.
      * exists (String c pre), post. by rewrite app_cons, H.
    + intros ([|c' pre] & post & H).
      * left. by exists post.
      * right. rewrite app_cons in H. simplify_eq. by exists pre, post.
Qed.

Lemma truthy_app_r s t : truthy t = true → truthy (s +:+ t) = true.
Proof. by destruct s. Qed.

End TextFacts.

Lemma truthy_path_join a b : Text.truthy b = true → Text.truthy (path_join a b) = true.
Proof.
  intros Hb. unfold path_join.
  destruct (Text.startswith "/" b); [done|].
  destruct (negb (Text.truthy a) || Text.ends_with_slash a).
  - by apply truthy_app_r.
  - by apply truthy_app_r, truthy_app_r.
Qed.

(** ** Facts on traces *)

Section TraceFacts.
Context {A B : Type}.

Lemma omap_fmap_none (f : B → option A) (g : string → B) (l : list string) :
  (∀ x, f (g x) = None) → omap f (g <$> l) = [].
Proof. intros H. induction l as [|x l IH]; [done|]. simpl. by rewrite H. Qed.

End TraceFacts.

Lemma popens_app a b : popens (a ++ b) = popens a ++ popens b.
Proof. apply omap_app. Qed.
Lemma stdin_writes_app a b : stdin_writes (a ++ b) = stdin_writes a ++ stdin_writes b.
Proof. apply omap_app. Qed.
Lemma callbacks_app a b : callbacks (a ++ b) = callbacks a ++ callbacks b.
Proof. apply omap_app. Qed.
Lemma sink_app a b : sink (a ++ b) = sink a ++ sink b.
Proof. apply omap_app. Qed.
Lemma alerts_app a b : alerts (a ++ b) = alerts a ++ alerts b.
Proof. apply omap_app. Qed.
Lemma console_app a b : console (a ++ b) = console a ++ console b.
Proof. apply omap_app. Qed.
Lemma statuses_app a b : statuses (a ++ b) = statuses a ++ statuses b.
Proof. apply omap_app. Qed.
Lemma refreshes_app a b : refreshes (a ++ b) = refreshes a ++ refreshes b.
Proof. apply omap_app. Qed.

Lemma sink_lines l : sink (LogCallback <$> l) = l.
Proof. induction l as [|x l IH]; [done|]. unfold sink in *. simpl. by f_equal. Qed.
Lemma popens_lines l : popens (LogCallback <$> l) = [].
Proof. by apply omap_fmap_none. Qed.
Lemma stdin_writes_lines l : stdin_writes (LogCallback <$> l) = [].
Proof. by apply omap_fmap_none. Qed.
Lemma callbacks_lines l : callbacks (LogCallback <$> l) = [].
Proof. by apply omap_fmap_none. Qed.
Lemma alerts_lines l : alerts (LogCallback <$> l) = [].
Proof. by apply omap_fmap_none. Qed.
Lemma console_lines l : console (LogCallback <$> l) = [].
Proof. by apply omap_fmap_none. Qed.
Lemma statuses_lines l : statuses (LogCallback <$> l) = [].
Proof. by apply omap_fmap_none. Qed.
Lemma refreshes_lines l : refreshes (LogCallback <$> l) = [].
Proof. by apply omap_fmap_none. Qed.

Lemma when_nil {A} (b : bool) : when b (@nil A) = [].
Proof. by destruct b. Qed.

Lemma popens_when b evs : popens (when b evs) = when b (popens evs).
Proof. by destruct b. Qed.
Lemma stdin_writes_when b evs : stdin_writes (when b evs) = when b (stdin_writes evs).
Proof. by destruct b. Qed.
Lemma callbacks_when b evs : callbacks (when b evs) = when b (callbacks evs).
Proof. by destruct b. Qed.
Lemma sink_when b evs : sink (when b evs) = when b (sink evs).
Proof. by destruct b. Qed.
Lemma alerts_when b evs : alerts (when b evs) = when b (alerts evs).
Proof. by destruct b. Qed.
Lemma console_when b evs : console (when b evs) = when b (console evs).
Proof. by destruct b. Qed.
Lemma statuses_when b evs : statuses (when b evs) = when b (statuses evs).
Proof. by destruct b. Qed.
Lemma refreshes_when b evs : refreshes (when b evs) = when b (refreshes evs).
Proof. by destruct b. Qed.

Create Rewrite HintDb trace.
#[export] Hint Rewrite @when_nil
  popens_app stdin_writes_app callbacks_app sink_app
  alerts_app console_app statuses_app refreshes_app
  popens_lines stdin_writes_lines callbacks_lines sink_lines
  alerts_lines console_lines statuses_lines refreshes_lines
  popens_when stdin_writes_when callbacks_when sink_when
  alerts_when console_when statuses_when refreshes_when : trace.

(** Splits the observations of a trace along its pieces. *)
Ltac observe :=
  repeat progress (autorewrite with trace; simpl); rewrite ?app_nil_r.

(** ** The two ways through the elevation prompt *)

Section RunnerFacts.
Variable CACHE_DIR : string.
Local Abbreviation execute := (_execute CACHE_DIR).

Lemma cancelled_result rq w fs :
  elevation_cancelled rq w = true →
  execute rq w fs =
    {| events := when (set_global_busy rq) [SetBusy true]
         ++ [AskPassword "Authentication Required" "Enter administrator password:"]
         ++ [LogToConsole "Sudo command cancelled: No password provided."]
         ++ when (log_callback rq)
              [LogCallback ("Sudo command cancelled: No password provided." +:+ nl)]
         ++ when (set_global_busy rq) [SetBusy false]
         ++ when (callback rq) [Callback "" (source rq)];
       files := fs; fault := false |}.
Proof.
  unfold elevation_cancelled, _execute. intros [-> H]%andb_prop.
  destruct (PasswordDialog.get_input (dialog w)) as [[|c pw]|]; try done.
  all: by rewrite <- !(assoc_L (++)).
Qed.

Lemma granted_result rq w fs :
  elevation_cancelled rq w = false →
  ∃ password before,
    execute rq w fs =
      execute_body CACHE_DIR rq (effective_argv rq) password (process w) (cache_write w)
        fs before
    ∧ popens before = [] ∧ callbacks before = [] ∧ sink before = []
    ∧ stdin_writes before = [] ∧ alerts before = [] ∧ console before = []
    ∧ statuses before = []
    ∧ refreshes before = []
    ∧ (requires_sudo rq = false → password = None).
Proof.
  unfold elevation_cancelled, _execute, effective_argv. intros H.
  destruct (requires_sudo rq); simpl in H.
  - destruct (PasswordDialog.get_input (dialog w)) as [[|c pw]|]; try done.
    eexists _, _. split; [done|].
    destruct (set_global_busy rq); by repeat split.
  - eexists _, _. split; [done|].
    destruct (set_global_busy rq); by repeat split.
Qed.

Lemma body_hit rq argv password o wo fs before T :
  force_refresh rq = false →
  cache_get CACHE_DIR fs (cache_key rq) = Some (Readable T) →
  execute_body CACHE_DIR rq argv password o wo fs before =
    {| events := before
         ++ when (log_callback rq) [LogCallback T]
         ++ [UpdateStatus "Ready (from cache)"]
         ++ when (callback rq) [Callback T (source rq)]
         ++ when (set_global_busy rq) [SetBusy false];
       files := fs; fault := false |}.
Proof. intros Hf Hg. unfold execute_body. by rewrite Hg, Hf. Qed.

(** The cache file is there and cannot be read: the exception leaves the
    worker. *)
Lemma body_unreadable rq argv password o wo fs before :
  force_refresh rq = false →
  cache_get CACHE_DIR fs (cache_key rq) = Some Unreadable →
  execute_body CACHE_DIR rq argv password o wo fs before =
    {| events := before; files := fs; fault := true |}.
Proof. intros Hf Hg. unfold execute_body. by rewrite Hg, Hf. Qed.

Lemma body_miss rq argv password o wo fs before :
  force_refresh rq = true ∨ cache_get CACHE_DIR fs (cache_key rq) = None →
  execute_body CACHE_DIR rq argv password o wo fs before =
    let '(evs, output_str, fs', raised) := try_popen CACHE_DIR rq argv password o wo fs in
    let running :=
      before
        ++ [UpdateStatus ("Running: " +:+ Text.join " " argv);
            LogToConsole ("Running: " +:+ Text.join " " argv)]
        ++ evs in
    if raised then {| events := running; files := fs'; fault := true |}
    else
      {| events := running
           ++ [UpdateStatus "Ready"]
           ++ match output_str with
              | Some out => when (callback rq) [Callback out (source rq)]
              | None => []
              end
           ++ when (set_global_busy rq) [SetBusy false];
         files := fs'; fault := false |}.
Proof.
  intros H. unfold execute_body.
  destruct (cache_get CACHE_DIR fs (cache_key rq)) as [[T|]|] eqn:Hg; [| |done].
  all: destruct H as [-> | ?]; done.
Qed.

(** The three ways on from the elevation prompt. *)
Lemma cache_cases rq fs :
  (force_refresh rq = true ∨ cache_get CACHE_DIR fs (cache_key rq) = None)
  ∨ (force_refresh rq = false
     ∧ ((∃ T, cache_get CACHE_DIR fs (cache_key rq) = Some (Readable T))
        ∨ cache_get CACHE_DIR fs (cache_key rq) = Some Unreadable)).
Proof.
  destruct (force_refresh rq); [by left; left|].
  destruct (cache_get CACHE_DIR fs (cache_key rq)) as [[T|]|]; eauto.
Qed.

(** What the [except] clauses post. *)
Lemma except_events rq argv raised :
  popens (except rq argv raised).1 = []
  ∧ callbacks (except rq argv raised).1 = []
  ∧ stdin_writes (except rq argv raised).1 = []
  ∧ statuses (except rq argv raised).1 = []
  ∧ refreshes (except rq argv raised).1 = [].
Proof.
  unfold except. destruct raised as [[|e]|]; simpl; [by destruct argv | | done].
  by destruct (log_callback rq).
Qed.

Lemma report_events rc out :
  popens (report rc out) = [] ∧ callbacks (report rc out) = []
  ∧ sink (report rc out) = [] ∧ stdin_writes (report rc out) = []
  ∧ statuses (report rc out) = [] ∧ refreshes (report rc out) = [].
Proof. unfold report. by destruct (classify rc out). Qed.

(** The write to the cache is not attempted, or does not raise. *)
Lemma cache_put_written fs K T : (cache_put CACHE_DIR fs K T Written).2 = None.
Proof.
  unfold cache_put. destruct (cache_path CACHE_DIR K) as [p|]; [|done].
  by destruct (Text.truthy p && Text.truthy (Text.strip T)).
Qed.

Lemma cache_put_no_key fs T o : cache_put CACHE_DIR fs None T o = (fs, None).
Proof. done. Qed.

End RunnerFacts.

(** ** Elevation *)

(** C4: for every elevated request whose password dialog is cancelled (the
    broker returns none), no process is spawned, nothing is written to an
    input stream, and the completion callback, when one is supplied, is
    invoked exactly once, with the empty transcript and the source tag. *)
Theorem cancelled_elevation_completes_without_spawn D rq w fs :
  requires_sudo rq = true →
  PasswordDialog.get_input (dialog w) = None →
  popens (events (_execute D rq w fs)) = []
  ∧ stdin_writes (events (_execute D rq w fs)) = []
  ∧ callbacks (events (_execute D rq w fs)) = when (callback rq) [("", source rq)]
  ∧ files (_execute D rq w fs) = fs
  ∧ fault (_execute D rq w fs) = false.
Proof.
  intros Hsudo Hnone.
  rewrite cancelled_result by (unfold elevation_cancelled; by rewrite Hsudo, Hnone).
  simpl. observe.
  by destruct (set_global_busy rq), (log_callback rq), (callback rq).
Qed.

Lemma cancelled_elevation_completes_without_spawn_witness :
  requires_sudo Scenario.elevated_cached_request = true
  ∧ PasswordDialog.get_input (dialog (Scenario.cancelling SpawnNotFound)) = None
  ∧ popens (events (_execute Scenario.CACHE_DIR Scenario.elevated_cached_request
                      (Scenario.cancelling SpawnNotFound) Scenario.installed_cached)) = []
  ∧ stdin_writes (events (_execute Scenario.CACHE_DIR Scenario.elevated_cached_request
                            (Scenario.cancelling SpawnNotFound) Scenario.installed_cached))
      = []
  ∧ callbacks (events (_execute Scenario.CACHE_DIR Scenario.elevated_cached_request
                         (Scenario.cancelling SpawnNotFound) Scenario.installed_cached))
      = when (callback Scenario.elevated_cached_request)
          [("", source Scenario.elevated_cached_request)]
  ∧ files (_execute Scenario.CACHE_DIR Scenario.elevated_cached_request
             (Scenario.cancelling SpawnNotFound) Scenario.installed_cached)
      = Scenario.installed_cached
  ∧ fault (_execute Scenario.CACHE_DIR Scenario.elevated_cached_request
             (Scenario.cancelling SpawnNotFound) Scenario.installed_cached) = false.
Proof.
  split; [reflexivity|]. split; [reflexivity|].
  apply (cancelled_elevation_completes_without_spawn Scenario.CACHE_DIR
           Scenario.elevated_cached_request (Scenario.cancelling SpawnNotFound)
           Scenario.installed_cached); reflexivity.
Defined.

(** C10: for every elevated request whose password dialog is confirmed with
    an empty entry, the run is the run of a cancelled dialog: no process is
    spawned, the empty string is not written to any input stream, and the
    completion callback receives the empty transcript. *)
Theorem empty_password_is_cancellation D rq o wo fs :
  requires_sudo rq = true →
  _execute D rq {| dialog := PressOk ""; process := o; cache_write := wo |} fs
    = _execute D rq {| dialog := PressCancel; process := o; cache_write := wo |} fs
  ∧ popens (events (_execute D rq {| dialog := PressOk ""; process := o;
                                     cache_write := wo |} fs)) = []
  ∧ stdin_writes (events (_execute D rq {| dialog := PressOk ""; process := o;
                                           cache_write := wo |} fs)) = []
  ∧ callbacks (events (_execute D rq {| dialog := PressOk ""; process := o;
                                        cache_write := wo |} fs))
      = when (callback rq) [("", source rq)].
Proof.
  intros Hsudo.
  rewrite !cancelled_result by (unfold elevation_cancelled; by rewrite Hsudo).
  simpl. observe.
  by destruct (set_global_busy rq), (log_callback rq), (callback rq).
Qed.

Lemma empty_password_is_cancellation_witness :
  requires_sudo (job_request Scenario.remove_job) = true
  ∧ _execute Scenario.CACHE_DIR (job_request Scenario.remove_job)
      {| dialog := PressOk ""; process := Exited "" 0; cache_write := Written |} ∅
    = _execute Scenario.CACHE_DIR (job_request Scenario.remove_job)
        {| dialog := PressCancel; process := Exited "" 0; cache_write := Written |} ∅
  ∧ popens (events (_execute Scenario.CACHE_DIR (job_request Scenario.remove_job)
                      {| dialog := PressOk ""; process := Exited "" 0;
                         cache_write := Written |} ∅)) = []
  ∧ stdin_writes (events (_execute Scenario.CACHE_DIR (job_request Scenario.remove_job)
                            {| dialog := PressOk ""; process := Exited "" 0;
                               cache_write := Written |} ∅)) = []
  ∧ callbacks (events (_execute Scenario.CACHE_DIR (job_request Scenario.remove_job)
                         {| dialog := PressOk ""; process := Exited "" 0;
                            cache_write := Written |} ∅))
      = when (callback (job_request Scenario.remove_job))
          [("", source (job_request Scenario.remove_job))].
Proof.
  split; [reflexivity|].
  apply (empty_password_is_cancellation Scenario.CACHE_DIR
           (job_request Scenario.remove_job) (Exited "" 0) Written ∅); reflexivity.
Defined.

(** ** The cache *)



(** Whether the write raises does not depend on what the cache holds. *)
Lemma cache_put_raised D fs fs' K T o :
  (cache_put D fs K T o).2 = (cache_put D fs' K T o).2.
Proof.
  unfold cache_put. destruct (cache_path D K) as [p|]; [|done].
  destruct (Text.truthy p && Text.truthy (Text.strip T)); [|done]. by destruct o.
Qed.

(** The events of the [try] statement do not depend on the cache. *)
Lemma try_popen_events D rq argv password o wo fs fs' :
  (try_popen D rq argv password o wo fs).1.1.1
    = (try_popen D rq argv password o wo fs').1.1.1
  ∧ (try_popen D rq argv password o wo fs).1.1.2
    = (try_popen D rq argv password o wo fs').1.1.2
  ∧ (try_popen D rq argv password o wo fs).2 = (try_popen D rq argv password o wo fs').2.
Proof.
  destruct o as [| e | raw rc]; simpl; [done..|].
  by rewrite (cache_put_raised D fs fs').
Qed.

Lemma body_miss_events D rq argv password o wo fs fs' before :
  force_refresh rq = true →
  events (execute_body D rq argv password o wo fs before)
    = events (execute_body D rq argv password o wo fs' before).
Proof.
  intros Hforce. rewrite !body_miss by auto.
  destruct (try_popen_events D rq argv password o wo fs fs') as (H1 & H2 & H3).
  destruct (try_popen D rq argv password o wo fs) as [[[evs out] fs1] raised].
  destruct (try_popen D rq argv password o wo fs') as [[[evs' out'] fs1'] raised'].
  simpl in *. subst. by destruct raised'.
Qed.

Lemma try_popen_popens D rq argv password o wo fs :
  popens (try_popen D rq argv password o wo fs).1.1.1 = [argv]
  ∧ statuses (try_popen D rq argv password o wo fs).1.1.1 = [].
Proof.
  destruct o as [| e | raw rc]; cbn [try_popen fst snd].
  - destruct (except_events rq argv (Some NotFound)) as (He1 & _ & _ & He2 & _).
    autorewrite with trace. by rewrite He1, He2.
  - destruct (except_events rq argv (Some (Unexpected e))) as (He1 & _ & _ & He2 & _).
    autorewrite with trace. by rewrite He1, He2.
  - match goal with |- context [except rq argv ?r] =>
      destruct (except_events rq argv r) as (He1 & _ & _ & He2 & _) end.
    match goal with |- context [report rc ?out] =>
      destruct (report_events rc out) as (Hr1 & _ & _ & _ & Hr2 & _) end.
    autorewrite with trace. rewrite He1, He2, Hr1, Hr2.
    by destruct password as [pw|]; observe.
Qed.

(** C7: for every request with force_refresh true, the run is the same
    whatever the cache holds, it is the run on an empty cache directory;
    the status "Ready (from cache)" is never posted; and unless the
    elevation prompt is cancelled the process is spawned, once, with the
    request's argument vector. *)
Theorem force_refresh_never_short_circuits D rq w fs :
  force_refresh rq = true →
  events (_execute D rq w fs) = events (_execute D rq w ∅)
  ∧ ("Ready (from cache)" ∉ statuses (events (_execute D rq w fs)))
  ∧ (elevation_cancelled rq w = false →
     popens (events (_execute D rq w fs)) = [effective_argv rq]).
Proof.
  intros Hforce.
  destruct (elevation_cancelled rq w) eqn:Hc.
  - rewrite !cancelled_result by done. simpl. split; [done|]. split; [|done].
    observe. destruct (set_global_busy rq), (log_callback rq), (callback rq);
      simpl; apply not_elem_of_nil.
  - destruct (granted_result D rq w fs Hc)
      as (password & before & E & Hp & _ & _ & _ & _ & _ & Hst & _).
    destruct (granted_result D rq w ∅ Hc)
      as (password' & before' & E' & _).
    split; [|split].
    + unfold _execute in *.
      destruct (requires_sudo rq).
      * destruct (PasswordDialog.get_input (dialog w)) as [[|c pw]|]; try done.
        by apply body_miss_events.
      * by apply body_miss_events.
    + rewrite E, body_miss by auto.
      destruct (try_popen_popens D rq (effective_argv rq) password (process w)
                  (cache_write w) fs) as [_ Hev].
      destruct (try_popen D rq (effective_argv rq) password (process w) (cache_write w) fs)
        as [[[evs out] fs1] raised].
      simpl in Hev.
      destruct raised; simpl; observe; rewrite Hst, Hev; simpl.
      all: destruct out, (callback rq), (set_global_busy rq); simpl.
      all: rewrite ?elem_of_cons, elem_of_nil; intros H;
        repeat destruct H as [H|H]; try done; by vm_compute in H.
    + intros _. rewrite E, body_miss by auto.
      destruct (try_popen_popens D rq (effective_argv rq) password (process w)
                  (cache_write w) fs) as [Hpo _].
      destruct (try_popen D rq (effective_argv rq) password (process w) (cache_write w) fs)
        as [[[evs out] fs1] raised].
      simpl in Hpo.
      destruct raised; simpl; observe; rewrite Hp, Hpo; simpl; [done|].
      by destruct out, (callback rq), (set_global_busy rq).
Qed.

Lemma force_refresh_never_short_circuits_witness :
  force_refresh (Scenario.installed_request true) = true
  ∧ events (_execute Scenario.CACHE_DIR (Scenario.installed_request true)
              (Scenario.cancelling (Exited Scenario.installed_raw 0))
              Scenario.installed_cached)
    = events (_execute Scenario.CACHE_DIR (Scenario.installed_request true)
                (Scenario.cancelling (Exited Scenario.installed_raw 0)) ∅)
  ∧ ("Ready (from cache)"
       ∉ statuses (events (_execute Scenario.CACHE_DIR (Scenario.installed_request true)
                             (Scenario.cancelling (Exited Scenario.installed_raw 0))
                             Scenario.installed_cached)))
  ∧ (elevation_cancelled (Scenario.installed_request true)
       (Scenario.cancelling (Exited Scenario.installed_raw 0)) = false →
     popens (events (_execute Scenario.CACHE_DIR (Scenario.installed_request true)
                       (Scenario.cancelling (Exited Scenario.installed_raw 0))
                       Scenario.installed_cached))
       = [effective_argv (Scenario.installed_request true)]).
Proof.
  split; [reflexivity|].
  apply (force_refresh_never_short_circuits Scenario.CACHE_DIR
           (Scenario.installed_request true)
           (Scenario.cancelling (Exited Scenario.installed_raw 0))
           Scenario.installed_cached); reflexivity.
Defined.

Lemma elem_of_popens argv evs : Popen argv ∈ evs → argv ∈ popens evs.
Proof.
  intros H. unfold popens. apply list_elem_of_omap. by exists (Popen argv).
Qed.

(** What a run that spawns a process which exits leaves behind; [caught]
    is what the [except] clause posts when the write to the cache raises. *)
Lemma body_exited D rq argv password raw rc wo fs before :
  force_refresh rq = true ∨ cache_get D fs (cache_key rq) = None →
  let stored := cache_put D fs (cache_key rq) (transcript raw) wo in
  let caught := except rq argv stored.2 in
  popens (events (execute_body D rq argv password (Exited raw rc) wo fs before))
    = popens before ++ [argv]
  ∧ alerts (events (execute_body D rq argv password (Exited raw rc) wo fs before))
    = alerts before ++ alerts (report rc (transcript raw)) ++ alerts caught.1
  ∧ console (events (execute_body D rq argv password (Exited raw rc) wo fs before))
    = console before ++ ["Running: " +:+ Text.join " " argv]
        ++ console (report rc (transcript raw)) ++ console caught.1
  ∧ callbacks (events (execute_body D rq argv password (Exited raw rc) wo fs before))
    = callbacks before
        ++ when (negb caught.2 && callback rq) [(transcript raw, source rq)]
  ∧ sink (events (execute_body D rq argv password (Exited raw rc) wo fs before))
    = sink before
        ++ when (log_callback rq) (Text.readlines (Text.translate_newlines raw))
        ++ sink caught.1
  ∧ files (execute_body D rq argv password (Exited raw rc) wo fs before) = stored.1
  ∧ fault (execute_body D rq argv password (Exited raw rc) wo fs before) = caught.2.
Proof.
  intros Hmiss stored caught. rewrite body_miss by done.
  cbn [try_popen]. fold (transcript raw). fold stored. fold caught.
  destruct (report_events rc (transcript raw)) as (Hr1 & Hr2 & Hr3 & _).
  destruct (except_events rq argv stored.2) as (He1 & He2 & _). fold caught in He1, He2.
  destruct caught.2; cbn [events files fault negb andb].
  all: autorewrite with trace; rewrite ?Hr1, ?Hr2, ?Hr3, ?He1, ?He2.
  all: destruct password as [pw|]; observe; try done.
  all: by rewrite <- ?(assoc_L (++)).
Qed.

(** ** Classification of the exit *)

(** C5: for every executed process whose exit code is not zero: when its
    transcript contains "incorrect password" (whatever else it contains), the
    exit is an AuthFailure, the error box "Authentication Failed" is shown
    and the console gets "Error: Incorrect password for sudo." and no exit
    code line; when it does not, the exit is a NonZeroExit, the console gets
    "Process exited with code N", and no error box is shown for it.  After
    these comes only what the [except] clause posts when the write to the
    cache raises, which is nothing when the write succeeds or the request
    has no cache key. *)
Theorem nonzero_exit_classification D rq w fs raw rc argv :
  process w = Exited raw rc →
  rc ≠ 0%Z →
  Popen argv ∈ events (_execute D rq w fs) →
  let caught :=
    (except rq argv
       (cache_put D fs (cache_key rq) (transcript raw) (cache_write w)).2).1 in
  ((∃ pre post, transcript raw = pre +:+ "incorrect password" +:+ post) →
     classify rc (transcript raw) = AuthFailure
     ∧ alerts (events (_execute D rq w fs))
         = [("Authentication Failed", "The password you entered was incorrect.")]
             ++ alerts caught
     ∧ console (events (_execute D rq w fs))
         = ["Running: " +:+ Text.join " " argv; "Error: Incorrect password for sudo."]
             ++ console caught)
  ∧ (¬ (∃ pre post, transcript raw = pre +:+ "incorrect password" +:+ post) →
     classify rc (transcript raw) = NonZeroExit
     ∧ alerts (events (_execute D rq w fs)) = alerts caught
     ∧ console (events (_execute D rq w fs))
         = ["Running: " +:+ Text.join " " argv;
            "Process exited with code " +:+ pretty rc]
             ++ console caught)
  ∧ (cache_write w = Written ∨ cache_key rq = None → caught = []).
Proof.
  intros Hproc Hrc Hpopen%elem_of_popens caught.
  assert (Hnz : negb (rc =? 0)%Z = true) by (apply negb_true_iff; lia).
  destruct (elevation_cancelled rq w) eqn:Hc.
  { rewrite cancelled_result in Hpopen by done. simpl in Hpopen. revert Hpopen.
    observe. by intros ?%elem_of_nil. }
  destruct (granted_result D rq w fs Hc)
    as (password & before & E & Hp & _ & _ & _ & Ha & Hco & _).
  rewrite E in *. clear E. rewrite Hproc in *.
  assert (Hmiss : force_refresh rq = true ∨ cache_get D fs (cache_key rq) = None).
  { destruct (cache_cases D rq fs) as [?|[Hforce [[T Hget]|Hget]]]; [done| |].
    - rewrite (body_hit D _ _ _ _ _ _ _ T) in Hpopen by done. simpl in Hpopen.
      revert Hpopen. observe. rewrite Hp. by intros ?%elem_of_nil.
    - rewrite body_unreadable in Hpopen by done. simpl in Hpopen.
      rewrite Hp in Hpopen. by apply elem_of_nil in Hpopen. }
  destruct (body_exited D rq (effective_argv rq) password raw rc (cache_write w) fs
              before Hmiss) as (Hpo & Hal & Hcon & _).
  rewrite Hpo, Hp in Hpopen. apply list_elem_of_singleton in Hpopen as ->.
  fold caught in Hal, Hcon.
  rewrite Hal, Hcon, Ha, Hco. unfold report, classify. rewrite Hnz. simpl.
  split; [|split]; [intros Hin%contains_spec | intros Hnot | intros Hw].
  - by rewrite Hin.
  - destruct (Text.contains "incorrect password" (transcript raw)) eqn:Hcont;
      [by apply contains_spec in Hcont | done].
  - unfold caught. destruct Hw as [-> | ->]; [by rewrite cache_put_written | done].
Qed.

Lemma nonzero_exit_classification_witness :
  process Scenario.wrong_password = Exited Scenario.wrong_password_output 1
  ∧ 1%Z ≠ 0%Z
  ∧ Popen (effective_argv (job_request Scenario.remove_job))
      ∈ events (_execute Scenario.CACHE_DIR (job_request Scenario.remove_job)
                  Scenario.wrong_password ∅)
  ∧ classify 1 (transcript Scenario.wrong_password_output) = AuthFailure
  ∧ alerts (events (_execute Scenario.CACHE_DIR (job_request Scenario.remove_job)
                      Scenario.wrong_password ∅))
      = [("Authentication Failed", "The password you entered was incorrect.")]
  ∧ console (events (_execute Scenario.CACHE_DIR (job_request Scenario.remove_job)
                       Scenario.wrong_password ∅))
      = ["Running: " +:+ Text.join " " (effective_argv (job_request Scenario.remove_job));
         "Error: Incorrect password for sudo."].
Proof.
  assert (H : Popen (effective_argv (job_request Scenario.remove_job))
                ∈ events (_execute Scenario.CACHE_DIR (job_request Scenario.remove_job)
                            Scenario.wrong_password ∅)).
  { vm_compute. do 3 apply list_elem_of_further. apply list_elem_of_here. }
  split; [reflexivity|]. split; [discriminate|]. split; [exact H|].
  apply (proj1 (nonzero_exit_classification Scenario.CACHE_DIR
                  (job_request Scenario.remove_job) Scenario.wrong_password ∅
                  Scenario.wrong_password_output 1
                  (effective_argv (job_request Scenario.remove_job))
                  eq_refl ltac:(discriminate) H)).
  exists ("Sorry, try again." +:+ nl +:+ "sudo: 1 "), (" attempt" +:+ nl).
  reflexivity.
Defined.

(** ** The cache round trip *)

Lemma transcript_translated raw : transcript raw = Text.translate_newlines raw.
Proof. apply join_readlines. Qed.

Lemma cache_path_some D K :
  Text.truthy K = true →
  ∃ p, cache_path D (Some K) = Some p ∧ Text.truthy p = true.
Proof.
  intros HK. exists (path_join D K). simpl. rewrite HK.
  split; [done|]. by apply truthy_path_join.
Qed.

(** A text that has been written is read back with its line ends
    translated. *)
Lemma cache_put_get D fs K T :
  Text.truthy K = true →
  Text.truthy (Text.strip T) = true →
  cache_get D (cache_put D fs (Some K) T Written).1 (Some K)
    = Some (Readable (Text.translate_newlines T)).
Proof.
  intros HK HT. destruct (cache_path_some D K HK) as (p & Hp & Htp).
  unfold cache_get, cache_put. rewrite Hp, Htp, HT. simpl.
  by rewrite lookup_insert_eq.
Qed.

(** A write that is attempted and raises nothing went through. *)
Lemma cache_put_raises_none D fs K T o :
  Text.truthy K = true →
  Text.truthy (Text.strip T) = true →
  (cache_put D fs (Some K) T o).2 = None → o = Written.
Proof.
  intros HK HT. destruct (cache_path_some D K HK) as (p & Hp & Htp).
  unfold cache_put. rewrite Hp, Htp, HT. by destruct o.
Qed.

(** C8, as amended: for every cache key K (a non-empty string: the runner
    takes the empty one for no key) and every transcript T, the text
    accumulated from what a process printed, that is non-empty after trimming
    whitespace, when put(K, T) raises nothing, put(K, T) and then get(K)
    returns exactly T. *)
Theorem cache_roundtrip D fs K raw o :
  Text.truthy K = true →
  Text.truthy (Text.strip (transcript raw)) = true →
  (cache_put D fs (Some K) (transcript raw) o).2 = None →
  cache_get D (cache_put D fs (Some K) (transcript raw) o).1 (Some K)
    = Some (Readable (transcript raw)).
Proof.
  intros HK HT Ho. apply cache_put_raises_none in Ho as ->; [|done..].
  rewrite cache_put_get by done.
  by rewrite transcript_translated, translate_newlines_idemp.
Qed.

Lemma cache_roundtrip_witness :
  Text.truthy "installed_pacman.cache" = true
  ∧ Text.truthy (Text.strip (transcript Scenario.installed_raw)) = true
  ∧ (cache_put Scenario.CACHE_DIR ∅ (Some "installed_pacman.cache")
       (transcript Scenario.installed_raw) Written).2 = None
  ∧ cache_get Scenario.CACHE_DIR
      (cache_put Scenario.CACHE_DIR ∅ (Some "installed_pacman.cache")
         (transcript Scenario.installed_raw) Written).1
      (Some "installed_pacman.cache")
    = Some (Readable (transcript Scenario.installed_raw)).
Proof.
  split; [reflexivity|]. split; [reflexivity|]. split; [reflexivity|].
  apply (cache_roundtrip Scenario.CACHE_DIR ∅ "installed_pacman.cache"
           Scenario.installed_raw Written); reflexivity.
Defined.

(** C8, as the claim states it, fails.  The search for "a/b c" has the cache
    key "yay_a/b_c.cache"; the cache directory has no directory "yay_a", so
    [open] raises FileNotFoundError, nothing is written, and get finds
    nothing. *)
Lemma cache_roundtrip_unwritable_key :
  ¬ (Text.truthy "yay_a/b_c.cache" = true →
     Text.truthy (Text.strip (transcript ("aur/a 1.0-1" +:+ nl))) = true →
     cache_get Scenario.CACHE_DIR
       (cache_put Scenario.CACHE_DIR ∅ (Some "yay_a/b_c.cache")
          (transcript ("aur/a 1.0-1" +:+ nl)) (WriteFails NotFound None)).1
       (Some "yay_a/b_c.cache")
     = Some (Readable (transcript ("aur/a 1.0-1" +:+ nl)))).
Proof. intros H. specialize (H eq_refl eq_refl). vm_compute in H. discriminate H. Qed.

(** ** The secret *)

Lemma body_redact D rq argv o wo fs before p1 p2 :
  Text.truthy p1 = true → Text.truthy p2 = true →
  redact <$> events (execute_body D rq argv (Some p1) o wo fs before)
    = redact <$> events (execute_body D rq argv (Some p2) o wo fs before)
  ∧ files (execute_body D rq argv (Some p1) o wo fs before)
    = files (execute_body D rq argv (Some p2) o wo fs before)
  ∧ stdin_writes (events (execute_body D rq argv (Some p1) o wo fs before))
    = stdin_writes before
        ++ match o with
           | Exited _ _ =>
               match cache_get D fs (cache_key rq), force_refresh rq with
               | Some _, false => []
               | _, _ => [p1 +:+ nl]
               end
           | _ => []
           end.
Proof.
  intros H1 H2.
  destruct (cache_cases D rq fs) as [Hmiss|[Hforce [[T Hget]|Hget]]].
  - rewrite !body_miss by done.
    assert (Hrun : match cache_get D fs (cache_key rq), force_refresh rq with
                   | Some _, false => @nil string
                   | _, _ => [p1 +:+ nl]
                   end = [p1 +:+ nl]).
    { destruct Hmiss as [-> | ->]; [|done]. by destruct (cache_get D fs (cache_key rq)). }
    rewrite Hrun. clear Hrun.
    destruct o as [| e | raw rc]; cbn [try_popen fst snd].
    + destruct (except_events rq argv (Some NotFound)) as (_ & _ & He & _).
      destruct (except rq argv (Some NotFound)) as [caught []]; cbn [fst snd events files fault] in *.
      all: rewrite ?fmap_app; autorewrite with trace; rewrite ?He; by observe.
    + destruct (except_events rq argv (Some (Unexpected e))) as (_ & _ & He & _).
      destruct (except rq argv (Some (Unexpected e))) as [caught []]; cbn [fst snd events files fault] in *.
      all: rewrite ?fmap_app; autorewrite with trace; rewrite ?He; by observe.
    + match goal with |- context [except rq argv ?r] =>
        destruct (except_events rq argv r) as (_ & _ & He & _);
        destruct (except rq argv r) as [caught reraised] end.
      match goal with |- context [report rc ?out] =>
        destruct (report_events rc out) as (_ & _ & _ & Hr & _) end.
      rewrite H1, H2. cbn [fst snd] in He.
      destruct reraised; cbn [events files fault fst snd].
      all: rewrite !fmap_app; autorewrite with trace; rewrite ?He, ?Hr; by observe.
  - rewrite !(body_hit D _ _ _ _ _ _ _ T) by done. rewrite Hget, Hforce. simpl.
    split; [done|]. split; [done|]. observe. destruct o; by rewrite ?app_nil_r.
  - rewrite !body_unreadable by done. rewrite Hget, Hforce. simpl.
    destruct o; by rewrite ?app_nil_r.
Qed.

(** C9: for every elevated execution (the dialog gave a non-empty password),
    two runs that differ only in the password leave the same cache directory
    and the same trace up to what is written to the input stream of the
    process; whatever is written there is the password followed by a newline,
    and it is written, once, whenever the process is spawned and runs. *)
Theorem secret_reaches_only_stdin D rq o wo fs p1 p2 :
  Text.truthy p1 = true →
  Text.truthy p2 = true →
  redact <$> events (_execute D rq {| dialog := PressOk p1; process := o;
                                      cache_write := wo |} fs)
    = redact <$> events (_execute D rq {| dialog := PressOk p2; process := o;
                                          cache_write := wo |} fs)
  ∧ files (_execute D rq {| dialog := PressOk p1; process := o; cache_write := wo |} fs)
    = files (_execute D rq {| dialog := PressOk p2; process := o; cache_write := wo |} fs)
  ∧ (∀ data,
       data ∈ stdin_writes (events (_execute D rq {| dialog := PressOk p1; process := o;
                                                     cache_write := wo |} fs))
       → data = p1 +:+ nl)
  ∧ (∀ raw rc argv,
       requires_sudo rq = true → o = Exited raw rc →
       Popen argv ∈ events (_execute D rq {| dialog := PressOk p1; process := o;
                                             cache_write := wo |} fs) →
       stdin_writes (events (_execute D rq {| dialog := PressOk p1; process := o;
                                              cache_write := wo |} fs))
         = [p1 +:+ nl]).
Proof.
  intros H1 H2. unfold _execute. simpl.
  destruct (requires_sudo rq) eqn:Hsudo.
  - destruct p1 as [|c1 p1]; [done|]. destruct p2 as [|c2 p2]; [done|].
    unfold PasswordDialog._ok_event.
    set (before := when (set_global_busy rq) [SetBusy true] ++ _).
    destruct (body_redact D rq ("sudo" :: "-S" :: command rq) o wo fs before
                (String c1 p1) (String c2 p2) H1 H2) as (Hev & Hfs & Hin).
    assert (Hb : stdin_writes before = [] ∧ popens before = []).
    { unfold before. by observe. }
    destruct Hb as [Hb Hbp].
    split; [done|]. split; [done|]. rewrite Hin, Hb. simpl. split.
    + intros data. destruct o; try by intros ?%elem_of_nil.
      destruct (cache_get D fs (cache_key rq)), (force_refresh rq);
        rewrite ?list_elem_of_singleton; try done. by intros ?%elem_of_nil.
    + intros raw rc argv _ -> Hpopen%elem_of_popens.
      destruct (cache_cases D rq fs) as [Hmiss|[Hforce [[T Hget]|Hget]]].
      * destruct Hmiss as [-> | ->]; [|done]. by destruct (cache_get D fs (cache_key rq)).
      * rewrite (body_hit D _ _ _ _ _ _ _ T) in Hpopen by done. simpl in Hpopen.
        revert Hpopen. observe. rewrite Hbp. by intros ?%elem_of_nil.
      * rewrite body_unreadable in Hpopen by done. simpl in Hpopen.
        rewrite Hbp in Hpopen. by apply elem_of_nil in Hpopen.
  - split; [done|]. split; [done|]. split; [|done].
    intros data.
    set (before := when (set_global_busy rq) [SetBusy true]).
    assert (Hb : stdin_writes before = []) by (unfold before; by observe).
    destruct (cache_cases D rq fs) as [Hmiss|[Hforce [[T Hget]|Hget]]].
    + rewrite body_miss by done.
      destruct o as [| e | raw rc]; cbn [try_popen fst snd].
      * destruct (except_events rq (command rq) (Some NotFound)) as (_ & _ & He & _).
        destruct (except rq (command rq) (Some NotFound)) as [caught []]; cbn [fst snd events files fault] in *.
        all: autorewrite with trace; rewrite ?He, Hb; observe.
        all: by intros ?%elem_of_nil.
      * destruct (except_events rq (command rq) (Some (Unexpected e))) as (_ & _ & He & _).
        destruct (except rq (command rq) (Some (Unexpected e))) as [caught []]; cbn [fst snd events files fault] in *.
        all: autorewrite with trace; rewrite ?He, Hb; observe.
        all: by intros ?%elem_of_nil.
      * match goal with |- context [except rq (command rq) ?r] =>
          destruct (except_events rq (command rq) r) as (_ & _ & He & _);
          destruct (except rq (command rq) r) as [caught reraised] end.
        match goal with |- context [report rc ?out] =>
          destruct (report_events rc out) as (_ & _ & _ & Hr & _) end.
        cbn [fst snd] in He.
        destruct reraised; cbn [events files fault fst snd].
        all: autorewrite with trace; rewrite ?He, ?Hr, Hb; observe.
        all: by intros ?%elem_of_nil.
    + rewrite (body_hit D _ _ _ _ _ _ _ T) by done. simpl. observe. rewrite Hb.
      by intros ?%elem_of_nil.
    + rewrite body_unreadable by done. simpl. rewrite Hb. by intros ?%elem_of_nil.
Qed.

Lemma secret_reaches_only_stdin_witness :
  Text.truthy "hunter2" = true
  ∧ Text.truthy "correct horse" = true
  ∧ redact <$> events (_execute Scenario.CACHE_DIR Scenario.elevated_cached_request
                         {| dialog := PressOk "hunter2";
                            process := Exited Scenario.installed_raw 0;
                            cache_write := Written |} ∅)
    = redact <$> events (_execute Scenario.CACHE_DIR Scenario.elevated_cached_request
                           {| dialog := PressOk "correct horse";
                              process := Exited Scenario.installed_raw 0;
                              cache_write := Written |} ∅)
  ∧ files (_execute Scenario.CACHE_DIR Scenario.elevated_cached_request
             {| dialog := PressOk "hunter2";
                process := Exited Scenario.installed_raw 0;
                cache_write := Written |} ∅)
    = files (_execute Scenario.CACHE_DIR Scenario.elevated_cached_request
               {| dialog := PressOk "correct horse";
                  process := Exited Scenario.installed_raw 0;
                  cache_write := Written |} ∅).
Proof.
  split; [reflexivity|]. split; [reflexivity|].
  destruct (secret_reaches_only_stdin Scenario.CACHE_DIR Scenario.elevated_cached_request
              (Exited Scenario.installed_raw 0) Written ∅ "hunter2" "correct horse"
              eq_refl eq_refl) as (Hev & Hfs & _).
  split; [exact Hev | exact Hfs].
Defined.

(** ** The job queue *)

Lemma body_exited_events D rq argv password raw rc wo fs before :
  force_refresh rq = true ∨ cache_get D fs (cache_key rq) = None →
  cache_key rq = None →
  events (execute_body D rq argv password (Exited raw rc) wo fs before)
  = before
      ++ [UpdateStatus ("Running: " +:+ Text.join " " argv);
          LogToConsole ("Running: " +:+ Text.join " " argv)]
      ++ [Popen argv]
      ++ match password with
         | Some pw => when (Text.truthy pw) [StdinWrite (pw +:+ nl)]
         | None => []
         end
      ++ when (log_callback rq) (LogCallback <$> Text.readlines (Text.translate_newlines raw))
      ++ report rc (transcript raw)
      ++ [UpdateStatus "Ready"]
      ++ when (callback rq) [Callback (transcript raw) (source rq)]
      ++ when (set_global_busy rq) [SetBusy false].
Proof.
  intros Hmiss Hkey. rewrite body_miss by done. cbn [try_popen]. rewrite Hkey.
  unfold except, cache_put. cbn [cache_path fst snd events]. fold (transcript raw).
  by rewrite app_nil_r, <- !(assoc_L (++)).
Qed.

(** A job whose process runs ends with its completion callback, whatever
    the exit code and whatever the password dialog gave: after a cancelled
    elevation nothing is spawned and the callback gets the empty text;
    otherwise the job's command is spawned, once, before the callback, which
    gets the transcript. *)
Lemma job_completes D job w fs raw rc :
  process w = Exited raw rc →
  (∃ pre,
      events (_execute D (job_request job) w fs)
        = pre ++ [Callback (if elevation_cancelled (job_request job) w then ""
                            else transcript raw) None]
      ∧ callbacks pre = []
      ∧ popens pre = if elevation_cancelled (job_request job) w then []
                     else [effective_argv (job_request job)])
  ∧ files (_execute D (job_request job) w fs) = fs
  ∧ fault (_execute D (job_request job) w fs) = false.
Proof.
  intros Hproc.
  destruct (elevation_cancelled (job_request job) w) eqn:Hc.
  - rewrite cancelled_result by done. simpl. split; [|done].
    unfold when. simpl. by eexists [_; _; _].
  - destruct (granted_result D (job_request job) w fs Hc)
      as (password & before & -> & Hp & Hcb & _).
    rewrite Hproc. split.
    + rewrite body_exited_events by (done || by left).
      change (callback (job_request job)) with true.
      change (set_global_busy (job_request job)) with false.
      change (when false [SetBusy false]) with (@nil Event).
      change (when true [Callback (transcript raw) (source (job_request job))])
        with [Callback (transcript raw) None].
      rewrite app_nil_r, !(assoc_L (++)). eexists. split; [done|].
      destruct (report_events rc (transcript raw)) as (Hr1 & Hr2 & _).
      autorewrite with trace. rewrite Hp, Hcb, Hr1, Hr2.
      by destruct password; observe.
    + destruct (body_exited D (job_request job) (effective_argv (job_request job))
                  password raw rc (cache_write w) fs before)
        as (_ & _ & _ & _ & _ & -> & ->); [by left|]. done.
Qed.

Lemma job_completes_fired D job w fs raw rc :
  process w = Exited raw rc →
  existsb is_callback (events (_execute D (job_request job) w fs)) = true.
Proof.
  intros Hproc. destruct (job_completes D job w fs raw rc Hproc) as [(pre & -> & _) _].
  rewrite existsb_app. simpl. by rewrite orb_true_r.
Qed.

Lemma job_popens D job w fs raw rc :
  process w = Exited raw rc →
  popens (events (_execute D (job_request job) w fs))
    = if elevation_cancelled (job_request job) w then []
      else [effective_argv (job_request job)].
Proof.
  intros Hproc.
  destruct (job_completes D job w fs raw rc Hproc) as [(pre & -> & _ & Hp) _].
  rewrite popens_app, Hp. simpl. by rewrite app_nil_r.
Qed.

(** The runner itself never refreshes the installed list. *)
Lemma execute_no_refresh D rq w fs : refreshes (events (_execute D rq w fs)) = [].
Proof.
  destruct (elevation_cancelled rq w) eqn:Hc.
  - rewrite cancelled_result by done. simpl. by observe.
  - destruct (granted_result D rq w fs Hc)
      as (password & before & -> & _ & _ & _ & _ & _ & _ & _ & Hb & _).
    destruct (cache_cases D rq fs) as [Hmiss|[Hforce [[T Hget]|Hget]]].
    + rewrite body_miss by done.
      assert (Htry : refreshes (try_popen D rq (effective_argv rq) password (process w)
                                  (cache_write w) fs).1.1.1 = []).
      { destruct (process w) as [| e | raw rc]; cbn [try_popen fst snd].
        - destruct (except_events rq (effective_argv rq) (Some NotFound))
            as (_ & _ & _ & _ & He).
          autorewrite with trace. by rewrite He.
        - destruct (except_events rq (effective_argv rq) (Some (Unexpected e)))
            as (_ & _ & _ & _ & He).
          autorewrite with trace. by rewrite He.
        - match goal with |- context [except rq (effective_argv rq) ?r] =>
            destruct (except_events rq (effective_argv rq) r) as (_ & _ & _ & _ & He) end.
          match goal with |- context [report rc ?out] =>
            destruct (report_events rc out) as (_ & _ & _ & _ & _ & Hr) end.
          autorewrite with trace. rewrite He, Hr. by destruct password; observe. }
      destruct (try_popen D rq (effective_argv rq) password (process w) (cache_write w) fs)
        as [[[evs out] fs1] raised].
      cbn [fst] in Htry.
      destruct raised; cbn [events]; autorewrite with trace; rewrite Hb, Htry; [done|].
      by destruct out; observe.
    + rewrite (body_hit D _ _ _ _ _ _ _ T) by done. simpl. observe. by rewrite Hb.
    + by rewrite body_unreadable.
Qed.

Lemma run_next_job_all D jobs i world fs :
  (∀ k, k < length jobs → ∃ raw rc, process (world (i + k)) = Exited raw rc) →
  events (run_next_job D jobs i world fs)
    = concat (imap (λ k job, events (_execute D (job_request job) (world (i + k)) fs)) jobs)
        ++ all_complete
  ∧ files (run_next_job D jobs i world fs) = fs
  ∧ fault (run_next_job D jobs i world fs) = false.
Proof.
  revert i. induction jobs as [|job jobs IH]; intros i Hall; [done|].
  destruct (Hall 0) as (raw & rc & Hproc); [simpl; lia|].
  rewrite Nat.add_0_r in Hproc.
  cbn [run_next_job]. rewrite (job_completes_fired D job _ fs raw rc Hproc).
  destruct (job_completes D job (world i) fs raw rc Hproc) as (_ & -> & _).
  destruct (IH (S i)) as (Hev & Hfs & Hfault).
  { intros k Hk. destruct (Hall (S k)) as (raw' & rc' & H'); [simpl; lia|].
    exists raw', rc'. by rewrite <- H', Nat.add_succ_r. }
  simpl. rewrite Hev, Hfs, Hfault, Nat.add_0_r. split; [|done].
  rewrite <- (assoc_L (++)). do 3 f_equal.
  apply imap_ext. intros k job' _. simpl. by rewrite Nat.add_succ_r.
Qed.

Lemma refreshes_concat_imap (f : nat → Job.t → list Event) (jobs : list Job.t) :
  (∀ i job, refreshes (f i job) = []) → refreshes (concat (imap f jobs)) = [].
Proof.
  revert f. induction jobs as [|job jobs IH]; intros f Hf; [done|].
  rewrite imap_cons. simpl. rewrite refreshes_app, Hf. simpl.
  apply IH. intros i job'. apply Hf.
Qed.

Lemma popens_concat_imap (f : nat → Job.t → list Event) (jobs : list Job.t) :
  popens (concat (imap f jobs)) = concat (imap (λ i job, popens (f i job)) jobs).
Proof.
  revert f. induction jobs as [|job jobs IH]; intros f; [done|].
  rewrite !imap_cons. simpl. rewrite popens_app. f_equal. apply IH.
Qed.

(** C3: for every package queue and every process running to an exit code
    of whatever value.  The jobs are those of the groups system installs,
    system removes, flatpak installs, flatpak removes that are not empty, in
    that order.  The chain's trace is the whole trace of each job in that
    order and then the line "All operations complete.", the completion of
    the dialog and one refresh of the installed list.  The trace of every
    job ends with its completion callback, which gets the transcript of the
    job's process, and before it the job's command has been spawned, once;
    only after a cancelled elevation nothing is spawned and the callback
    gets the empty text.  So the processes spawned in the chain are the
    commands of the jobs, in order.  [process_queue] starts that chain for
    every queue that is not empty. *)
Theorem queue_chain_runs_every_job D package_queue world fs :
  (∀ i, i < length (build_jobs package_queue) →
        ∃ raw rc, process (world i) = Exited raw rc) →
  build_jobs package_queue
    = omap (λ '(prefix, act, flatpak),
              match select package_queue act flatpak with
              | [] => None
              | pkgs => Some {| Job.cmd := prefix ++ pkgs; Job.sudo := negb flatpak |}
              end)
        [(["yay"; "-S"; "--noconfirm"], "install", false);
         (["pacman"; "-Rns"; "--noconfirm"], "remove", false);
         (["flatpak"; "install"; "flathub"; "-y"; "--verbose"], "install", true);
         (["flatpak"; "uninstall"; "-y"; "--verbose"], "remove", true)]
  ∧ events (run_next_job D (build_jobs package_queue) 0 world fs)
    = concat (imap (λ i job, events (_execute D (job_request job) (world i) fs))
                   (build_jobs package_queue))
        ++ [DialogAppendLog (nl +:+ nl +:+ "All operations complete." +:+ nl);
            DialogOnComplete;
            LogToConsole "Package queue processing finished.";
            RefreshInstalledList true]
  ∧ (∀ i job, build_jobs package_queue !! i = Some job →
       ∃ pre raw rc,
         process (world i) = Exited raw rc
         ∧ events (_execute D (job_request job) (world i) fs)
           = pre ++ [Callback (if elevation_cancelled (job_request job) (world i)
                               then "" else transcript raw) None]
         ∧ callbacks pre = []
         ∧ popens pre = if elevation_cancelled (job_request job) (world i) then []
                        else [effective_argv (job_request job)])
  ∧ popens (events (run_next_job D (build_jobs package_queue) 0 world fs))
    = concat (imap (λ i job, if elevation_cancelled (job_request job) (world i) then []
                             else [effective_argv (job_request job)])
                   (build_jobs package_queue))
  ∧ refreshes (events (run_next_job D (build_jobs package_queue) 0 world fs)) = [true]
  ∧ fault (run_next_job D (build_jobs package_queue) 0 world fs) = false
  ∧ (package_queue ≠ [] →
     events (process_queue D package_queue world fs)
       = [OpenProcessDialog "Processing Queue"] ++ clear_queue
           ++ events (run_next_job D (build_jobs package_queue) 0 world fs)).
Proof.
  intros Hall.
  destruct (run_next_job_all D (build_jobs package_queue) 0 world fs Hall)
    as (Hev & _ & Hfault).
  split; [|split; [done|]]. 2: split; [|split; [|split; [|split; [done|]]]].
  - unfold build_jobs. cbn [omap list_omap].
    by destruct (select package_queue "install" false),
         (select package_queue "remove" false),
         (select package_queue "install" true),
         (select package_queue "remove" true).
  - intros i job Hjob.
    destruct (Hall i) as (raw & rc & Hproc); [by eapply lookup_lt_Some|].
    destruct (job_completes D job (world i) fs raw rc Hproc) as [(pre & ? & ? & ?) _].
    by exists pre, raw, rc.
  - rewrite Hev, popens_app, popens_concat_imap. change (popens all_complete) with (@nil
      (list string)). rewrite app_nil_r. f_equal.
    apply imap_ext. intros i job Hjob.
    destruct (Hall i) as (raw & rc & Hproc); [by eapply lookup_lt_Some|].
    apply (job_popens D job (world i) fs raw rc Hproc).
  - rewrite Hev. rewrite !refreshes_app, refreshes_concat_imap; [done|].
    intros i job. apply execute_no_refresh.
  - by destruct package_queue.
Qed.

Lemma queue_chain_runs_every_job_witness :
  (∀ i, i < length (build_jobs Scenario.system_queue) →
        ∃ raw rc, process (Scenario.first_fails i) = Exited raw rc)
  ∧ popens (events (run_next_job Scenario.CACHE_DIR (build_jobs Scenario.system_queue)
                      0 Scenario.first_fails ∅))
    = [["sudo"; "-S"; "yay"; "-S"; "--noconfirm"; "vim"];
       ["sudo"; "-S"; "pacman"; "-Rns"; "--noconfirm"; "nano"]]
  ∧ refreshes (events (run_next_job Scenario.CACHE_DIR (build_jobs Scenario.system_queue)
                         0 Scenario.first_fails ∅)) = [true]
  ∧ fault (run_next_job Scenario.CACHE_DIR (build_jobs Scenario.system_queue)
             0 Scenario.first_fails ∅) = false
  ∧ (Scenario.system_queue ≠ [] →
     events (process_queue Scenario.CACHE_DIR Scenario.system_queue Scenario.first_fails ∅)
       = [OpenProcessDialog "Processing Queue"] ++ clear_queue
           ++ events (run_next_job Scenario.CACHE_DIR (build_jobs Scenario.system_queue)
                        0 Scenario.first_fails ∅)).
Proof.
  assert (H : ∀ i, i < length (build_jobs Scenario.system_queue) →
                   ∃ raw rc, process (Scenario.first_fails i) = Exited raw rc).
  { intros [|i] _; simpl; eauto. }
  split; [exact H|].
  destruct (queue_chain_runs_every_job Scenario.CACHE_DIR Scenario.system_queue
              Scenario.first_fails ∅ H) as (_ & _ & _ & Hpopens & Hrest).
  split; [exact Hpopens | exact Hrest].
Defined.

(** C1, at a failing input: with flatpak missing, the worker of the first
    flatpak job logs and alerts "Command not found" and posts "Ready", but
    never its completion callback; the chain stops there: the second job is
    not started, the dialog is never completed and nothing is refreshed. *)
Theorem spawn_failure_skips_completion_callback D fs :
  events (process_queue D Scenario.flatpak_queue Scenario.flatpak_missing fs)
    = [OpenProcessDialog "Processing Queue"; QueueButton "Show Queue (0)";
       UpdateStatus "Queue cleared.";
       UpdateStatus "Running: flatpak install flathub -y --verbose org.gimp.GIMP";
       LogToConsole "Running: flatpak install flathub -y --verbose org.gimp.GIMP";
       Popen ["flatpak"; "install"; "flathub"; "-y"; "--verbose"; "org.gimp.GIMP"];
       LogToConsole "Error: Command not found - flatpak.";
       ShowError "Command Not Found" "Error: Command not found - flatpak.";
       UpdateStatus "Ready"]
  ∧ length (build_jobs Scenario.flatpak_queue) = 2
  ∧ callbacks (events (process_queue D Scenario.flatpak_queue Scenario.flatpak_missing fs))
      = [].
Proof. by repeat split. Qed.

(** The chain at large: it runs the jobs in order up to the first one whose
    worker posts no completion callback, and stops after that one's trace. *)
Lemma run_next_job_stalls D ran job rest i world fs :
  (∀ k, k < length ran → ∃ raw rc, process (world (i + k)) = Exited raw rc) →
  existsb is_callback
    (events (_execute D (job_request job) (world (i + length ran)) fs)) = false →
  events (run_next_job D (ran ++ job :: rest) i world fs)
    = concat (imap (λ k j, events (_execute D (job_request j) (world (i + k)) fs)) ran)
        ++ events (_execute D (job_request job) (world (i + length ran)) fs).
Proof.
  revert i. induction ran as [|j ran IH]; intros i Hall Hstall.
  - simpl in *. rewrite Nat.add_0_r in *. by rewrite Hstall.
  - destruct (Hall 0) as (raw & rc & Hproc); [simpl; lia|].
    rewrite Nat.add_0_r in Hproc.
    cbn [app run_next_job]. rewrite (job_completes_fired D j _ fs raw rc Hproc).
    destruct (job_completes D j (world i) fs raw rc Hproc) as (_ & -> & _).
    cbn [events]. rewrite (IH (S i)).
    + simpl. rewrite Nat.add_0_r, <- (assoc_L (++)), Nat.add_succ_r. do 3 f_equal.
      apply imap_ext. intros k j' _. simpl. by rewrite Nat.add_succ_r.
    + intros k Hk. destruct (Hall (S k)) as (raw' & rc' & H'); [simpl; lia|].
      exists raw', rc'. by rewrite <- H', Nat.add_succ_r.
    + simpl in Hstall. by rewrite Nat.add_succ_r in Hstall.
Qed.

(** The same for every request: when the spawn fails, not found or
    otherwise, no completion callback is posted. *)
Lemma spawn_failure_no_callback D rq w fs :
  elevation_cancelled rq w = false →
  force_refresh rq = true ∨ cache_get D fs (cache_key rq) = None →
  (∀ raw rc, process w ≠ Exited raw rc) →
  callbacks (events (_execute D rq w fs)) = [].
Proof.
  intros Hc Hmiss Hfail.
  destruct (granted_result D rq w fs Hc) as (password & before & -> & _ & Hcb & _).
  rewrite body_miss by done.
  destruct (process w) as [| e | raw rc]; [| |by destruct (Hfail raw rc)];
    cbn [try_popen fst snd].
  - destruct (except_events rq (effective_argv rq) (Some NotFound)) as (_ & He & _).
    destruct (except rq (effective_argv rq) (Some NotFound)) as [caught []];
      cbn [fst snd events] in *; autorewrite with trace; rewrite Hcb, He; by observe.
  - destruct (except_events rq (effective_argv rq) (Some (Unexpected e))) as (_ & He & _).
    destruct (except rq (effective_argv rq) (Some (Unexpected e))) as [caught []];
      cbn [fst snd events] in *; autorewrite with trace; rewrite Hcb, He; by observe.
Qed.

(** C2, at a failing input: the information request for a package that does
    not exist exits with code 1, a NonZeroExit, and its error text is written
    to the cache all the same; the next request for that package, whatever
    the process would print now, is answered with the cached error text. *)
Theorem failed_run_is_cached :
  classify 1 (transcript ("error: package 'nosuchpkg' was not found" +:+ nl)) = NonZeroExit
  ∧ cache_get Scenario.CACHE_DIR
      (files (_execute Scenario.CACHE_DIR (Scenario.info_request "nosuchpkg")
                Scenario.lookup_failed ∅))
      (Some "info_nosuchpkg.cache")
    = Some (Readable ("error: package 'nosuchpkg' was not found" +:+ nl))
  ∧ events (_execute Scenario.CACHE_DIR (Scenario.info_request "nosuchpkg")
              {| dialog := PressCancel; process := Exited "Name : nosuchpkg" 0;
                 cache_write := Written |}
              (files (_execute Scenario.CACHE_DIR (Scenario.info_request "nosuchpkg")
                        Scenario.lookup_failed ∅)))
    = [SetBusy true; UpdateStatus "Ready (from cache)";
       Callback ("error: package 'nosuchpkg' was not found" +:+ nl) None;
       SetBusy false].
Proof. by vm_compute. Qed.

(** The same for every request with a cache key that spawns its process:
    whatever the exit code, a transcript that is not blank is in the cache
    afterwards, when the write does not raise. *)
Lemma exit_code_not_tested D rq argv password raw rc fs before K :
  cache_key rq = Some K →
  Text.truthy K = true →
  force_refresh rq = true ∨ cache_get D fs (cache_key rq) = None →
  blank (transcript raw) = false →
  cache_get D (files (execute_body D rq argv password (Exited raw rc) Written fs before))
    (Some K)
    = Some (Readable (transcript raw)).
Proof.
  intros HK Ht Hmiss Hblank.
  destruct (body_exited D rq argv password raw rc Written fs before Hmiss)
    as (_ & _ & _ & _ & _ & -> & _).
  rewrite HK, cache_put_get by (by rewrite ?truthy_strip, ?Hblank).
  by rewrite transcript_translated, translate_newlines_idemp.
Qed.

(** What does hold of the write to the cache: a transcript of nothing but
    whitespace leaves the cache directory as it was, whatever a write would
    do. *)
Lemma cache_put_blank D fs K T o : blank T = true → cache_put D fs K T o = (fs, None).
Proof.
  intros HT. unfold cache_put. destruct (cache_path D K); [|done].
  by rewrite truthy_strip, HT, andb_false_r.
Qed.

(** And the cache directory changes only by such a write. *)
Lemma cache_put_changes D fs K T o :
  (cache_put D fs K T o).1 ≠ fs →
  blank T = false ∧ ∃ k, K = Some k ∧ Text.truthy k = true.
Proof.
  intros Hne. split.
  - destruct (blank T) eqn:HT; [|done]. by rewrite cache_put_blank in Hne.
  - destruct K as [k|]; [|done]. exists k. split; [done|].
    destruct (Text.truthy k) eqn:Hk; [done|].
    unfold cache_put, cache_path in Hne. by rewrite Hk in Hne.
Qed.


(** The installed list, fetched and then replayed: the first request runs
    [pacman -Q] and writes [installed_pacman.cache]; the second one, on the
    cache directory the first one left, spawns nothing and hands the same
    text to its callback. *)
Example cache_miss_then_hit :
  events (_execute Scenario.CACHE_DIR
            (Scenario.installed_request false)
            (Scenario.cancelling (Exited Scenario.installed_raw 0)) ∅)
    = [SetBusy true;
       UpdateStatus "Running: pacman -Q"; LogToConsole "Running: pacman -Q";
       Popen ["pacman"; "-Q"];
       UpdateStatus "Ready";
       Callback ("vim 9.1.0-1" +:+ nl) (Some "pacman");
       SetBusy false]
  ∧ events (_execute Scenario.CACHE_DIR
              (Scenario.installed_request false)
              (Scenario.cancelling SpawnNotFound)
              (files (_execute Scenario.CACHE_DIR
                        (Scenario.installed_request false)
                        (Scenario.cancelling (Exited Scenario.installed_raw 0)) ∅)))
    = [SetBusy true;
       UpdateStatus "Ready (from cache)";
       Callback ("vim 9.1.0-1" +:+ nl) (Some "pacman");
       SetBusy false].
Proof. by vm_compute. Qed.

(** The search for "a/b c", whose cache key holds a slash: [yay] runs and
    prints its results, the write raises FileNotFoundError, and the runner
    reports that the command was not found; the callback gets the results
    all the same, nothing is cached, and the same search spawns [yay]
    again. *)
Example slashed_query_is_not_cached :
  search_request true "a/b c" = Some (search_yay "a/b c")
  ∧ cache_key (search_yay "a/b c") = Some "yay_a/b_c.cache"
  ∧ events (_execute Scenario.CACHE_DIR (search_yay "a/b c")
              {| dialog := PressCancel; process := Exited ("aur/a 1.0-1" +:+ nl) 0;
                 cache_write := WriteFails NotFound None |} ∅)
    = [SetBusy true;
       UpdateStatus "Running: yay -Ss a/b c"; LogToConsole "Running: yay -Ss a/b c";
       Popen ["yay"; "-Ss"; "a/b c"];
       LogToConsole "Error: Command not found - yay.";
       ShowError "Command Not Found" "Error: Command not found - yay.";
       UpdateStatus "Ready";
       Callback ("aur/a 1.0-1" +:+ nl) (Some "yay");
       SetBusy false]
  ∧ files (_execute Scenario.CACHE_DIR (search_yay "a/b c")
             {| dialog := PressCancel; process := Exited ("aur/a 1.0-1" +:+ nl) 0;
                cache_write := WriteFails NotFound None |} ∅) = ∅
  ∧ popens (events (_execute Scenario.CACHE_DIR (search_yay "a/b c")
                      {| dialog := PressCancel; process := Exited ("aur/a 1.0-1" +:+ nl) 0;
                         cache_write := WriteFails NotFound None |}
                      (files (_execute Scenario.CACHE_DIR (search_yay "a/b c")
                                {| dialog := PressCancel;
                                   process := Exited ("aur/a 1.0-1" +:+ nl) 0;
                                   cache_write := WriteFails NotFound None |} ∅))))
    = [["yay"; "-Ss"; "a/b c"]].
Proof. by vm_compute. Qed.

(** * The rest of the application *)

(** ** The package queue *)

Section QueueFacts.
Import PackageQueue.

Lemma is_in_queue_None q n : is_in_queue q n = None ↔ n ∉ Item.pkg_name <$> q.
Proof.
  induction q as [|p q IH]; simpl.
  - split; [intros _; apply not_elem_of_nil | done].
  - rewrite not_elem_of_cons. case_decide as Hn.
    + split; [done | by intros [? _]].
    + rewrite IH. split; [by split | by intros [_ ?]].
Qed.

Lemma is_in_queue_Some q n a :
  is_in_queue q n = Some a → ∃ p, p ∈ q ∧ Item.pkg_name p = n ∧ Item.action p = a.
Proof.
  induction q as [|p q IH]; simpl; [done|]. case_decide as Hn.
  - intros [= <-]. exists p. split; [left | done].
  - intros (p' & ? & ?)%IH. exists p'. split; [by right | done].
Qed.

Lemma is_in_queue_app q1 q2 n :
  is_in_queue (q1 ++ q2) n
  = match is_in_queue q1 n with Some a => Some a | None => is_in_queue q2 n end.
Proof. induction q1 as [|p q1 IH]; simpl; [done|]. by case_decide. Qed.

Lemma filter_other_id q n :
  n ∉ Item.pkg_name <$> q →
  List.filter (λ p, bool_decide (Item.pkg_name p ≠ n)) q = q.
Proof.
  induction q as [|p q IH]; simpl; [done|]. rewrite not_elem_of_cons. intros [Hp Hq].
  rewrite bool_decide_true by done. by rewrite IH.
Qed.

End QueueFacts.

(** X1: the queue never holds a package twice.  A queue whose names are
    distinct and whose actions are not empty stays so under [add_to_queue]
    with a non-empty action and under [remove_from_queue]. *)
Theorem queue_names_stay_unique q action pkg_name source :
  NoDup (Item.pkg_name <$> q) →
  Forall (λ p, Item.action p ≠ "") q →
  action ≠ "" →
  (NoDup (Item.pkg_name <$> (PackageQueue.add_to_queue q action pkg_name source).1)
   ∧ Forall (λ p, Item.action p ≠ "")
       (PackageQueue.add_to_queue q action pkg_name source).1)
  ∧ (NoDup (Item.pkg_name <$> (PackageQueue.remove_from_queue q pkg_name).1)
     ∧ Forall (λ p, Item.action p ≠ "") (PackageQueue.remove_from_queue q pkg_name).1).
Proof.
  intros Hnd Hact Ha. split.
  - unfold PackageQueue.add_to_queue.
    destruct (PackageQueue.is_in_queue q pkg_name) as [a|] eqn:Hq.
    + destruct (is_in_queue_Some q pkg_name a Hq) as (p & Hp & _ & Hpa).
      pose proof (proj1 (Forall_forall _ _) Hact p Hp) as Hne. simpl in Hne.
    rewrite Hpa in Hne.
      destruct a as [|c a]; [done|]. by simpl.
    + apply is_in_queue_None in Hq. simpl. split.
      * rewrite fmap_app. apply NoDup_app. split; [done|]. split.
        -- intros x Hx [->|[]%elem_of_nil]%elem_of_cons. done.
        -- apply NoDup_singleton.
      * apply Forall_app. split; [done|]. by apply Forall_singleton.
  - simpl. split.
    + induction q as [|p q IH]; simpl; [done|].
      apply NoDup_cons in Hnd as [Hp Hq]. apply Forall_cons in Hact as [_ Hact].
      case_bool_decide; simpl; [|by apply IH].
      apply NoDup_cons. split; [|by apply IH].
      intros (p' & Hn & Hin)%list_elem_of_fmap.
      apply list_elem_of_In, filter_In in Hin as [Hin _].
      apply Hp, list_elem_of_fmap. exists p'. by rewrite <- list_elem_of_In in Hin.
    + apply Forall_forall. intros p Hp%list_elem_of_In%filter_In.
      destruct Hp as [Hp _]. rewrite Forall_forall in Hact.
      by apply Hact, list_elem_of_In.
Qed.

Lemma queue_names_stay_unique_witness :
  NoDup (Item.pkg_name <$> Scenario.system_queue)
  ∧ Forall (λ p, Item.action p ≠ "") Scenario.system_queue
  ∧ "install" ≠ ""
  ∧ NoDup (Item.pkg_name
             <$> (PackageQueue.add_to_queue Scenario.system_queue "install" "nano"
                    Config.SOURCE_PACMAN).1).
Proof.
  assert (H1 : NoDup (Item.pkg_name <$> Scenario.system_queue)).
  { simpl. apply NoDup_cons. split; [|apply NoDup_singleton].
    intros [=]%list_elem_of_singleton. }
  assert (H2 : Forall (λ p, Item.action p ≠ "") Scenario.system_queue).
  { repeat constructor; discriminate. }
  assert (H3 : "install" ≠ "") by discriminate.
  split; [exact H1|]. split; [exact H2|]. split; [exact H3|].
  apply (queue_names_stay_unique Scenario.system_queue "install" "nano"
           Config.SOURCE_PACMAN H1 H2 H3).
Defined.

(** X2: what [is_in_queue] answers after [add_to_queue], in a queue whose
    actions are not empty: for the package added, the action it was queued
    with before if it was queued (the new request is dropped, also when it
    asks for the other action), otherwise the new action; for every other
    package, what it answered before. *)
Theorem add_to_queue_lookup q action pkg_name source other :
  Forall (λ p, Item.action p ≠ "") q →
  PackageQueue.is_in_queue (PackageQueue.add_to_queue q action pkg_name source).1 other
  = if decide (other = pkg_name) then
      match PackageQueue.is_in_queue q pkg_name with
      | Some queued => Some queued
      | None => Some action
      end
    else PackageQueue.is_in_queue q other.
Proof.
  intros Hact. unfold PackageQueue.add_to_queue.
  destruct (PackageQueue.is_in_queue q pkg_name) as [a|] eqn:Hq.
  - destruct (is_in_queue_Some q pkg_name a Hq) as (p & Hp & _ & Hpa).
    pose proof (proj1 (Forall_forall _ _) Hact p Hp) as Hne. simpl in Hne.
    rewrite Hpa in Hne.
    destruct a as [|c a]; [done|]. simpl. case_decide; by subst.
  - simpl. rewrite is_in_queue_app. simpl. case_decide as Ho.
    + subst other. rewrite Hq. by rewrite decide_True.
    + rewrite decide_False by done. by destruct (PackageQueue.is_in_queue q other).
Qed.

Lemma add_to_queue_lookup_witness :
  Forall (λ p, Item.action p ≠ "") Scenario.system_queue
  ∧ PackageQueue.is_in_queue
      (PackageQueue.add_to_queue Scenario.system_queue "install" "nano"
         Config.SOURCE_PACMAN).1 "nano"
    = Some "remove".
Proof.
  assert (H : Forall (λ p, Item.action p ≠ "") Scenario.system_queue).
  { repeat constructor; discriminate. }
  split; [exact H|].
  exact (add_to_queue_lookup Scenario.system_queue "install" "nano"
           Config.SOURCE_PACMAN "nano" H).
Defined.

(** X3: after [remove_from_queue] the package is not queued any more, every
    other package is queued as before, and the queue button shows the new
    length. *)
Theorem remove_from_queue_lookup q pkg_name other :
  PackageQueue.is_in_queue (PackageQueue.remove_from_queue q pkg_name).1 other
    = (if decide (other = pkg_name) then None else PackageQueue.is_in_queue q other)
  ∧ (PackageQueue.remove_from_queue q pkg_name).2
    = [UpdateStatus ("Removed '" +:+ pkg_name +:+ "' from queue.");
       QueueButton ("Show Queue ("
                    +:+ pretty (length (PackageQueue.remove_from_queue q pkg_name).1)
                    +:+ ")")]
  ∧ length (PackageQueue.remove_from_queue q pkg_name).1 ≤ length q.
Proof.
  split; [|split; [done|]].
  - simpl. induction q as [|p q IH]; simpl; [by case_decide|].
    case_bool_decide as Hp; simpl.
    + rewrite IH. repeat case_decide; by subst.
    + rewrite IH. repeat case_decide; try done; by subst.
  - simpl. induction q as [|p q IH]; simpl; [done|]. case_bool_decide; simpl; lia.
Qed.

(** X4: queueing a package that was not queued and removing it again gives
    back the queue as it was. *)
Theorem add_then_remove q action pkg_name source :
  PackageQueue.is_in_queue q pkg_name = None →
  (PackageQueue.remove_from_queue
     (PackageQueue.add_to_queue q action pkg_name source).1 pkg_name).1 = q.
Proof.
  intros Hq. unfold PackageQueue.add_to_queue. rewrite Hq. simpl.
  rewrite List.filter_app. simpl. rewrite bool_decide_false by (by intros ?).
  rewrite app_nil_r. by apply filter_other_id, is_in_queue_None.
Qed.

Lemma add_then_remove_witness :
  PackageQueue.is_in_queue Scenario.system_queue "htop" = None
  ∧ (PackageQueue.remove_from_queue
       (PackageQueue.add_to_queue Scenario.system_queue "install" "htop"
          Config.SOURCE_PACMAN).1 "htop").1
    = Scenario.system_queue.
Proof.
  split; [reflexivity|].
  apply (add_then_remove Scenario.system_queue "install" "htop" Config.SOURCE_PACMAN).
  reflexivity.
Defined.

(** X5: the action button of the information dialog toggles.  Pressing
    "Install" or "Uninstall" queues the package, and the dialog opened next
    offers "Remove from Queue"; pressing that one unqueues it, and the dialog
    opened next offers "Uninstall" for an installed package and "Install"
    for any other; and two presses in a row give back the queue. *)
Theorem action_button_toggles installed q pkg_name source :
  InfoDialog.action_button installed
      (InfoDialog.press (InfoDialog.action_button installed q pkg_name) q pkg_name source).1
      pkg_name
    = match InfoDialog.action_button installed q pkg_name with
      | InfoDialog.RemoveFromQueue =>
          if bool_decide (pkg_name ∈ installed) then InfoDialog.Uninstall
          else InfoDialog.Install
      | _ => InfoDialog.RemoveFromQueue
      end
  ∧ (InfoDialog.action_button installed q pkg_name ≠ InfoDialog.RemoveFromQueue →
     (InfoDialog.press InfoDialog.RemoveFromQueue
        (InfoDialog.press (InfoDialog.action_button installed q pkg_name)
           q pkg_name source).1 pkg_name source).1 = q).
Proof.
  unfold InfoDialog.action_button.
  destruct (PackageQueue.is_in_queue q pkg_name) as [a|] eqn:Hq.
  - split; [|done]. simpl.
    destruct (remove_from_queue_lookup q pkg_name pkg_name) as [Hl _].
    simpl in Hl. rewrite Hl, decide_True by done. done.
  - assert (Hadd : ∀ action,
      PackageQueue.is_in_queue
        (PackageQueue.add_to_queue q action pkg_name source).1 pkg_name = Some action).
    { intros action. unfold PackageQueue.add_to_queue. rewrite Hq. simpl.
      rewrite is_in_queue_app, Hq. simpl. by rewrite decide_True. }
    case_bool_decide; simpl; rewrite Hadd; (split; [done|]); intros _;
      by apply add_then_remove.
Qed.

(** ** The jobs of a queue *)

(** Membership in a list that is written out. *)
Ltac in_list := repeat first [apply list_elem_of_here | apply list_elem_of_further].

Lemma elem_of_select q act flatpak n :
  n ∈ select q act flatpak ↔
  ∃ p, p ∈ q ∧ Item.pkg_name p = n ∧ Item.action p = act
       ∧ (if flatpak then Item.source p = Config.SOURCE_FLATPAK
          else Item.source p ≠ Config.SOURCE_FLATPAK).
Proof.
  unfold select. rewrite list_elem_of_fmap. split.
  - intros (p & -> & Hp). apply list_elem_of_In, filter_In in Hp as [Hin Hb].
    apply andb_prop in Hb as [Ha Hs]. apply bool_decide_eq_true in Ha.
    exists p. rewrite list_elem_of_In. repeat split; [done..|].
    destruct flatpak; by apply bool_decide_eq_true in Hs.
  - intros (p & Hin & <- & Ha & Hs). exists p. split; [done|].
    apply list_elem_of_In, filter_In. split; [by apply list_elem_of_In|].
    apply andb_true_intro. split; [by apply bool_decide_eq_true|].
    destruct flatpak; by apply bool_decide_eq_true.
Qed.

Lemma build_jobs_elem q job :
  job ∈ build_jobs q ↔
  ∃ prefix act flatpak,
    (prefix, act, flatpak)
      ∈ [(["yay"; "-S"; "--noconfirm"], "install", false);
         (["pacman"; "-Rns"; "--noconfirm"], "remove", false);
         (["flatpak"; "install"; "flathub"; "-y"; "--verbose"], "install", true);
         (["flatpak"; "uninstall"; "-y"; "--verbose"], "remove", true)]
    ∧ select q act flatpak ≠ []
    ∧ job = {| Job.cmd := prefix ++ select q act flatpak; Job.sudo := negb flatpak |}.
Proof.
  unfold build_jobs. rewrite !elem_of_app. split.
  - intros [H|[H|[H|H]]].
    + destruct (select q "install" false) eqn:E; [by apply elem_of_nil in H|].
      apply list_elem_of_singleton in H as ->. eexists _, "install", false.
      rewrite E. split; [in_list | done].
    + destruct (select q "remove" false) eqn:E; [by apply elem_of_nil in H|].
      apply list_elem_of_singleton in H as ->. eexists _, "remove", false.
      rewrite E. split; [in_list | done].
    + destruct (select q "install" true) eqn:E; [by apply elem_of_nil in H|].
      apply list_elem_of_singleton in H as ->. eexists _, "install", true.
      rewrite E. split; [in_list | done].
    + destruct (select q "remove" true) eqn:E; [by apply elem_of_nil in H|].
      apply list_elem_of_singleton in H as ->. eexists _, "remove", true.
      rewrite E. split; [in_list | done].
  - intros (prefix & act & flatpak & Hin & Hne & ->).
    rewrite !elem_of_cons, elem_of_nil in Hin.
    destruct Hin as [H|[H|[H|[H|[]]]]]; simplify_eq.
    + left. destruct (select q "install" false); [done|]. by apply list_elem_of_singleton.
    + right; left. destruct (select q "remove" false); [done|].
      by apply list_elem_of_singleton.
    + do 2 right; left. destruct (select q "install" true); [done|].
      by apply list_elem_of_singleton.
    + do 3 right. destruct (select q "remove" true); [done|].
      by apply list_elem_of_singleton.
Qed.

(** X6: no queued operation is lost.  Every entry of the queue whose action
    is "install" or "remove" is an argument of one of the jobs: of the
    [yay -S] or [pacman -Rns] job, run with sudo, for a system package, of the
    [flatpak install] or [flatpak uninstall] job, run without, for a flatpak. *)
Theorem build_jobs_covers_queue q p :
  p ∈ q →
  Item.action p = "install" ∨ Item.action p = "remove" →
  ∃ pkgs,
    Item.pkg_name p ∈ pkgs
    ∧ {| Job.cmd :=
           (if decide (Item.source p = Config.SOURCE_FLATPAK) then
              if decide (Item.action p = "install")
              then ["flatpak"; "install"; "flathub"; "-y"; "--verbose"]
              else ["flatpak"; "uninstall"; "-y"; "--verbose"]
            else
              if decide (Item.action p = "install")
              then ["yay"; "-S"; "--noconfirm"]
              else ["pacman"; "-Rns"; "--noconfirm"]) ++ pkgs;
         Job.sudo := bool_decide (Item.source p ≠ Config.SOURCE_FLATPAK) |}
      ∈ build_jobs q.
Proof.
  intros Hin Hact.
  set (flatpak := bool_decide (Item.source p = Config.SOURCE_FLATPAK)).
  assert (Hsel : Item.pkg_name p ∈ select q (Item.action p) flatpak).
  { apply elem_of_select. exists p. repeat split; [done|]. unfold flatpak.
    case_bool_decide; done. }
  exists (select q (Item.action p) flatpak). split; [done|].
  apply build_jobs_elem.
  assert (Hne : select q (Item.action p) flatpak ≠ []).
  { intros E. rewrite E in Hsel. by apply elem_of_nil in Hsel. }
  assert (Hb : bool_decide (Item.source p ≠ Config.SOURCE_FLATPAK) = negb flatpak).
  { unfold flatpak. by repeat case_bool_decide. }
  rewrite Hb.
  assert (Hf : flatpak = if decide (Item.source p = Config.SOURCE_FLATPAK)
                         then true else false).
  { reflexivity. }
  clearbody flatpak.
  destruct Hact as [Ha|Ha]; rewrite Ha in *; case_decide as Hs; subst flatpak; simpl.
  - exists ["flatpak"; "install"; "flathub"; "-y"; "--verbose"], "install", true.
    split; [in_list | done].
  - exists ["yay"; "-S"; "--noconfirm"], "install", false. split; [in_list | done].
  - exists ["flatpak"; "uninstall"; "-y"; "--verbose"], "remove", true.
    split; [in_list | done].
  - exists ["pacman"; "-Rns"; "--noconfirm"], "remove", false. split; [in_list | done].
Qed.

Lemma build_jobs_covers_queue_witness :
  {| Item.action := "install"; Item.pkg_name := "vim"; Item.source := Config.SOURCE_PACMAN |}
    ∈ Scenario.system_queue
  ∧ ("install" = "install" ∨ "install" = "remove")
  ∧ ∃ pkgs,
      "vim" ∈ pkgs
      ∧ {| Job.cmd := ["yay"; "-S"; "--noconfirm"] ++ pkgs; Job.sudo := true |}
          ∈ build_jobs Scenario.system_queue.
Proof.
  assert (H1 : {| Item.action := "install"; Item.pkg_name := "vim";
                  Item.source := Config.SOURCE_PACMAN |} ∈ Scenario.system_queue).
  { apply list_elem_of_further, list_elem_of_here. }
  assert (H2 : "install" = "install" ∨ "install" = "remove") by (left; reflexivity).
  split; [exact H1|]. split; [exact H2|].
  exact (build_jobs_covers_queue Scenario.system_queue _ H1 H2).
Defined.

(** X7: no job is made up.  Every job is one of the four commands followed
    by at least one package, every package argument is the name of a queued
    entry of that job's action, and the job runs with sudo exactly when its
    packages are not flatpaks. *)
Theorem build_jobs_only_queued q job :
  job ∈ build_jobs q →
  ∃ prefix act pkgs,
    Job.cmd job = prefix ++ pkgs
    ∧ pkgs ≠ []
    ∧ (prefix, act, Job.sudo job)
        ∈ [(["yay"; "-S"; "--noconfirm"], "install", true);
           (["pacman"; "-Rns"; "--noconfirm"], "remove", true);
           (["flatpak"; "install"; "flathub"; "-y"; "--verbose"], "install", false);
           (["flatpak"; "uninstall"; "-y"; "--verbose"], "remove", false)]
    ∧ ∀ n, n ∈ pkgs →
        ∃ p, p ∈ q ∧ Item.pkg_name p = n ∧ Item.action p = act
             ∧ Job.sudo job = bool_decide (Item.source p ≠ Config.SOURCE_FLATPAK).
Proof.
  intros (prefix & act & flatpak & Hin & Hne & ->)%build_jobs_elem.
  exists prefix, act, (select q act flatpak). simpl. split; [done|]. split; [done|]. split.
  - rewrite !elem_of_cons, elem_of_nil in Hin.
    destruct Hin as [H|[H|[H|[H|[]]]]]; simplify_eq; simpl; in_list.
  - intros n (p & Hp & Hn & Ha & Hs)%elem_of_select. exists p. repeat split; [done..|].
    destruct flatpak; simpl; by case_bool_decide.
Qed.

Lemma build_jobs_only_queued_witness :
  Scenario.remove_job ∈ build_jobs Scenario.system_queue
  ∧ ∃ prefix act pkgs,
      Job.cmd Scenario.remove_job = prefix ++ pkgs
      ∧ pkgs ≠ []
      ∧ (prefix, act, Job.sudo Scenario.remove_job)
          ∈ [(["yay"; "-S"; "--noconfirm"], "install", true);
             (["pacman"; "-Rns"; "--noconfirm"], "remove", true);
             (["flatpak"; "install"; "flathub"; "-y"; "--verbose"], "install", false);
             (["flatpak"; "uninstall"; "-y"; "--verbose"], "remove", false)]
      ∧ ∀ n, n ∈ pkgs →
          ∃ p, p ∈ Scenario.system_queue ∧ Item.pkg_name p = n ∧ Item.action p = act
               ∧ Job.sudo Scenario.remove_job
                 = bool_decide (Item.source p ≠ Config.SOURCE_FLATPAK).
Proof.
  assert (H : Scenario.remove_job ∈ build_jobs Scenario.system_queue).
  { apply list_elem_of_further, list_elem_of_here. }
  split; [exact H|].
  exact (build_jobs_only_queued Scenario.system_queue Scenario.remove_job H).
Defined.

(** ** The pages of a list view *)

Section PageFacts.
Context {A : Type}.
Implicit Types data : list A.
Import Pages.

Lemma total_pages_bounds data :
  (ITEMS_PER_PAGE * (total_pages data - 1) < Z.of_nat (length data)
   ≤ ITEMS_PER_PAGE * total_pages data)%Z
  ∨ (data = [] ∧ total_pages data = 0%Z).
Proof.
  unfold total_pages, ITEMS_PER_PAGE. destruct data as [|x data]; [by right|left].
  simpl length.
  pose proof (Z.div_mod (Z.of_nat (S (length data)) + 50 - 1) 50 ltac:(lia)).
  pose proof (Z.mod_pos_bound (Z.of_nat (S (length data)) + 50 - 1) 50 ltac:(lia)).
  lia.
Qed.

(** A page in range, as a piece of the list. *)
Lemma page_items_in_range data page :
  (1 ≤ page ≤ total_pages data)%Z →
  page_items data page
  = take 50 (drop (50 * Z.to_nat (page - 1)) data).
Proof.
  intros Hp. destruct (total_pages_bounds data) as [Hb|[_ H0]]; [|lia].
  unfold page_items, slice, ITEMS_PER_PAGE in *.
  rewrite (proj2 (Z.ltb_ge _ _)) by lia.
  rewrite (proj2 (Z.ltb_ge _ _)) by lia.
  replace (Z.to_nat (Z.min ((page - 1) * 50) (Z.of_nat (length data))))
    with (50 * Z.to_nat (page - 1)) by lia.
  destruct (decide (page * 50 ≤ Z.of_nat (length data))%Z).
  - f_equal. lia.
  - rewrite !take_ge; [done | |]; rewrite length_drop; lia.
Qed.

Lemma concat_pages data (n : nat) :
  concat ((λ k : nat, take 50 (drop (50 * k) data)) <$> seq 0 n) = take (50 * n) data.
Proof.
  induction n as [|n IH]; [by rewrite Nat.mul_0_r|].
  rewrite seq_S, fmap_app, concat_app, IH.
  cbn [fmap list_fmap concat Nat.add]. rewrite app_nil_r, take_take_drop.
  f_equal. lia.
Qed.

End PageFacts.

(** X8: a page in range shows the next fifty items of the list after those
    of the pages before it: at least one item, at most fifty, and fifty on
    every page but the last. *)
Theorem page_shows_its_items {A} (data : list A) (page : Z) :
  (1 ≤ page ≤ Pages.total_pages data)%Z →
  ∃ controls,
    Pages.update_page_view data page
      = Pages.Page (take 50 (drop (50 * Z.to_nat (page - 1)) data)) controls
    ∧ 0 < length (take 50 (drop (50 * Z.to_nat (page - 1)) data)) ≤ 50
    ∧ ((page < Pages.total_pages data)%Z →
       length (take 50 (drop (50 * Z.to_nat (page - 1)) data)) = 50).
Proof.
  intros Hp. destruct (total_pages_bounds data) as [Hb|[_ H0]]; [|lia].
  unfold Pages.ITEMS_PER_PAGE in Hb.
  eexists. split.
  - rewrite <- page_items_in_range by done. unfold Pages.update_page_view.
    destruct data; [simpl in Hb; lia | done].
  - rewrite length_take, length_drop. lia.
Qed.

Lemma page_shows_its_items_witness :
  (1 ≤ 2 ≤ Pages.total_pages (seq 0 120))%Z
  ∧ ∃ controls,
      Pages.update_page_view (seq 0 120) 2
        = Pages.Page (take 50 (drop (50 * Z.to_nat (2 - 1)) (seq 0 120))) controls
      ∧ 0 < length (take 50 (drop (50 * Z.to_nat (2 - 1)) (seq 0 120))) ≤ 50
      ∧ ((2 < Pages.total_pages (seq 0 120))%Z →
         length (take 50 (drop (50 * Z.to_nat (2 - 1)) (seq 0 120))) = 50).
Proof.
  assert (H : (1 ≤ 2 ≤ Pages.total_pages (seq 0 120))%Z) by (vm_compute; split; discriminate).
  split; [exact H|].
  exact (page_shows_its_items (seq 0 120) 2 H).
Defined.

(** X9: the pages of a list, one after the other from page 1 to the last
    page, give the list: every item is on exactly one page, in order. *)
Theorem pages_cover_data {A} (data : list A) :
  concat (Pages.page_items data <$> seqZ 1 (Pages.total_pages data)) = data.
Proof.
  destruct (total_pages_bounds data) as [Hb|[-> H0]]; [|done].
  unfold Pages.ITEMS_PER_PAGE in Hb.
  assert (Hn : (0 ≤ Pages.total_pages data)%Z) by lia.
  transitivity
    (concat ((λ k : nat, take 50 (drop (50 * k) data))
               <$> seq 0 (Z.to_nat (Pages.total_pages data)))).
  - f_equal. unfold seqZ. rewrite <- list_fmap_compose.
    apply list_fmap_ext. intros i k Hk%list_elem_of_lookup_2%elem_of_seq. simpl.
    rewrite page_items_in_range by lia. do 3 f_equal. lia.
  - rewrite concat_pages. apply take_ge. lia.
Qed.

(** X10: the page buttons never lead off the list.  From a page in range,
    after any clicks on "<< Prev" and "Next >>" the page is in range. *)
Theorem clicks_stay_in_range {A} (data : list A) (page : Z) (clicks : list Pages.Click) :
  (1 ≤ page ≤ Pages.total_pages data)%Z →
  (1 ≤ foldl (Pages.click data) page clicks ≤ Pages.total_pages data)%Z.
Proof.
  revert page. induction clicks as [|c clicks IH]; intros page Hp; [done|].
  simpl. apply IH. unfold Pages.click, Pages.update_page_view, Pages.change_page.
  destruct data as [|x data]; [done|].
  destruct (1 <? Pages.total_pages (x :: data))%Z; [|done].
  destruct c.
  - destruct (1 <? page)%Z eqn:E; [|done]. apply Z.ltb_lt in E. lia.
  - destruct (page <? Pages.total_pages (x :: data))%Z eqn:E; [|done].
    apply Z.ltb_lt in E. lia.
Qed.

Lemma clicks_stay_in_range_witness :
  (1 ≤ 1 ≤ Pages.total_pages (seq 0 120))%Z
  ∧ (1 ≤ foldl (Pages.click (seq 0 120)) 1 [Pages.Prev; Pages.Next; Pages.Next; Pages.Next]
     ≤ Pages.total_pages (seq 0 120))%Z.
Proof.
  assert (H : (1 ≤ 1 ≤ Pages.total_pages (seq 0 120))%Z) by (vm_compute; split; discriminate).
  split; [exact H|].
  exact (clicks_stay_in_range (seq 0 120) 1
           [Pages.Prev; Pages.Next; Pages.Next; Pages.Next] H).
Defined.

(** ** The progress dialog *)

Section DialogFacts.
Import ProcessDialog.

Lemma step_before_complete d op :
  winfo_exists d = true → close_enabled d = false → op ≠ OnComplete →
  winfo_exists (step d op) = true ∧ close_enabled (step d op) = false.
Proof. intros He Hc Hop. destruct op; simpl; unfold append_log, _on_close_attempt;
  rewrite ?He, ?Hc; simpl; done. Qed.

Lemma string_app_assoc (s t u : string) : (s +:+ t) +:+ u = s +:+ t +:+ u.
Proof. induction s as [|c s IH]; [done|]. by rewrite !app_cons, IH. Qed.

Lemma of_events_app a b : of_events (a ++ b) = of_events a ++ of_events b.
Proof. apply omap_app. Qed.

(** The log appends of a trace that completes nothing end up in the text
    box, in order. *)
Lemma fold_appends d evs :
  winfo_exists d = true →
  (∀ e, e ∈ evs → e ≠ DialogOnComplete ∧ ∀ t, e ≠ DialogAppendLog t) →
  foldl step d (of_events evs)
  = {| winfo_exists := true; close_enabled := close_enabled d;
       textbox := textbox d +:+ Text.join "" (sink evs);
       progress_running := progress_running d; warnings := warnings d;
       bells := bells d |}.
Proof.
  revert d. induction evs as [|e evs IH]; intros d He Hevs.
  - simpl. rewrite app_empty_r. by destruct d; simpl in *; subst.
  - assert (Hrest : ∀ e', e' ∈ evs → e' ≠ DialogOnComplete ∧ ∀ t, e' ≠ DialogAppendLog t).
    { intros e' ?. apply Hevs. by right. }
    destruct (Hevs e) as [H1 H2]; [by left|].
    destruct e; try done; try (by apply IH).
    + change (of_events (LogCallback text :: evs)) with (AppendLog text :: of_events evs).
      change (sink (LogCallback text :: evs)) with (text :: sink evs).
      cbn [foldl step].
      rewrite IH; [|unfold append_log; by rewrite He|done].
      unfold append_log. rewrite He.
      cbn [textbox close_enabled progress_running warnings bells winfo_exists]. f_equal.
      by rewrite join_empty_cons, string_app_assoc.
    + by destruct (H2 text).
Qed.

Lemma fold_before_complete d ops :
  winfo_exists d = true → close_enabled d = false → OnComplete ∉ ops →
  winfo_exists (foldl step d ops) = true ∧ close_enabled (foldl step d ops) = false.
Proof.
  revert d. induction ops as [|op ops IH]; intros d He Hc Hops; [done|].
  apply not_elem_of_cons in Hops as [Hop Hops]. simpl.
  destruct (step_before_complete d op He Hc) as [He' Hc']; [done|].
  by apply IH.
Qed.

Lemma of_events_runner evs :
  forallb runner_event evs = true → OnComplete ∉ of_events evs.
Proof.
  induction evs as [|e evs IH]; simpl; [intros _; apply not_elem_of_nil|].
  intros [He Hevs]%andb_prop. specialize (IH Hevs).
  destruct e; try done; unfold of_events in *; simpl;
    apply not_elem_of_cons; by split.
Qed.

Lemma no_callbacks_not_fired evs : callbacks evs = [] → existsb is_callback evs = false.
Proof.
  induction evs as [|e evs IH]; [done|]. unfold callbacks in *. simpl.
  destruct e; simpl; try done.
Qed.

End DialogFacts.

(** X11: the progress dialog cannot be closed while the work goes on.  From
    its creation, whatever lines are logged and however often the user
    tries to close the window or clicks "Close", as long as [on_complete]
    has not been called the window exists and "Close" is disabled. *)
Theorem dialog_stays_until_complete (ops : list ProcessDialog.Op) :
  ProcessDialog.OnComplete ∉ ops →
  ProcessDialog.winfo_exists (foldl ProcessDialog.step ProcessDialog.__init__ ops) = true
  ∧ ProcessDialog.close_enabled (foldl ProcessDialog.step ProcessDialog.__init__ ops) = false.
Proof. by apply fold_before_complete. Qed.

Lemma dialog_stays_until_complete_witness :
  (ProcessDialog.OnComplete
     ∉ [ProcessDialog.AppendLog "resolving dependencies..."; ProcessDialog.CloseWindow;
        ProcessDialog.ClickClose])
  ∧ ProcessDialog.winfo_exists
      (foldl ProcessDialog.step ProcessDialog.__init__
         [ProcessDialog.AppendLog "resolving dependencies..."; ProcessDialog.CloseWindow;
          ProcessDialog.ClickClose]) = true
  ∧ ProcessDialog.close_enabled
      (foldl ProcessDialog.step ProcessDialog.__init__
         [ProcessDialog.AppendLog "resolving dependencies..."; ProcessDialog.CloseWindow;
          ProcessDialog.ClickClose]) = false.
Proof.
  assert (H : ProcessDialog.OnComplete
                ∉ [ProcessDialog.AppendLog "resolving dependencies...";
                   ProcessDialog.CloseWindow; ProcessDialog.ClickClose]).
  { rewrite !not_elem_of_cons. repeat split; try discriminate. apply not_elem_of_nil. }
  split; [exact H|].
  exact (dialog_stays_until_complete _ H).
Defined.

(** The runner posts and does nothing but its own events. *)
Lemma execute_runner_events D rq w fs :
  forallb runner_event (events (_execute D rq w fs)) = true.
Proof.
  assert (Hlines : ∀ l, forallb runner_event (LogCallback <$> l) = true).
  { intros l. induction l; [done | by simpl]. }
  assert (Hrep : ∀ rc out, forallb runner_event (report rc out) = true).
  { intros rc out. unfold report. by destruct (classify rc out). }
  assert (Hexc : ∀ argv raised, forallb runner_event (except rq argv raised).1 = true).
  { intros argv raised. unfold except.
    destruct raised as [[|e]|]; [by destruct argv | by destruct (log_callback rq) | done]. }
  assert (Hwhen : ∀ b evs, forallb runner_event evs = true →
                           forallb runner_event (when b evs) = true).
  { intros b evs ?. by destruct b. }
  assert (Hbody : ∀ argv password before,
    forallb runner_event before = true →
    forallb runner_event
      (events (execute_body D rq argv password (process w) (cache_write w) fs before))
      = true).
  { intros argv password before Hb.
    destruct (cache_cases D rq fs) as [Hmiss|[Hforce [[T Hget]|Hget]]].
    - rewrite body_miss by done.
      assert (Htry : forallb runner_event
                       (try_popen D rq argv password (process w) (cache_write w) fs).1.1.1
                     = true).
      { destruct (process w) as [| e | raw rc]; cbn [try_popen fst snd].
        - rewrite forallb_app, Hexc. done.
        - rewrite forallb_app, Hexc. done.
        - rewrite !forallb_app, Hexc, Hrep, Hwhen by apply Hlines.
          by destruct password as [[|c pw]|]. }
      destruct (try_popen D rq argv password (process w) (cache_write w) fs)
        as [[[evs out] fs1] raised].
      cbn [fst] in Htry.
      destruct raised; cbn [events]; rewrite !forallb_app, Hb, Htry; [done|].
      destruct out; rewrite ?Hwhen; done.
    - rewrite (body_hit D _ _ _ _ _ _ _ T) by done. cbn [events].
      by rewrite !forallb_app, Hb, !Hwhen.
    - by rewrite body_unreadable. }
  unfold _execute, when.
  destruct (requires_sudo rq).
  - destruct (PasswordDialog.get_input (dialog w)) as [[|c pw]|].
    2:{ apply Hbody. by destruct (set_global_busy rq). }
    all: by destruct (set_global_busy rq), (log_callback rq), (callback rq).
  - apply Hbody. by destruct (set_global_busy rq).
Qed.

Lemma concat_runner_events D (f : nat → Job.t → Request) (world : nat → World) fs jobs :
  forallb runner_event
    (concat (imap (λ i job, events (_execute D (f i job) (world i) fs)) jobs)) = true.
Proof.
  revert f world. induction jobs as [|job jobs IH]; intros f world; [done|].
  rewrite imap_cons. simpl. rewrite forallb_app, execute_runner_events. simpl.
  apply (IH (λ i, f (S i)) (λ i, world (S i))).
Qed.

(** X12: when every job's process runs to an exit code, the dialog of
    [process_queue] ends up with "Close" enabled, its progress bar stopped,
    the bell rung once, and its text box holding every line the jobs sent to
    the sink, in order, and then "All operations complete."; closing the
    window then destroys it. *)
Theorem dialog_after_the_chain D package_queue world fs :
  (∀ i, i < length (build_jobs package_queue) →
        ∃ raw rc, process (world i) = Exited raw rc) →
  foldl ProcessDialog.step ProcessDialog.__init__
    (ProcessDialog.of_events
       (events (run_next_job D (build_jobs package_queue) 0 world fs)))
    = {| ProcessDialog.winfo_exists := true;
         ProcessDialog.close_enabled := true;
         ProcessDialog.textbox :=
           Text.join "" (sink (events (run_next_job D (build_jobs package_queue)
                                         0 world fs)))
           +:+ nl +:+ nl +:+ "All operations complete." +:+ nl;
         ProcessDialog.progress_running := false;
         ProcessDialog.warnings := 0;
         ProcessDialog.bells := 1 |}
  ∧ ProcessDialog.winfo_exists
      (ProcessDialog.step
         (foldl ProcessDialog.step ProcessDialog.__init__
            (ProcessDialog.of_events
               (events (run_next_job D (build_jobs package_queue) 0 world fs))))
         ProcessDialog.CloseWindow) = false.
Proof.
  intros Hall.
  destruct (run_next_job_all D (build_jobs package_queue) 0 world fs Hall) as (Hev & _).
  assert (Hfold :
    foldl ProcessDialog.step ProcessDialog.__init__
      (ProcessDialog.of_events
         (events (run_next_job D (build_jobs package_queue) 0 world fs)))
    = {| ProcessDialog.winfo_exists := true;
         ProcessDialog.close_enabled := true;
         ProcessDialog.textbox :=
           Text.join "" (sink (events (run_next_job D (build_jobs package_queue)
                                         0 world fs)))
           +:+ nl +:+ nl +:+ "All operations complete." +:+ nl;
         ProcessDialog.progress_running := false;
         ProcessDialog.warnings := 0;
         ProcessDialog.bells := 1 |}).
  { rewrite Hev, of_events_app, foldl_app, sink_app.
    set (J := concat _) in *.
    rewrite (fold_appends ProcessDialog.__init__ J); [|done|].
    - change (sink all_complete) with (@nil string). by rewrite app_nil_r.
    - intros e He. subst J.
      pose proof (concat_runner_events D (λ _ job, job_request job) world fs
                    (build_jobs package_queue)) as Hrun.
      rewrite forallb_forall in Hrun. apply list_elem_of_In, Hrun in He.
      by destruct e. }
  split; [exact Hfold|]. by rewrite Hfold.
Qed.

Lemma dialog_after_the_chain_witness :
  (∀ i, i < length (build_jobs Scenario.system_queue) →
        ∃ raw rc, process (Scenario.first_fails i) = Exited raw rc)
  ∧ ProcessDialog.winfo_exists
      (ProcessDialog.step
         (foldl ProcessDialog.step ProcessDialog.__init__
            (ProcessDialog.of_events
               (events (run_next_job Scenario.CACHE_DIR (build_jobs Scenario.system_queue)
                          0 Scenario.first_fails ∅))))
         ProcessDialog.CloseWindow) = false.
Proof.
  assert (H : ∀ i, i < length (build_jobs Scenario.system_queue) →
                   ∃ raw rc, process (Scenario.first_fails i) = Exited raw rc).
  { intros [|i] _; simpl; eauto. }
  split; [exact H|].
  apply (dialog_after_the_chain Scenario.CACHE_DIR Scenario.system_queue
           Scenario.first_fails ∅ H).
Defined.

(** X20: when a job's process cannot be spawned, the dialog of
    [process_queue] stays for good.  The jobs before it having run, and its
    elevation not being cancelled, the chain stops after that job;
    whatever the user does with the window afterwards, the window exists and
    "Close" is disabled. *)
Theorem dialog_stuck_when_spawn_fails D ran job rest world fs (user : list ProcessDialog.Op) :
  (∀ k, k < length ran → ∃ raw rc, process (world k) = Exited raw rc) →
  elevation_cancelled (job_request job) (world (length ran)) = false →
  (∀ raw rc, process (world (length ran)) ≠ Exited raw rc) →
  ProcessDialog.OnComplete ∉ user →
  ProcessDialog.winfo_exists
    (foldl ProcessDialog.step ProcessDialog.__init__
       (ProcessDialog.of_events (events (run_next_job D (ran ++ job :: rest) 0 world fs))
          ++ user)) = true
  ∧ ProcessDialog.close_enabled
      (foldl ProcessDialog.step ProcessDialog.__init__
         (ProcessDialog.of_events (events (run_next_job D (ran ++ job :: rest) 0 world fs))
            ++ user)) = false.
Proof.
  intros Hran Hc Hfail Huser.
  apply fold_before_complete; [done..|].
  apply not_elem_of_app. split; [|done].
  apply of_events_runner.
  rewrite (run_next_job_stalls D ran job rest 0 world fs).
  - rewrite forallb_app. apply andb_true_intro. split.
    + exact (concat_runner_events D (λ _ j, job_request j) world fs ran).
    + apply execute_runner_events.
  - exact Hran.
  - apply no_callbacks_not_fired. simpl. apply spawn_failure_no_callback; [done| by left |done].
Qed.

Lemma dialog_stuck_when_spawn_fails_witness :
  (∀ k, k < length (@nil Job.t) →
        ∃ raw rc, process (Scenario.flatpak_missing k) = Exited raw rc)
  ∧ elevation_cancelled (job_request flatpak_install_job)
      (Scenario.flatpak_missing (length (@nil Job.t))) = false
  ∧ (∀ raw rc, process (Scenario.flatpak_missing (length (@nil Job.t))) ≠ Exited raw rc)
  ∧ (ProcessDialog.OnComplete ∉ [ProcessDialog.CloseWindow; ProcessDialog.ClickClose])
  ∧ ProcessDialog.winfo_exists
      (foldl ProcessDialog.step ProcessDialog.__init__
         (ProcessDialog.of_events
            (events (run_next_job Scenario.CACHE_DIR
                       ([] ++ flatpak_install_job :: []) 0
                       Scenario.flatpak_missing ∅))
            ++ [ProcessDialog.CloseWindow; ProcessDialog.ClickClose])) = true
  ∧ ProcessDialog.close_enabled
      (foldl ProcessDialog.step ProcessDialog.__init__
         (ProcessDialog.of_events
            (events (run_next_job Scenario.CACHE_DIR
                       ([] ++ flatpak_install_job :: []) 0
                       Scenario.flatpak_missing ∅))
            ++ [ProcessDialog.CloseWindow; ProcessDialog.ClickClose])) = false.
Proof.
  assert (H1 : ∀ k, k < length (@nil Job.t) →
                    ∃ raw rc, process (Scenario.flatpak_missing k) = Exited raw rc).
  { intros k Hk. simpl in Hk. lia. }
  assert (H3 : ∀ raw rc,
             process (Scenario.flatpak_missing (length (@nil Job.t))) ≠ Exited raw rc)
    by discriminate.
  assert (H4 : ProcessDialog.OnComplete
                 ∉ [ProcessDialog.CloseWindow; ProcessDialog.ClickClose]).
  { rewrite !not_elem_of_cons. repeat split; try discriminate. apply not_elem_of_nil. }
  split; [exact H1|]. split; [reflexivity|]. split; [exact H3|]. split; [exact H4|].
  exact (dialog_stuck_when_spawn_fails Scenario.CACHE_DIR [] flatpak_install_job
           [] Scenario.flatpak_missing ∅ _ H1 eq_refl H3 H4).
Defined.

(** ** More on the runner *)

Lemma busy_flags_app a b : busy_flags (a ++ b) = busy_flags a ++ busy_flags b.
Proof. apply omap_app. Qed.
Lemma busy_flags_lines l : busy_flags (LogCallback <$> l) = [].
Proof. by apply omap_fmap_none. Qed.
Lemma busy_flags_when b evs : busy_flags (when b evs) = when b (busy_flags evs).
Proof. by destruct b. Qed.
#[export] Hint Rewrite busy_flags_app busy_flags_lines busy_flags_when : trace.

Lemma try_popen_busy D rq argv password o wo fs :
  argv ≠ [] →
  busy_flags (try_popen D rq argv password o wo fs).1.1.1 = []
  ∧ (try_popen D rq argv password o wo fs).2 = false.
Proof.
  intros Hargv.
  assert (Hexc : ∀ raised, busy_flags (except rq argv raised).1 = []
                           ∧ (except rq argv raised).2 = false).
  { intros raised. unfold except. destruct raised as [[|e]|]; [by destruct argv | | done].
    by destruct (log_callback rq). }
  destruct o as [| e | raw rc]; cbn [try_popen fst snd].
  - destruct (Hexc (Some NotFound)) as [He1 He2]. autorewrite with trace.
    by rewrite He1, He2.
  - destruct (Hexc (Some (Unexpected e))) as [He1 He2]. autorewrite with trace.
    by rewrite He1, He2.
  - match goal with |- context [except rq argv ?r] => destruct (Hexc r) as [He1 He2] end.
    assert (Hr : ∀ out, busy_flags (report rc out) = []).
    { intros out. unfold report. by destruct (classify rc out). }
    autorewrite with trace. rewrite He1, He2, Hr. by destruct password; observe.
Qed.

(** X13: when the interface is released, and when it is not.  For every
    request whose argument vector is not empty, an exception leaves the worker
    in one case only: the elevation is not cancelled, the request is not
    forced, and its cache file is there and cannot be read.  When the request
    sets the global busy state, [set_busy(True)] is posted once, first;
    [set_busy(False)] is posted once on every way through but that one,
    where the interface stays disabled. *)
Theorem busy_released_unless_cache_unreadable D rq w fs :
  effective_argv rq ≠ [] →
  (fault (_execute D rq w fs) = true ↔
     elevation_cancelled rq w = false
     ∧ force_refresh rq = false
     ∧ cache_get D fs (cache_key rq) = Some Unreadable)
  ∧ busy_flags (events (_execute D rq w fs))
    = when (set_global_busy rq)
        (if fault (_execute D rq w fs) then [true] else [true; false])
  ∧ (set_global_busy rq = true → head (events (_execute D rq w fs)) = Some (SetBusy true)).
Proof.
  intros Hargv.
  destruct (elevation_cancelled rq w) eqn:Hc.
  - rewrite cancelled_result by done. simpl. split; [by split; [|intros [? _]]|]. observe.
    by destruct (set_global_busy rq).
  - assert (Hbefore : ∃ password before,
      _execute D rq w fs
        = execute_body D rq (effective_argv rq) password (process w) (cache_write w)
            fs before
      ∧ busy_flags before = when (set_global_busy rq) [true]
      ∧ (set_global_busy rq = true → ∃ rest, before = SetBusy true :: rest)).
    { unfold elevation_cancelled, _execute, effective_argv in *.
      destruct (requires_sudo rq); simpl in Hc.
      - destruct (PasswordDialog.get_input (dialog w)) as [[|c pw]|]; try done.
        eexists _, _. split; [done|]. split; [by observe|]. intros ->. by eexists.
      - eexists _, _. split; [done|]. split; [by observe|]. intros ->. by eexists. }
    destruct Hbefore as (password & before & -> & Hb & Hhead).
    destruct (cache_cases D rq fs) as [Hmiss|[Hforce [[T Hget]|Hget]]].
    + rewrite body_miss by done.
      destruct (try_popen_busy D rq (effective_argv rq) password (process w)
                  (cache_write w) fs Hargv) as [Htry Hno].
      destruct (try_popen D rq (effective_argv rq) password (process w) (cache_write w) fs)
        as [[[evs out] fs1] raised].
      cbn [fst snd] in Htry, Hno. subst raised. cbn [events fault].
      split; [|split].
      * split; [done|]. intros (_ & Hforce & Hget).
        destruct Hmiss as [Hf|Hg]; congruence.
      * autorewrite with trace. rewrite Hb, Htry.
        destruct out, (set_global_busy rq), (callback rq); by observe.
      * intros Hbusy. destruct (Hhead Hbusy) as [rest ->]. done.
    + rewrite (body_hit D _ _ _ _ _ _ _ T) by done. cbn [events fault].
      split; [|split].
      * split; [done|]. intros (_ & _ & ?). congruence.
      * autorewrite with trace. rewrite Hb.
        destruct (set_global_busy rq), (callback rq), (log_callback rq); by observe.
      * intros Hbusy. destruct (Hhead Hbusy) as [rest ->]. done.
    + rewrite body_unreadable by done. cbn [events fault].
      split; [done|]. split; [by rewrite Hb|].
      intros Hbusy. destruct (Hhead Hbusy) as [rest ->]. done.
Qed.

Lemma busy_released_unless_cache_unreadable_witness :
  effective_argv (Scenario.installed_request false) ≠ []
  ∧ fault (_execute Scenario.CACHE_DIR (Scenario.installed_request false)
             (Scenario.cancelling (Exited Scenario.installed_raw 0))
             Scenario.installed_unreadable) = true
  ∧ busy_flags (events (_execute Scenario.CACHE_DIR (Scenario.installed_request false)
                          (Scenario.cancelling (Exited Scenario.installed_raw 0))
                          Scenario.installed_unreadable))
    = [true].
Proof.
  assert (H : effective_argv (Scenario.installed_request false) ≠ []) by discriminate.
  split; [exact H|].
  destruct (busy_released_unless_cache_unreadable Scenario.CACHE_DIR
              (Scenario.installed_request false)
              (Scenario.cancelling (Exited Scenario.installed_raw 0))
              Scenario.installed_unreadable H) as (Hfault & Hbusy & _).
  split; [|exact Hbusy].
  apply Hfault. split; [reflexivity|]. split; [reflexivity|]. by vm_compute.
Defined.

(** The cache directory after a run, on each way through. *)
Lemma execute_files D rq w fs :
  files (_execute D rq w fs)
  = if elevation_cancelled rq w then fs
    else match cache_get D fs (cache_key rq), force_refresh rq, process w with
         | Some _, false, _ => fs
         | _, _, Exited raw rc =>
             (cache_put D fs (cache_key rq) (transcript raw) (cache_write w)).1
         | _, _, _ => fs
         end.
Proof.
  destruct (elevation_cancelled rq w) eqn:Hc.
  - by rewrite cancelled_result.
  - destruct (granted_result D rq w fs Hc) as (password & before & -> & _).
    destruct (cache_cases D rq fs) as [Hmiss|[Hforce [[T Hget]|Hget]]].
    + assert (Hrun : ∀ (a b : gmap string Node),
        match cache_get D fs (cache_key rq), force_refresh rq, process w with
        | Some _, false, _ => a
        | _, _, Exited raw rc => b
        | _, _, _ => a
        end = match process w with Exited _ _ => b | _ => a end).
      { intros a b. destruct Hmiss as [-> | ->];
          [by destruct (cache_get D fs (cache_key rq)), (process w) | done]. }
      destruct (process w) as [| e | raw rc] eqn:Hproc.
      * rewrite body_miss by done. cbn [try_popen].
        destruct Hmiss as [-> | ->]; [|by destruct (except _ _ _) as [? []]].
        by destruct (cache_get D fs (cache_key rq)), (except _ _ _) as [? []].
      * rewrite body_miss by done. cbn [try_popen].
        destruct Hmiss as [-> | ->]; [|by destruct (except _ _ _) as [? []]].
        by destruct (cache_get D fs (cache_key rq)), (except _ _ _) as [? []].
      * destruct (body_exited D rq (effective_argv rq) password raw rc (cache_write w)
                    fs before Hmiss) as (_ & _ & _ & _ & _ & -> & _).
        destruct Hmiss as [-> | ->]; [|done].
        by destruct (cache_get D fs (cache_key rq)).
    + rewrite (body_hit D _ _ _ _ _ _ _ T) by done. by rewrite Hget, Hforce.
    + rewrite body_unreadable by done. by rewrite Hget, Hforce.
Qed.

(** X14: a run touches at most its own cache file, and only to store a
    transcript that is not blank.  Every other path of the cache directory
    is as before; and when the directory has changed, the request had a
    cache key, its elevation was not cancelled, it was forced or had no cache
    entry, and its process ran and printed something besides whitespace. *)
Theorem cache_changes_only_by_put D rq w fs :
  (∀ p, cache_path D (cache_key rq) ≠ Some p → files (_execute D rq w fs) !! p = fs !! p)
  ∧ (files (_execute D rq w fs) ≠ fs →
     elevation_cancelled rq w = false
     ∧ (force_refresh rq = true ∨ cache_get D fs (cache_key rq) = None)
     ∧ (∃ k, cache_key rq = Some k ∧ Text.truthy k = true)
     ∧ ∃ raw rc, process w = Exited raw rc ∧ blank (transcript raw) = false).
Proof.
  rewrite execute_files. split.
  - intros p Hp.
    assert (Hput : ∀ T o, (cache_put D fs (cache_key rq) T o).1 !! p = fs !! p).
    { intros T o. unfold cache_put.
      destruct (cache_path D (cache_key rq)) as [p'|]; [|done].
      destruct (Text.truthy p' && Text.truthy (Text.strip T)); [|done].
      destruct o as [|x [text|]]; simpl; [| |done].
      all: apply lookup_insert_ne; by intros ->. }
    destruct (elevation_cancelled rq w); [done|].
    destruct (cache_get D fs (cache_key rq)), (force_refresh rq), (process w); by rewrite ?Hput.
  - intros Hne. destruct (elevation_cancelled rq w); [done|]. split; [done|].
    assert (Hmiss : force_refresh rq = true ∨ cache_get D fs (cache_key rq) = None).
    { destruct (cache_get D fs (cache_key rq)), (force_refresh rq); auto. }
    split; [done|].
    assert (Hput : ∃ raw rc, process w = Exited raw rc
      ∧ (cache_put D fs (cache_key rq) (transcript raw) (cache_write w)).1 ≠ fs).
    { destruct (cache_get D fs (cache_key rq)), (force_refresh rq), (process w);
        try done; eauto. }
    destruct Hput as (raw & rc & Hproc & Hput).
    apply cache_put_changes in Hput as [Hblank Hk]. split; [done|]. eauto.
Qed.

(** The cache entry that a run leaves, when its write goes through, is what
    a later run with the same key hands to its callback. *)
Lemma replay_after_fetch D rq1 rq2 w1 w2 fs K raw rc :
  cache_key rq1 = Some K →
  cache_key rq2 = Some K →
  Text.truthy K = true →
  elevation_cancelled rq1 w1 = false →
  force_refresh rq1 = true ∨ cache_get D fs (cache_key rq1) = None →
  process w1 = Exited raw rc →
  blank (transcript raw) = false →
  cache_write w1 = Written →
  force_refresh rq2 = false →
  elevation_cancelled rq2 w2 = false →
  popens (events (_execute D rq2 w2 (files (_execute D rq1 w1 fs)))) = []
  ∧ callbacks (events (_execute D rq2 w2 (files (_execute D rq1 w1 fs))))
    = when (callback rq2) [(transcript raw, source rq2)].
Proof.
  intros HK1 HK2 HK Hc1 Hmiss Hproc Hblank Hwrite Hforce Hc2.
  assert (Hget : cache_get D (files (_execute D rq1 w1 fs)) (cache_key rq2)
                 = Some (Readable (transcript raw))).
  { rewrite execute_files, Hc1, Hproc, HK2, Hwrite.
    assert (Hput : cache_get D (cache_put D fs (cache_key rq1) (transcript raw) Written).1
                     (Some K)
                   = Some (Readable (transcript raw))).
    { rewrite HK1, cache_put_get by (by rewrite ?truthy_strip, ?Hblank).
      by rewrite transcript_translated, translate_newlines_idemp. }
    destruct Hmiss as [-> | ->]; [|done].
    by destruct (cache_get D fs (cache_key rq1)). }
  destruct (granted_result D rq2 w2 (files (_execute D rq1 w1 fs)) Hc2)
    as (password & before & -> & Hp & Hcb & _).
  rewrite (body_hit D _ _ _ _ _ _ _ (transcript raw)) by done.
  simpl. observe. by rewrite Hp, Hcb.
Qed.



Lemma join_empty_app (a b : list string) :
  Text.join "" (a ++ b) = Text.join "" a +:+ Text.join "" b.
Proof.
  induction a as [|x a IH]; [done|].
  change ((x :: a) ++ b) with (x :: (a ++ b)).
  by rewrite !join_empty_cons, IH, string_app_assoc.
Qed.

(** X16: the sink and the callback agree.  When the elevation is not
    cancelled and a sink is supplied, the texts sent to the sink, one after
    the other, make up the transcript that the completion callback gets;
    one line more has gone to the sink, after the transcript, only when the
    write to the cache raised an exception other than FileNotFoundError: the
    line "An unexpected error occurred: ..." of the [except] clause. *)
Theorem sink_agrees_with_callback D rq w fs T src :
  elevation_cancelled rq w = false →
  log_callback rq = true →
  (T, src) ∈ callbacks (events (_execute D rq w fs)) →
  Text.join "" (sink (events (_execute D rq w fs))) = T
  ∨ ∃ e remains,
      cache_write w = WriteFails (Unexpected e) remains
      ∧ Text.join "" (sink (events (_execute D rq w fs)))
        = T +:+ "An unexpected error occurred: " +:+ e +:+ nl.
Proof.
  intros Hc Hlog.
  destruct (granted_result D rq w fs Hc)
    as (password & before & -> & _ & Hcb & Hs & _).
  destruct (cache_cases D rq fs) as [Hmiss|[Hforce [[T' Hget]|Hget]]].
  - destruct (process w) as [| e | raw rc] eqn:Hproc.
    + rewrite body_miss by done. cbn [try_popen].
      destruct (except_events rq (effective_argv rq) (Some NotFound)) as (_ & He & _).
      destruct (except rq (effective_argv rq) (Some NotFound)) as [caught []];
        cbn [fst snd events] in *; autorewrite with trace; rewrite Hcb, He; simpl.
      all: by intros ?%elem_of_nil.
    + rewrite body_miss by done. cbn [try_popen].
      destruct (except_events rq (effective_argv rq) (Some (Unexpected e))) as (_ & He & _).
      destruct (except rq (effective_argv rq) (Some (Unexpected e))) as [caught []];
        cbn [fst snd events] in *; autorewrite with trace; rewrite Hcb, He; simpl.
      all: by intros ?%elem_of_nil.
    + destruct (body_exited D rq (effective_argv rq) password raw rc (cache_write w)
                  fs before Hmiss) as (_ & _ & _ & -> & -> & _).
      rewrite Hcb, Hs, Hlog. cbn [app].
      intros Hin.
      assert (T = transcript raw) as ->.
      { destruct (negb _ && callback rq); simpl in Hin.
        - by apply list_elem_of_singleton in Hin as [= -> _].
        - by apply elem_of_nil in Hin. }
      change (when true ?l) with l. rewrite join_empty_app. fold (transcript raw).
      unfold cache_put, except.
      destruct (cache_path D (cache_key rq)) as [p|]; [|left; by rewrite app_empty_r].
      destruct (Text.truthy p && Text.truthy (Text.strip (transcript raw)));
        [|left; by rewrite app_empty_r].
      destruct (cache_write w) as [|[|e] remains]; cbn [fst snd].
      * left. by rewrite app_empty_r.
      * left. destruct (effective_argv rq); by rewrite app_empty_r.
      * right. exists e, remains. split; [done|]. by rewrite Hlog.
  - rewrite (body_hit D _ _ _ _ _ _ _ T') by done. cbn [events].
    autorewrite with trace. rewrite Hcb, Hs, Hlog. simpl.
    destruct (callback rq); simpl.
    + intros [= -> _]%list_elem_of_singleton. by left.
    + by intros ?%elem_of_nil.
  - rewrite body_unreadable by done. cbn [events]. rewrite Hcb.
    by intros ?%elem_of_nil.
Qed.

Lemma sink_agrees_with_callback_witness :
  elevation_cancelled Scenario.elevated_cached_request Scenario.disk_full = false
  ∧ log_callback Scenario.elevated_cached_request = true
  ∧ (transcript Scenario.installed_raw, Some "pacman")
      ∈ callbacks (events (_execute Scenario.CACHE_DIR Scenario.elevated_cached_request
                             Scenario.disk_full ∅))
  ∧ (Text.join "" (sink (events (_execute Scenario.CACHE_DIR
                                   Scenario.elevated_cached_request
                                   Scenario.disk_full ∅)))
     = transcript Scenario.installed_raw
     ∨ ∃ e remains,
         cache_write Scenario.disk_full = WriteFails (Unexpected e) remains
         ∧ Text.join "" (sink (events (_execute Scenario.CACHE_DIR
                                         Scenario.elevated_cached_request
                                         Scenario.disk_full ∅)))
           = transcript Scenario.installed_raw
               +:+ "An unexpected error occurred: " +:+ e +:+ nl).
Proof.
  assert (H : (transcript Scenario.installed_raw, Some "pacman")
                ∈ callbacks (events (_execute Scenario.CACHE_DIR
                                       Scenario.elevated_cached_request
                                       Scenario.disk_full ∅))).
  { vm_compute. apply list_elem_of_here. }
  split; [reflexivity|]. split; [reflexivity|]. split; [exact H|].
  exact (sink_agrees_with_callback Scenario.CACHE_DIR Scenario.elevated_cached_request
           Scenario.disk_full ∅ _ _ eq_refl eq_refl H).
Defined.

(** X28: a write to the cache that fails.  A request with a cache key spawns
    its process and gets a transcript that is not blank; [open] raises and
    leaves the cache directory as it was.  Then the completion callback gets
    the transcript all the same; when the exception is FileNotFoundError,
    as for a key with a slash in it, the error box says that the command,
    which has run, was not found; and nothing is cached: a later request
    with the same key, which was not in the cache before, spawns its
    process. *)
Theorem failed_write_is_reported_and_not_cached D rq rq2 w w2 fs K raw rc x argv0 rest :
  elevation_cancelled rq w = false →
  cache_key rq = Some K →
  Text.truthy K = true →
  cache_get D fs (Some K) = None →
  process w = Exited raw rc →
  blank (transcript raw) = false →
  cache_write w = WriteFails x None →
  effective_argv rq = argv0 :: rest →
  callbacks (events (_execute D rq w fs)) = when (callback rq) [(transcript raw, source rq)]
  ∧ files (_execute D rq w fs) = fs
  ∧ fault (_execute D rq w fs) = false
  ∧ (x = NotFound →
     alerts (events (_execute D rq w fs))
       = alerts (report rc (transcript raw))
           ++ [("Command Not Found", "Error: Command not found - " +:+ argv0 +:+ ".")])
  ∧ (cache_key rq2 = Some K → elevation_cancelled rq2 w2 = false →
     popens (events (_execute D rq2 w2 (files (_execute D rq w fs)))) = [effective_argv rq2]).
Proof.
  intros Hc HK Ht Hget Hproc Hblank Hwrite Hargv.
  assert (Hmiss : force_refresh rq = true ∨ cache_get D fs (cache_key rq) = None)
    by (right; by rewrite HK).
  destruct (cache_path_some D K Ht) as (p & Hp & Htp).
  assert (Hput : cache_put D fs (cache_key rq) (transcript raw) (WriteFails x None)
                 = (fs, Some x)).
  { unfold cache_put. by rewrite HK, Hp, Htp, truthy_strip, Hblank. }
  assert (Hexc : (except rq (effective_argv rq) (Some x)).2 = false).
  { rewrite Hargv. unfold except. by destruct x. }
  assert (Hfiles : files (_execute D rq w fs) = fs).
  { rewrite execute_files, Hc, Hproc, Hwrite, Hput.
    destruct Hmiss as [-> | ->]; [|done]. by destruct (cache_get D fs (cache_key rq)). }
  destruct (granted_result D rq w fs Hc)
    as (password & before & E & _ & Hcb & _ & _ & Hal & _).
  pose proof (body_exited D rq (effective_argv rq) password raw rc (cache_write w) fs
                before Hmiss) as Hb.
  cbv zeta in Hb. rewrite <- Hproc, <- E in Hb. rewrite Hwrite, Hput in Hb.
  cbn [fst snd] in Hb. rewrite Hexc in Hb.
  destruct Hb as (_ & Halerts & _ & Hcalls & _ & _ & Hfault).
  split; [|split; [done|split; [done|split]]].
  - by rewrite Hcalls, Hcb.
  - intros ->. rewrite Halerts, Hal, Hargv. done.
  - intros HK2 Hc2. rewrite Hfiles.
    destruct (granted_result D rq2 w2 fs Hc2) as (password2 & before2 & -> & Hp2 & _).
    rewrite body_miss by (right; by rewrite HK2).
    destruct (try_popen_popens D rq2 (effective_argv rq2) password2 (process w2)
                (cache_write w2) fs) as [Hpo _].
    destruct (try_popen D rq2 (effective_argv rq2) password2 (process w2) (cache_write w2) fs)
      as [[[evs out] fs1] raised].
    cbn [fst] in Hpo.
    destruct raised; cbn [events]; autorewrite with trace; rewrite Hp2, Hpo; [done|].
    by destruct out; observe.
Qed.

Lemma failed_write_is_reported_and_not_cached_witness :
  cache_get Scenario.CACHE_DIR ∅ (Some "yay_a/b_c.cache") = None
  ∧ alerts (events (_execute Scenario.CACHE_DIR (search_yay "a/b c")
                      {| dialog := PressCancel; process := Exited ("aur/a 1.0-1" +:+ nl) 0;
                         cache_write := WriteFails NotFound None |} ∅))
    = [("Command Not Found", "Error: Command not found - yay.")]
  ∧ popens (events (_execute Scenario.CACHE_DIR (search_yay "a/b_c")
                      (Scenario.cancelling SpawnNotFound)
                      (files (_execute Scenario.CACHE_DIR (search_yay "a/b c")
                                {| dialog := PressCancel;
                                   process := Exited ("aur/a 1.0-1" +:+ nl) 0;
                                   cache_write := WriteFails NotFound None |} ∅))))
    = [["yay"; "-Ss"; "a/b_c"]].
Proof.
  assert (Hget : cache_get Scenario.CACHE_DIR ∅ (Some "yay_a/b_c.cache") = None)
    by (by vm_compute).
  split; [exact Hget|].
  destruct (failed_write_is_reported_and_not_cached Scenario.CACHE_DIR
              (search_yay "a/b c") (search_yay "a/b_c")
              {| dialog := PressCancel; process := Exited ("aur/a 1.0-1" +:+ nl) 0;
                 cache_write := WriteFails NotFound None |}
              (Scenario.cancelling SpawnNotFound) ∅ "yay_a/b_c.cache"
              ("aur/a 1.0-1" +:+ nl) 0 NotFound "yay" ["-Ss"; "a/b c"]
              eq_refl eq_refl eq_refl Hget eq_refl eq_refl eq_refl eq_refl)
    as (_ & _ & _ & Halerts & Hpopens).
  split; [exact (Halerts eq_refl) | exact (Hpopens eq_refl eq_refl)].
Defined.

(** ** Cache keys *)

Lemma string_app_inv_tail (s t u : string) : s +:+ u = t +:+ u → s = t.
Proof.
  assert (Hlen : ∀ a b : string, String.length (a +:+ b) = String.length a + String.length b).
  { intros a b. induction a as [|c a IH]; [done|]. rewrite app_cons. simpl. by rewrite IH. }
  revert t. induction s as [|c s IH]; intros [|c' t] H.
  - done.
  - apply (f_equal String.length) in H. rewrite !Hlen in H. simpl in H. lia.
  - apply (f_equal String.length) in H. rewrite !Hlen in H. simpl in H. lia.
  - rewrite !app_cons in H. injection H as -> H. f_equal. by apply IH.
Qed.

Lemma replace_spaces_inj s t :
  has_underscore s = false → has_underscore t = false →
  replace_spaces s = replace_spaces t → s = t.
Proof.
  revert t. induction s as [|c s IH]; intros [|c' t]; simpl; try done.
  intros Hs Ht H. injection H as Hc Hr.
  destruct (decide (c = "_"%char)); [done|].
  destruct (decide (c' = "_"%char)); [done|].
  f_equal; [|by apply IH].
  destruct (decide (c = " "%char)), (decide (c' = " "%char)); congruence.
Qed.

Lemma search_request_Some use_aur entry rq :
  search_request use_aur entry = Some rq →
  Text.truthy (Text.strip entry) = true
  ∧ rq = {| command := [if use_aur then "yay" else "pacman"; "-Ss"; Text.strip entry];
            callback := true;
            log_callback := false;
            source := Some (if use_aur then Config.SOURCE_YAY else Config.SOURCE_PACMAN);
            cache_key :=
              Some ((if use_aur then Config.SOURCE_YAY else Config.SOURCE_PACMAN)
                    +:+ "_" +:+ replace_spaces (Text.strip entry) +:+ ".cache");
            force_refresh := false;
            requires_sudo := false;
            set_global_busy := true |}.
Proof.
  unfold search_request. destruct (Text.truthy (Text.strip entry)); [|done].
  destruct use_aur; simpl; by intros [= <-].
Qed.

(** X17: searches whose queries differ only by spaces against underscores
    share a cache file.  After a search that ran, got a transcript that is
    not blank and wrote it to the cache without an exception, a search for
    any query that is the same once its spaces are underscores spawns
    nothing: its callback gets the transcript of the first search. *)
Theorem search_key_collision_replays D use_aur entry1 entry2 rq1 rq2 w1 w2 fs raw rc :
  search_request use_aur entry1 = Some rq1 →
  search_request use_aur entry2 = Some rq2 →
  replace_spaces (Text.strip entry1) = replace_spaces (Text.strip entry2) →
  cache_get D fs (cache_key rq1) = None →
  process w1 = Exited raw rc →
  blank (transcript raw) = false →
  cache_write w1 = Written →
  popens (events (_execute D rq2 w2 (files (_execute D rq1 w1 fs)))) = []
  ∧ callbacks (events (_execute D rq2 w2 (files (_execute D rq1 w1 fs))))
    = [(transcript raw, source rq2)].
Proof.
  intros [_ ->]%search_request_Some [_ ->]%search_request_Some Hq Hmiss Hproc Hblank
    Hwrite.
  set (K := (if use_aur then Config.SOURCE_YAY else Config.SOURCE_PACMAN)
            +:+ "_" +:+ replace_spaces (Text.strip entry2) +:+ ".cache").
  match goal with
  | |- popens (events (_execute D ?rq2 w2 (files (_execute D ?rq1 w1 fs)))) = [] ∧ _ =>
      destruct (replay_after_fetch D rq1 rq2 w1 w2 fs K raw rc) as [Hp Hc]
  end; try done.
  - simpl. by rewrite Hq.
  - by destruct use_aur.
  - by right.
Qed.

Lemma search_key_collision_replays_witness :
  search_request true "linux headers" = Some (search_yay "linux headers")
  ∧ search_request true "linux_headers" = Some (search_yay "linux_headers")
  ∧ replace_spaces (Text.strip "linux headers") = replace_spaces (Text.strip "linux_headers")
  ∧ cache_get Scenario.CACHE_DIR ∅ (cache_key (search_yay "linux headers")) = None
  ∧ process (Scenario.cancelling (Exited Scenario.installed_raw 0))
    = Exited Scenario.installed_raw 0
  ∧ blank (transcript Scenario.installed_raw) = false
  ∧ cache_write (Scenario.cancelling (Exited Scenario.installed_raw 0)) = Written
  ∧ popens (events (_execute Scenario.CACHE_DIR (search_yay "linux_headers")
                      (Scenario.cancelling SpawnNotFound)
                      (files (_execute Scenario.CACHE_DIR (search_yay "linux headers")
                                (Scenario.cancelling (Exited Scenario.installed_raw 0))
                                ∅)))) = []
  ∧ callbacks (events (_execute Scenario.CACHE_DIR (search_yay "linux_headers")
                         (Scenario.cancelling SpawnNotFound)
                         (files (_execute Scenario.CACHE_DIR
                                   (search_yay "linux headers")
                                   (Scenario.cancelling (Exited Scenario.installed_raw 0))
                                   ∅))))
    = [(transcript Scenario.installed_raw, source (search_yay "linux_headers"))].
Proof.
  repeat (split; [reflexivity|]).
  apply (search_key_collision_replays Scenario.CACHE_DIR true "linux headers"
           "linux_headers" (search_yay "linux headers")
           (search_yay "linux_headers")
           (Scenario.cancelling (Exited Scenario.installed_raw 0))
           (Scenario.cancelling SpawnNotFound) ∅ Scenario.installed_raw 0);
    reflexivity.
Defined.

(** X18: and only such searches do.  Two searches with the same cache key
    whose queries hold no underscore are the same request: same tool, same
    query. *)
Theorem search_key_injective use_aur1 use_aur2 entry1 entry2 rq1 rq2 :
  search_request use_aur1 entry1 = Some rq1 →
  search_request use_aur2 entry2 = Some rq2 →
  has_underscore (Text.strip entry1) = false →
  has_underscore (Text.strip entry2) = false →
  cache_key rq1 = cache_key rq2 →
  rq1 = rq2.
Proof.
  intros [_ ->]%search_request_Some [_ ->]%search_request_Some H1 H2. simpl.
  intros [= Hkey].
  assert (Haur : use_aur1 = use_aur2).
  { destruct use_aur1, use_aur2; try done; by vm_compute in Hkey. }
  subst use_aur2.
  assert (Hq : Text.strip entry1 = Text.strip entry2).
  { apply replace_spaces_inj; [done..|].
    apply (string_app_inv_tail _ _ ".cache").
    destruct use_aur1; vm_compute in Hkey; by simplify_eq. }
  by rewrite Hq.
Qed.

Lemma search_key_injective_witness :
  search_request false " vim " = Some (search_pacman "vim")
  ∧ search_request false "vim" = Some (search_pacman "vim")
  ∧ has_underscore (Text.strip " vim ") = false
  ∧ has_underscore (Text.strip "vim") = false
  ∧ cache_key (search_pacman "vim") = cache_key (search_pacman "vim")
  ∧ search_pacman "vim" = search_pacman "vim".
Proof.
  repeat (split; [reflexivity|]).
  apply (search_key_injective false false " vim " "vim"); reflexivity.
Defined.

Lemma info_request_Some installed pkg_name src remote rq :
  InfoDialog.info_request installed pkg_name src remote = Some rq →
  cache_key rq = Some ("info_" +:+ pkg_name +:+ ".cache")
  ∧ callback rq = true ∧ source rq = None
  ∧ force_refresh rq = false ∧ requires_sudo rq = false.
Proof.
  unfold InfoDialog.info_request.
  destruct (decide (src = Config.SOURCE_FLATPAK));
    [destruct (bool_decide (pkg_name ∈ installed)); [|destruct remote as [[|c r]|]]|];
    try done; by intros [= <-].
Qed.

(** X19: the information of a package is cached under its name alone.  Once
    the information dialog has fetched a text that is not blank for a
    package and written it to the cache without an exception, every later
    information request for that name is answered with that text and spawns
    nothing: also when the package has been installed in between (a
    flatpak's [remote-info] text is shown where [flatpak info] would run),
    and also for a package of the other source with the same name. *)
Theorem info_is_cached_by_name D installed1 installed2 pkg_name src1 src2 remote1 remote2
    rq1 rq2 w1 w2 fs raw rc :
  InfoDialog.info_request installed1 pkg_name src1 remote1 = Some rq1 →
  InfoDialog.info_request installed2 pkg_name src2 remote2 = Some rq2 →
  cache_get D fs (cache_key rq1) = None →
  process w1 = Exited raw rc →
  blank (transcript raw) = false →
  cache_write w1 = Written →
  popens (events (_execute D rq2 w2 (files (_execute D rq1 w1 fs)))) = []
  ∧ callbacks (events (_execute D rq2 w2 (files (_execute D rq1 w1 fs))))
    = [(transcript raw, None)].
Proof.
  intros (HK1 & _ & _ & _ & Hs1)%info_request_Some
         (HK2 & Hcb2 & Hsrc2 & Hf2 & Hs2)%info_request_Some Hmiss Hproc Hblank Hwrite.
  assert (Hc1 : elevation_cancelled rq1 w1 = false)
    by (unfold elevation_cancelled; by rewrite Hs1).
  assert (Hc2 : elevation_cancelled rq2 w2 = false)
    by (unfold elevation_cancelled; by rewrite Hs2).
  destruct (replay_after_fetch D rq1 rq2 w1 w2 fs ("info_" +:+ pkg_name +:+ ".cache")
              raw rc HK1 HK2 eq_refl Hc1 (or_intror Hmiss) Hproc Hblank Hwrite Hf2 Hc2)
    as [Hp Hc].
  split; [done|]. by rewrite Hc, Hcb2, Hsrc2.
Qed.

Lemma info_is_cached_by_name_witness :
  InfoDialog.info_request ∅ "org.gimp.GIMP" Config.SOURCE_FLATPAK (Some "flathub")
    = Some (info_flatpak ["flatpak"; "remote-info"; "flathub"; "org.gimp.GIMP"])
  ∧ InfoDialog.info_request {["org.gimp.GIMP"]} "org.gimp.GIMP" Config.SOURCE_FLATPAK None
    = Some (info_flatpak ["flatpak"; "info"; "org.gimp.GIMP"])
  ∧ cache_get Scenario.CACHE_DIR ∅
      (cache_key (info_flatpak ["flatpak"; "remote-info"; "flathub"; "org.gimp.GIMP"]))
    = None
  ∧ process (Scenario.cancelling (Exited Scenario.installed_raw 0))
    = Exited Scenario.installed_raw 0
  ∧ blank (transcript Scenario.installed_raw) = false
  ∧ cache_write (Scenario.cancelling (Exited Scenario.installed_raw 0)) = Written
  ∧ popens (events (_execute Scenario.CACHE_DIR
                      (info_flatpak ["flatpak"; "info"; "org.gimp.GIMP"])
                      (Scenario.cancelling SpawnNotFound)
                      (files (_execute Scenario.CACHE_DIR
                                (info_flatpak ["flatpak"; "remote-info"; "flathub";
                                               "org.gimp.GIMP"])
                                (Scenario.cancelling (Exited Scenario.installed_raw 0))
                                ∅)))) = []
  ∧ callbacks (events (_execute Scenario.CACHE_DIR
                         (info_flatpak ["flatpak"; "info"; "org.gimp.GIMP"])
                         (Scenario.cancelling SpawnNotFound)
                         (files (_execute Scenario.CACHE_DIR
                                   (info_flatpak ["flatpak"; "remote-info"; "flathub";
                                                  "org.gimp.GIMP"])
                                   (Scenario.cancelling (Exited Scenario.installed_raw 0))
                                   ∅))))
    = [(transcript Scenario.installed_raw, None)].
Proof.
  repeat (split; [by vm_compute|]).
  apply (info_is_cached_by_name Scenario.CACHE_DIR ∅ {["org.gimp.GIMP"]} "org.gimp.GIMP"
           Config.SOURCE_FLATPAK Config.SOURCE_FLATPAK (Some "flathub") None
           (info_flatpak ["flatpak"; "remote-info"; "flathub"; "org.gimp.GIMP"])
           (info_flatpak ["flatpak"; "info"; "org.gimp.GIMP"])
           (Scenario.cancelling (Exited Scenario.installed_raw 0))
           (Scenario.cancelling SpawnNotFound) ∅ Scenario.installed_raw 0);
    by vm_compute.
Defined.

(** ** Sorting *)

Section SortFacts.
Context {A K : Type} (key : A → K) (lt : K → K → bool).
Hypothesis lt_asym : ∀ a b, lt a b = true → lt b a = false.
Hypothesis le_trans : ∀ a b c, lt b a = false → lt c b = false → lt c a = false.
(** The order in which the list was before the sort. *)
Variable R : A → A → Prop.

Local Abbreviation sorted_after := (Str.sorted_after key lt R).

Lemma insert_perm x l : Str.insert key lt x l ≡ₚ x :: l.
Proof.
  induction l as [|y l IH]; simpl; [done|].
  destruct (lt (key y) (key x)); [|done]. rewrite IH. apply Permutation_swap.
Qed.

Lemma sort_by_perm l : Str.sort_by key lt l ≡ₚ l.
Proof.
  induction l as [|x l IH]; simpl; [done|]. by rewrite insert_perm, IH.
Qed.

Lemma insert_sorted x l :
  StronglySorted sorted_after l → Forall (R x) l →
  StronglySorted sorted_after (Str.insert key lt x l).
Proof.
  induction l as [|y l IH]; intros Hs HR; simpl.
  - repeat constructor.
  - apply StronglySorted_inv in Hs as [Hs Hy]. apply Forall_cons in HR as [HRy HR].
    destruct (lt (key y) (key x)) eqn:E.
    + constructor; [by apply IH|].
      rewrite insert_perm. constructor; [|done].
      split; [by apply lt_asym | by left].
    + constructor; [by constructor|]. constructor; [split; [done | by right]|].
      rewrite Forall_forall in *. intros z Hz. destruct (Hy z Hz) as [Hyz _].
      split; [by eapply le_trans | right; by apply HR].
Qed.

Lemma sort_by_sorted l :
  StronglySorted R l → StronglySorted sorted_after (Str.sort_by key lt l).
Proof.
  induction l as [|x l IH]; intros Hs; simpl; [constructor|].
  apply StronglySorted_inv in Hs as [Hs Hx].
  apply insert_sorted; [by apply IH|]. by rewrite sort_by_perm.
Qed.

End SortFacts.

Lemma StronglySorted_weaken {A} (R S : A → A → Prop) l :
  (∀ x y, R x y → S x y) → StronglySorted R l → StronglySorted S l.
Proof.
  intros HRS. induction 1 as [|x l Hs IH Hx]; constructor; [done|].
  eapply Forall_impl; [done|]. auto.
Qed.

Lemma StronglySorted_True {A} (l : list A) : StronglySorted (λ _ _, True) l.
Proof. induction l; constructor; [done|]. by apply Forall_forall. Qed.

Lemma string_ltb_leb a b : String.ltb a b = negb (String.leb b a).
Proof.
  unfold String.ltb, String.leb. rewrite (String.compare_antisym a b).
  by destruct (String.compare b a).
Qed.

Lemma string_lt_asym a b : String.ltb a b = true → String.ltb b a = false.
Proof.
  rewrite !string_ltb_leb, negb_true_iff, negb_false_iff. intros H.
  by destruct (String.leb_total a b) as [?|?]; [|congruence].
Qed.

Lemma string_le_trans a b c :
  String.ltb b a = false → String.ltb c b = false → String.ltb c a = false.
Proof.
  rewrite !string_ltb_leb, !negb_false_iff. intros H1 H2.
  apply Is_true_true. apply Is_true_true in H1, H2.
  change (String.le a c). by etrans.
Qed.

Lemma nat_lt_asym a b : Nat.ltb a b = true → Nat.ltb b a = false.
Proof. rewrite Nat.ltb_lt, Nat.ltb_ge. lia. Qed.

Lemma nat_le_trans a b c :
  Nat.ltb b a = false → Nat.ltb c b = false → Nat.ltb c a = false.
Proof. rewrite !Nat.ltb_ge. lia. Qed.

(** X21: how the search results are ordered.  [_sort_results] keeps every
    result, once; the results whose name is the query, letter case apart,
    come first, all others after them; and on either side the results are
    in the order of their lowercased names. *)
Theorem sort_results_order {A} (name : A → option string) (results : list A) (query : string) :
  _sort_results name results query ≡ₚ results
  ∧ StronglySorted
      (λ p q,
         let rank r :=
           if decide (Str.lower (default "" (name r)) = Str.lower query) then 0 else 1 in
         rank p < rank q
         ∨ (rank p = rank q
            ∧ String.leb (Str.lower (default "" (name p)))
                         (Str.lower (default "" (name q))) = true))
      (_sort_results name results query).
Proof.
  unfold _sort_results. split; [by rewrite !sort_by_perm|].
  eapply StronglySorted_weaken; [|apply (sort_by_sorted _ _ nat_lt_asym nat_le_trans)].
  2:{ apply (sort_by_sorted _ _ string_lt_asym string_le_trans (λ _ _, True)).
      apply StronglySorted_True. }
  intros p q [Hle [Hlt | [Hle' _]]]; simpl in *.
  - left. by apply Nat.ltb_lt.
  - apply Nat.ltb_ge in Hle.
    rewrite string_ltb_leb, negb_false_iff in Hle'.
    destruct (decide (Str.lower (default "" (name p)) = Str.lower query)),
             (decide (Str.lower (default "" (name q)) = Str.lower query));
      try lia; by right.
Qed.

(** ** What the callbacks make of a transcript *)

Lemma split_ws_nil s : Str.split_ws s = [] ↔ blank s = true.
Proof.
  induction s as [|c r IH]; simpl; [done|].
  destruct (Text.isspace c); simpl; [done|].
  split; [|done]. destruct r as [|c' r']; [done|].
  destruct (Text.isspace c'); [done|]. by destruct (Str.split_ws (String c' r')).
Qed.

Lemma filter_perm {A} (f : A → bool) (l l' : list A) :
  l ≡ₚ l' → List.filter f l ≡ₚ List.filter f l'.
Proof.
  induction 1 as [|x l l' _ IH|x y l|l l' l'' _ IH1 _ IH2]; simpl.
  - done.
  - destruct (f x); by rewrite IH.
  - destruct (f x), (f y); try done. apply Permutation_swap.
  - by etrans.
Qed.

Lemma filter_sorted {A} (R : A → A → Prop) (f : A → bool) (l : list A) :
  StronglySorted R l → StronglySorted R (List.filter f l).
Proof.
  induction 1 as [|x l Hs IH Hx]; simpl; [constructor|].
  destruct (f x); [|done]. constructor; [done|].
  rewrite Forall_forall in *. intros y Hy%list_elem_of_In%filter_In.
  apply Hx, list_elem_of_In. tauto.
Qed.

Lemma sorted_strings l :
  StronglySorted (λ a b, String.leb a b = true) (Str.sorted l) ∧ Str.sorted l ≡ₚ l.
Proof.
  split; [|apply sort_by_perm].
  eapply StronglySorted_weaken;
    [|apply (sort_by_sorted id String.ltb string_lt_asym string_le_trans (λ _ _, True)),
        StronglySorted_True].
  intros a b [Hle _]. simpl in Hle. by rewrite string_ltb_leb, negb_false_iff in Hle.
Qed.

(** X22: the members of a group, as the search results show them: the
    lines of the trimmed transcript that are not empty, each once for each
    time it occurs, in ascending order of their code points, every entry
    with the description "Member of selected group" and the source pacman. *)
Theorem group_packages_sorted output :
  GroupPackage.name <$> parse_group_packages output
    ≡ₚ List.filter Text.truthy (Str.split Text.LF (Text.strip output))
  ∧ StronglySorted (λ a b, String.leb a b = true)
      (GroupPackage.name <$> parse_group_packages output)
  ∧ Forall (λ p, GroupPackage.name p ≠ ""
                 ∧ GroupPackage.desc p = "Member of selected group"
                 ∧ GroupPackage.source p = Config.SOURCE_PACMAN)
      (parse_group_packages output).
Proof.
  unfold parse_group_packages.
  set (lines := Str.split Text.LF (Text.strip output)).
  rewrite <- list_fmap_compose.
  assert (Hid : ∀ l : list string,
    (GroupPackage.name
       ∘ (λ pkg_name, {| GroupPackage.name := pkg_name;
                         GroupPackage.desc := "Member of selected group";
                         GroupPackage.source := Config.SOURCE_PACMAN |})) <$> l = l).
  { intros l. induction l as [|x l IH]; [done|]. simpl. by f_equal. }
  rewrite Hid. destruct (sorted_strings lines) as [Hs Hp]. split; [|split].
  - by apply filter_perm.
  - by apply filter_sorted.
  - apply Forall_fmap, Forall_forall. intros n Hn%list_elem_of_In%filter_In. simpl.
    split; [|done]. destruct Hn as [_ Hn]. by destruct n.
Qed.

(** What [first_fields] gives, and when it gives nothing. *)
Lemma first_fields_spec lines :
  match first_fields lines with
  | None => ∃ line, line ∈ lines ∧ line ≠ "" ∧ blank line = true
  | Some fields =>
      (∀ line, line ∈ lines → line ≠ "" → blank line = false)
      ∧ ∀ x, x ∈ fields ↔ ∃ line, line ∈ lines ∧ head (Str.split_ws line) = Some x
  end.
Proof.
  induction lines as [|line lines IH]; simpl.
  - split; [by intros ? ?%elem_of_nil|].
    intros x. split; [by intros ?%elem_of_nil | by intros (? & ?%elem_of_nil & _)].
  - destruct line as [|c r] eqn:E; simpl Text.truthy; cbv iota.
    + destruct (first_fields lines) as [fields|].
      * destruct IH as [Hb Hf]. split.
        -- intros l [->|Hl]%elem_of_cons; [done | by apply Hb].
        -- intros x. rewrite Hf. split.
           ++ intros (l & Hl & Hh). exists l. split; [by right | done].
           ++ intros (l & [->|Hl]%elem_of_cons & Hh); [done|]. by exists l.
      * destruct IH as (l & Hl & Hne & Hb). exists l. split; [by right | done].
    + rewrite <- E. destruct (Str.split_ws line) as [|field rest] eqn:Hw.
      * exists line. split; [by left|]. split; [by subst|]. by apply split_ws_nil.
      * destruct (first_fields lines) as [fields|]; simpl.
        -- destruct IH as [Hb Hf]. split.
           ++ intros l [->|Hl]%elem_of_cons Hne; [|by apply Hb].
              destruct (blank line) eqn:Hbl; [|done].
              apply split_ws_nil in Hbl. congruence.
           ++ intros x. rewrite elem_of_cons, Hf. split.
              ** intros [->|(l & Hl & Hh)].
                 --- exists line. split; [by left|]. by rewrite Hw.
                 --- exists l. split; [by right | done].
              ** intros (l & [->|Hl]%elem_of_cons & Hh).
                 --- left. rewrite Hw in Hh. by simplify_eq/=.
                 --- right. by exists l.
        -- destruct IH as (l & Hl & Hne & Hb). exists l. split; [by right | done].
Qed.

(** X23: which packages are marked upgradable, and when the parsing fails.
    [_parse_upgradable_system] raises IndexError exactly when a line of the
    trimmed transcript is not empty and holds only whitespace; otherwise the
    upgradable packages are exactly the first fields of the lines. *)
Theorem upgradable_system_packages output :
  (_parse_upgradable_system output = None ↔
   ∃ line, line ∈ Str.split Text.LF (Text.strip output)
           ∧ line ≠ "" ∧ blank line = true)
  ∧ ∀ upgradable, _parse_upgradable_system output = Some upgradable →
      ∀ x, x ∈ upgradable ↔
           ∃ line, line ∈ Str.split Text.LF (Text.strip output)
                   ∧ head (Str.split_ws line) = Some x.
Proof.
  unfold _parse_upgradable_system.
  pose proof (first_fields_spec (Str.split Text.LF (Text.strip output))) as H.
  destruct (first_fields (Str.split Text.LF (Text.strip output))) as [fields|]; simpl.
  - destruct H as [Hb Hf]. split.
    + split; [done|]. intros (l & Hl & Hne & Hbl). by rewrite Hb in Hbl.
    + intros ? [= <-] x. by rewrite elem_of_list_to_set.
  - split; [by split | done].
Qed.

Lemma upgradable_system_packages_witness :
  ∃ upgradable,
    _parse_upgradable_system Scenario_upgradable = Some upgradable ∧ "vim" ∈ upgradable.
Proof.
  destruct (_parse_upgradable_system Scenario_upgradable) as [upgradable|] eqn:H.
  - exists upgradable. split; [done|].
    apply (proj2 (upgradable_system_packages Scenario_upgradable) upgradable H "vim").
    exists "vim 9.0.1-1 -> 9.1.0-1". split; [|reflexivity].
    vm_compute. in_list.
  - vm_compute in H. discriminate H.
Defined.

Lemma sorted_strict l :
  StronglySorted (λ a b : string, String.leb a b = true) l → NoDup l →
  StronglySorted (λ a b, String.leb a b = true ∧ a ≠ b) l.
Proof.
  induction 1 as [|x l Hs IH Hx]; intros Hnd; [constructor|].
  apply NoDup_cons in Hnd as [Hnot Hnd]. constructor; [by apply IH|].
  rewrite Forall_forall in *. intros y Hy. split; [by apply Hx|]. by intros ->.
Qed.

(** X24: the group buttons.  When [parse_groups] does not raise, there is
    one button for every first field of a line, and only one however often
    the group is listed, in strictly ascending order of code points. *)
Theorem groups_sorted_and_unique output groups :
  parse_groups output = Some groups →
  StronglySorted (λ a b, String.leb a b = true ∧ a ≠ b) groups
  ∧ ∀ x, x ∈ groups ↔
         ∃ line, line ∈ Str.split Text.LF (Text.strip output)
                 ∧ head (Str.split_ws line) = Some x.
Proof.
  unfold parse_groups.
  pose proof (first_fields_spec (Str.split Text.LF (Text.strip output))) as H.
  destruct (first_fields (Str.split Text.LF (Text.strip output))) as [fields|];
    simpl; [|done].
  intros [= <-]. destruct H as [_ Hf].
  destruct (sorted_strings (remove_dups fields)) as [Hs Hp]. split.
  - apply sorted_strict; [done|]. rewrite Hp. apply NoDup_remove_dups.
  - intros x. by rewrite Hp, elem_of_remove_dups.
Qed.

Lemma groups_sorted_and_unique_witness :
  parse_groups Scenario_groups = Some ["base-devel"; "gnome"; "xorg"]
  ∧ StronglySorted (λ a b, String.leb a b = true ∧ a ≠ b) ["base-devel"; "gnome"; "xorg"].
Proof.
  assert (H : parse_groups Scenario_groups = Some ["base-devel"; "gnome"; "xorg"])
    by (by vm_compute).
  split; [exact H|].
  exact (proj1 (groups_sorted_and_unique Scenario_groups _ H)).
Defined.

(** ** The list of installed packages *)

Lemma installed_pacman_spec source lines :
  match installed_pacman source lines with
  | None => ∃ line, line ∈ lines ∧ line ≠ "" ∧ length (Str.split_ws line) ≠ 2
  | Some packages =>
      (∀ line, line ∈ lines → line ≠ "" → length (Str.split_ws line) = 2)
      ∧ Forall (λ p, Installed.source p = source) packages
  end.
Proof.
  induction lines as [|line lines IH]; simpl.
  - split; [by intros ? ?%elem_of_nil | constructor].
  - destruct (Text.truthy line) eqn:Ht.
    + assert (Hne : line ≠ "") by (by intros ->).
      destruct (Str.split_ws line) as [|n [|v [|? ?]]] eqn:Hw;
        try (exists line; split; [by left|]; split; [done|]; rewrite Hw; simpl; lia).
      destruct (installed_pacman source lines) as [packages|]; simpl.
      * destruct IH as [Hl Hs]. split; [|by constructor].
        intros ln [->|Hin]%elem_of_cons ?; [by rewrite Hw | by apply Hl].
      * destruct IH as (ln & Hin & ? & ?). exists ln. split; [by right | done].
    + assert (line = "") as -> by (by destruct line).
      destruct (installed_pacman source lines) as [packages|].
      * destruct IH as [Hl Hs]. split; [|done].
        intros ln [->|Hin]%elem_of_cons ?; [done | by apply Hl].
      * destruct IH as (ln & Hin & ? & ?). exists ln. split; [by right | done].
Qed.

Lemma installed_flatpak_source source lines :
  Forall (λ p, Installed.source p = source) (installed_flatpak source lines).
Proof.
  unfold installed_flatpak. induction lines as [|line lines IH]; simpl; [constructor|].
  destruct (Str.split TAB line) as [|? [|? [|? [|? [|? [|? ?]]]]]]; simpl; try done.
  by constructor.
Qed.

Lemma foldl_add_names (s : gset string) (packages : list Installed.t) x :
  x ∈ foldl (λ s pkg, s ∪ {[ Installed.name pkg ]}) s packages
  ↔ x ∈ s ∨ ∃ p, p ∈ packages ∧ Installed.name p = x.
Proof.
  revert s. induction packages as [|p packages IH]; intros s; simpl.
  - split; [by left|]. by intros [?|(? & ?%elem_of_nil & _)].
  - rewrite IH, elem_of_union, elem_of_singleton. split.
    + intros [[?| ->]|(q & Hq & Hn)].
      * by left.
      * right. exists p. split; [by left | done].
      * right. exists q. split; [by right | done].
    + intros [?|(q & [->|Hq]%elem_of_cons & Hn)].
      * left. by left.
      * left. by right.
      * right. by exists q.
Qed.

Lemma installed_pacman_entries source lines packages :
  installed_pacman source lines = Some packages →
  (∀ p, p ∈ packages ↔
        ∃ line n v, line ∈ lines ∧ Str.split_ws line = [n; v]
          ∧ p = {| Installed.friendly_name := None; Installed.name := n;
                   Installed.version := v; Installed.size := None;
                   Installed.source := source; Installed.is_installed := None |})
  ∧ length packages = length (List.filter Text.truthy lines).
Proof.
  revert packages. induction lines as [|line lines IH]; intros packages; simpl.
  - intros [= <-]. split; [|done]. intros p.
    split; [by intros ?%elem_of_nil | by intros (? & ? & ? & ?%elem_of_nil & _)].
  - destruct (Text.truthy line) eqn:Ht.
    + destruct (Str.split_ws line) as [|n [|v [|? ?]]] eqn:Hw; try done.
      destruct (installed_pacman source lines) as [pk|]; [|done]. simpl. intros [= <-].
      destruct (IH pk eq_refl) as [Hm Hl]. split; [|simpl; by rewrite Hl].
      intros p. rewrite elem_of_cons, Hm. split.
      * intros [->|(ln & n' & v' & Hin & Hs & ->)].
        -- exists line, n, v. split; [by left | done].
        -- exists ln, n', v'. split; [by right | done].
      * intros (ln & n' & v' & [->|Hin]%elem_of_cons & Hs & ->).
        -- left. rewrite Hw in Hs. by simplify_eq.
        -- right. by exists ln, n', v'.
    + assert (line = "") as -> by (by destruct line).
      intros Hp. destruct (IH packages Hp) as [Hm Hl]. split; [|done].
      intros p. rewrite Hm. split.
      * intros (ln & n & v & Hin & Hs & ->). exists ln, n, v. split; [by right | done].
      * intros (ln & n & v & [->|Hin]%elem_of_cons & Hs & ->); [done|].
        by exists ln, n, v.
Qed.

Lemma length_omap_filter {A B} (f : A → option B) (g : A → bool) (l : list A) :
  (∀ x, g x = true ↔ is_Some (f x)) →
  length (omap f l) = length (List.filter g l).
Proof.
  intros H. induction l as [|x l IH]; [done|].
  cbn [omap list_omap List.filter]. fold (omap f l).
  destruct (f x) as [y|] eqn:Hf, (g x) eqn:Hg; simpl.
  - by rewrite IH.
  - assert (g x = true) by (apply H; by rewrite Hf). congruence.
  - apply H in Hg. rewrite Hf in Hg. by destruct Hg.
  - done.
Qed.

Lemma installed_flatpak_entries source lines :
  (∀ p, p ∈ installed_flatpak source lines ↔
        ∃ line p0 p1 p2 p3 p4 p5 tl,
          line ∈ lines ∧ Str.split TAB line = p0 :: p1 :: p2 :: p3 :: p4 :: p5 :: tl
          ∧ p = {| Installed.friendly_name := Some p0; Installed.name := p1;
                   Installed.version := p2; Installed.size := Some p5;
                   Installed.source := source; Installed.is_installed := None |})
  ∧ length (installed_flatpak source lines)
    = length (List.filter (λ line, bool_decide (6 ≤ length (Str.split TAB line))) lines).
Proof.
  unfold installed_flatpak. split.
  - intros p. rewrite list_elem_of_omap. split.
    + intros (ln & Hin & Hp).
      destruct (Str.split TAB ln) as [|p0 [|p1 [|p2 [|p3 [|p4 [|p5 tl]]]]]] eqn:Hs;
        try done.
      injection Hp as <-. by exists ln, p0, p1, p2, p3, p4, p5, tl.
    + intros (ln & p0 & p1 & p2 & p3 & p4 & p5 & tl & Hin & Hs & ->).
      exists ln. split; [done|]. by rewrite Hs.
  - apply length_omap_filter. intros ln.
    destruct (Str.split TAB ln) as [|p0 [|p1 [|p2 [|p3 [|p4 [|p5 tl]]]]]]; cbn [length].
    7: by rewrite bool_decide_true by lia.
    all: rewrite bool_decide_false by lia; split; [done | by intros []].
Qed.

(** X25: the list of installed packages after a listing has been parsed.
    [parse_and_display_installed] raises ValueError exactly when the source
    is pacman and a line of the trimmed transcript that is not empty has
    not exactly two fields.  Otherwise the set of installed names has grown
    by exactly the names of the listed packages, the list is in the order
    of the lowercased names, every entry is marked installed and carries the
    source of the request, the list shown is the full list and the page is
    the first; and the list holds what the transcript lists: for pacman one
    entry, with name and version, for every line that is not empty; for
    flatpak one entry, with the first, second, third and sixth column, for
    every line of six columns or more; for any other source nothing. *)
Theorem installed_listing installed output source :
  (parse_and_display_installed installed output source = None ↔
     source = Config.SOURCE_PACMAN
     ∧ ∃ line, line ∈ Str.split Text.LF (Text.strip output)
               ∧ line ≠ "" ∧ length (Str.split_ws line) ≠ 2)
  ∧ ∀ st, parse_and_display_installed installed output source = Some st →
      (∀ x, x ∈ Listing.installed_packages st ↔
            x ∈ installed
            ∨ ∃ p, p ∈ Listing.full_installed_packages_data st ∧ Installed.name p = x)
      ∧ StronglySorted
          (λ p q, String.leb (Str.lower (Installed.name p))
                             (Str.lower (Installed.name q)) = true)
          (Listing.full_installed_packages_data st)
      ∧ Forall (λ p, Installed.is_installed p = Some true ∧ Installed.source p = source)
          (Listing.full_installed_packages_data st)
      ∧ Listing.installed_packages_data st = Listing.full_installed_packages_data st
      ∧ Listing.installed_page st = 1%Z
      ∧ (source = Config.SOURCE_PACMAN →
         (∀ p, p ∈ Listing.full_installed_packages_data st ↔
               ∃ line n v,
                 line ∈ Str.split Text.LF (Text.strip output)
                 ∧ Str.split_ws line = [n; v]
                 ∧ p = {| Installed.friendly_name := None; Installed.name := n;
                          Installed.version := v; Installed.size := None;
                          Installed.source := source;
                          Installed.is_installed := Some true |})
         ∧ length (Listing.full_installed_packages_data st)
           = length (List.filter Text.truthy (Str.split Text.LF (Text.strip output))))
      ∧ (source = Config.SOURCE_FLATPAK →
         (∀ p, p ∈ Listing.full_installed_packages_data st ↔
               ∃ line p0 p1 p2 p3 p4 p5 tl,
                 line ∈ Str.split Text.LF (Text.strip output)
                 ∧ Str.split TAB line = p0 :: p1 :: p2 :: p3 :: p4 :: p5 :: tl
                 ∧ p = {| Installed.friendly_name := Some p0; Installed.name := p1;
                          Installed.version := p2; Installed.size := Some p5;
                          Installed.source := source;
                          Installed.is_installed := Some true |})
         ∧ length (Listing.full_installed_packages_data st)
           = length (List.filter
                       (λ line, bool_decide (6 ≤ length (Str.split TAB line)))
                       (Str.split Text.LF (Text.strip output))))
      ∧ (source ≠ Config.SOURCE_PACMAN → source ≠ Config.SOURCE_FLATPAK →
         Listing.full_installed_packages_data st = []).
Proof.
  unfold parse_and_display_installed.
  set (lines := Str.split Text.LF (Text.strip output)).
  set (fetched := if decide (source = Config.SOURCE_PACMAN) then installed_pacman source lines
                  else if decide (source = Config.SOURCE_FLATPAK)
                       then Some (installed_flatpak source lines) else Some []).
  assert (Hfetched :
    match fetched with
    | None => source = Config.SOURCE_PACMAN
              ∧ ∃ line, line ∈ lines ∧ line ≠ "" ∧ length (Str.split_ws line) ≠ 2
    | Some packages =>
        ¬ (source = Config.SOURCE_PACMAN
           ∧ ∃ line, line ∈ lines ∧ line ≠ "" ∧ length (Str.split_ws line) ≠ 2)
        ∧ Forall (λ p, Installed.source p = source) packages
    end).
  { unfold fetched. destruct (decide (source = Config.SOURCE_PACMAN)) as [Hp|Hp].
    - pose proof (installed_pacman_spec source lines) as H.
      destruct (installed_pacman source lines); [|done].
      destruct H as [Hl Hs]. split; [|done].
      intros (_ & ln & Hin & Hne & Hlen). by apply Hlen, Hl.
    - destruct (decide (source = Config.SOURCE_FLATPAK)).
      + split; [by intros [? _] | apply installed_flatpak_source].
      + split; [by intros [? _] | constructor]. }
  destruct fetched as [packages|] eqn:Hf; simpl.
  - destruct Hfetched as [Hok Hsrc]. split; [by split|].
    intros st [= <-]. simpl.
    set (key := λ p, Str.lower (Installed.name p)).
    assert (Hfull : ∀ p, p ∈ Str.sort_by key String.ltb (Installed.mark <$> packages)
                         ↔ ∃ q, q ∈ packages ∧ p = Installed.mark q).
    { intros p. rewrite sort_by_perm, list_elem_of_fmap.
      split; intros (q & ? & ?); by exists q. }
    assert (Hlen : length (Str.sort_by key String.ltb (Installed.mark <$> packages))
                   = length packages).
    { by rewrite sort_by_perm, length_fmap. }
    split; [|split; [|split; [|split; [done|split; [done|]]]]].
    + intros x. rewrite foldl_add_names. f_equiv. split.
      * intros (p & Hp & Hn). exists (Installed.mark p).
        split; [|done]. apply Hfull. by exists p.
      * intros (p & Hp & Hn). apply Hfull in Hp as (q & Hq & ->). by exists q.
    + eapply StronglySorted_weaken;
        [|apply (sort_by_sorted key String.ltb string_lt_asym string_le_trans (λ _ _, True)),
            StronglySorted_True].
      intros p q [Hle _]. by rewrite string_ltb_leb, negb_false_iff in Hle.
    + apply Forall_forall. intros p (q & Hq & ->)%Hfull. split; [done|]. simpl.
      by apply (proj1 (Forall_forall _ _) Hsrc).
    + subst fetched. split; [|split].
      * intros Hp. rewrite decide_True in Hf by done.
        destruct (installed_pacman_entries source lines packages Hf) as [Hm Hl].
        split; [|by rewrite Hlen].
        intros p. rewrite Hfull. split.
        -- intros (q & Hq & ->). apply Hm in Hq as (ln & n & v & Hin & Hs & ->).
           by exists ln, n, v.
        -- intros (ln & n & v & Hin & Hs & ->).
           exists {| Installed.friendly_name := None; Installed.name := n;
                     Installed.version := v; Installed.size := None;
                     Installed.source := source; Installed.is_installed := None |}.
           split; [|done]. apply Hm. by exists ln, n, v.
      * intros Hp.
        assert (source ≠ Config.SOURCE_PACMAN) by (by rewrite Hp).
        rewrite decide_False, decide_True in Hf by done. injection Hf as <-.
        destruct (installed_flatpak_entries source lines) as [Hm Hl].
        split; [|by rewrite Hlen].
        intros p. rewrite Hfull. split.
        -- intros (q & Hq & ->).
           apply Hm in Hq as (ln & p0 & p1 & p2 & p3 & p4 & p5 & tl & Hin & Hs & ->).
           by exists ln, p0, p1, p2, p3, p4, p5, tl.
        -- intros (ln & p0 & p1 & p2 & p3 & p4 & p5 & tl & Hin & Hs & ->).
           exists {| Installed.friendly_name := Some p0; Installed.name := p1;
                     Installed.version := p2; Installed.size := Some p5;
                     Installed.source := source; Installed.is_installed := None |}.
           split; [|done]. apply Hm. by exists ln, p0, p1, p2, p3, p4, p5, tl.
      * intros H1 H2. rewrite !decide_False in Hf by done. by injection Hf as <-.
  - split; [by split | done].
Qed.

Lemma installed_listing_witness :
  ∃ st,
    parse_and_display_installed ∅ Scenario_listing Config.SOURCE_PACMAN = Some st
    ∧ ("bash" ∈ Listing.installed_packages st ↔
       "bash" ∈ (∅ : gset string)
       ∨ ∃ p, p ∈ Listing.full_installed_packages_data st ∧ Installed.name p = "bash")
    ∧ length (Listing.full_installed_packages_data st) = 2.
Proof.
  destruct (parse_and_display_installed ∅ Scenario_listing Config.SOURCE_PACMAN)
    as [st|] eqn:H.
  - exists st. split; [done|].
    destruct (proj2 (installed_listing ∅ Scenario_listing Config.SOURCE_PACMAN) st H)
      as (Hnames & _ & _ & _ & _ & Hpacman & _).
    split; [exact (Hnames "bash") | exact (proj2 (Hpacman eq_refl))].
  - vm_compute in H. discriminate H.
Defined.

Lemma lower_truthy s : Text.truthy (Str.lower s) = Text.truthy s.
Proof. by destruct s. Qed.

Lemma contains_refl s : Text.contains s s = true.
Proof. apply contains_spec. exists "", "". by rewrite app_empty_r. Qed.

Lemma sorted_head_min {A} (rank : A → nat) (l : list A) (p : A) :
  StronglySorted (λ x y, Nat.ltb (rank y) (rank x) = false) l →
  p ∈ l → ∃ q, head l = Some q ∧ rank q ≤ rank p.
Proof.
  intros Hs Hp. destruct l as [|q l]; [by apply elem_of_nil in Hp|].
  exists q. split; [done|]. apply StronglySorted_inv in Hs as [_ Hq].
  apply elem_of_cons in Hp as [->|Hp]; [done|].
  apply Nat.ltb_ge. by apply (proj1 (Forall_forall _ _) Hq).
Qed.

(** X26: the filter of the tab "Installed".  With nothing but whitespace in
    the search entry the full list is shown.  Otherwise the packages shown
    are exactly those of the full list whose lowercased name contains the
    lowercased query, and when one of them is named as the query, letter
    case apart, such a package is the first one shown. *)
Theorem installed_filter_shows_matches full entry :
  (Text.strip entry = "" → filter_installed full entry = full)
  ∧ (Text.strip entry ≠ "" →
     (∀ p, p ∈ filter_installed full entry ↔
           p ∈ full
           ∧ Text.contains (Str.lower (Text.strip entry))
                           (Str.lower (Installed.name p)) = true)
     ∧ ∀ p, p ∈ full → Str.lower (Installed.name p) = Str.lower (Text.strip entry) →
            ∃ q, head (filter_installed full entry) = Some q
                 ∧ Str.lower (Installed.name q) = Str.lower (Text.strip entry)).
Proof.
  unfold filter_installed. rewrite lower_truthy. split.
  - by intros ->.
  - intros Hne.
    assert (Text.truthy (Text.strip entry) = true) as -> by (by destruct (Text.strip entry)).
    cbn [negb].
    set (query := Text.strip entry).
    set (hits := List.filter _ full).
    assert (Hhits : ∀ p, p ∈ hits ↔
      p ∈ full ∧ Text.contains (Str.lower query) (Str.lower (Installed.name p)) = true).
    { intros p. unfold hits. by rewrite list_elem_of_In, filter_In, <- list_elem_of_In. }
    assert (Hperm : _sort_results (λ p, Some (Installed.name p)) hits query ≡ₚ hits).
    { unfold _sort_results. by rewrite !sort_by_perm. }
    split.
    + intros p. by rewrite <- Hhits, Hperm.
    + intros p Hp Hname.
      set (rank := λ r : Installed.t,
             if decide (Str.lower (default "" (Some (Installed.name r))) = Str.lower query)
             then 0 else 1).
      destruct (sorted_head_min rank (_sort_results (λ p, Some (Installed.name p)) hits query) p)
        as (q & Hq & Hrank).
      * unfold _sort_results. eapply StronglySorted_weaken;
          [|apply (sort_by_sorted rank Nat.ltb nat_lt_asym nat_le_trans (λ _ _, True)),
              StronglySorted_True].
        by intros x y [Hle _].
      * rewrite Hperm. apply Hhits. split; [done|].
        rewrite Hname. apply contains_refl.
      * exists q. split; [done|]. unfold rank in Hrank. simpl in Hrank.
        rewrite (decide_True _ _ Hname) in Hrank.
        destruct (decide (Str.lower (Installed.name q) = Str.lower query)); [done | lia].
Qed.

Lemma installed_filter_shows_matches_witness :
  Text.strip " VIM " ≠ ""
  ∧ ∃ q, head (filter_installed Scenario_installed_data " VIM ") = Some q
         ∧ Str.lower (Installed.name q) = Str.lower (Text.strip " VIM ").
Proof.
  assert (Hne : Text.strip " VIM " ≠ "") by (vm_compute; discriminate).
  split; [exact Hne|].
  apply (proj2 (proj2 (installed_filter_shows_matches Scenario_installed_data " VIM ") Hne)
           {| Installed.friendly_name := None; Installed.name := "vim";
              Installed.version := "9.1.0-1"; Installed.size := None;
              Installed.source := Config.SOURCE_PACMAN;
              Installed.is_installed := Some true |}).
  - vm_compute. in_list.
  - reflexivity.
Defined.

(** ** The results of a system search *)

Lemma split_sep_contains sep s :
  match Str.split sep s with
  | [] => False
  | [_] => Text.contains (String sep "") s = false
  | _ :: _ :: _ => Text.contains (String sep "") s = true
  end.
Proof.
  induction s as [|c r IH]; simpl; [done|].
  destruct (decide (c = sep)) as [->|Hne].
  - rewrite decide_True by done. by destruct (Str.split sep r).
  - rewrite decide_False by congruence. simpl.
    by destruct (Str.split sep r) as [|? [|? ?]].
Qed.

Lemma indented_not_header next :
  Text.startswith "    " next = true →
  Text.contains "/" next && negb (Text.startswith " " next) = false.
Proof.
  intros H. destruct next as [|c r]; [done|]. simpl in *.
  destruct (decide (" "%char = c)); [|done]. by rewrite andb_false_r.
Qed.

(** Stepping over the description line changes nothing: it is no header. *)
Lemma system_search_cons header_line rest :
  system_search (header_line :: rest) =
  if Text.contains "/" header_line && negb (Text.startswith " " header_line)
  then found header_line
         match rest with
         | next :: _ => if Text.startswith "    " next then Text.strip next else ""
         | [] => ""
         end
         (system_search rest)
  else system_search rest.
Proof.
  cbn [system_search].
  destruct (Text.contains "/" header_line && negb (Text.startswith " " header_line)); [|done].
  destruct rest as [|next rest']; [done|].
  destruct (Text.startswith "    " next) eqn:E; [|done].
  f_equal. cbn [system_search]. by rewrite (indented_not_header next E).
Qed.

Lemma system_search_spec lines :
  match system_search lines with
  | None =>
      ∃ line, line ∈ lines
        ∧ Text.contains "/" line = true ∧ Text.startswith " " line = false
        ∧ ∃ p0 p1 tl, Str.split_ws line = p0 :: p1 :: tl ∧ Text.contains "/" p0 = false
  | Some results =>
      (∀ line p0 p1 tl, line ∈ lines →
         Text.contains "/" line = true → Text.startswith " " line = false →
         Str.split_ws line = p0 :: p1 :: tl → Text.contains "/" p0 = true)
      ∧ length results =
        length (List.filter
                  (λ line, Text.contains "/" line && negb (Text.startswith " " line)
                           && bool_decide (2 ≤ length (Str.split_ws line))) lines)
      ∧ Forall (λ p, Found.source p = Config.SOURCE_YAY
                     ∨ Found.source p = Config.SOURCE_PACMAN) results
  end.
Proof.
  induction lines as [|line lines IH]; [|rewrite system_search_cons].
  - simpl. split; [by intros ? ? ? ? ?%elem_of_nil|]. split; [done | constructor].
  - cbn [List.filter].
    destruct (Text.contains "/" line) eqn:Hc, (Text.startswith " " line) eqn:Hs;
      cbn [negb andb].
    2:{ unfold found.
        destruct (Str.split_ws line) as [|p0 [|p1 tl]] eqn:Hw; cbn [length bool_decide].
        3:{ pose proof (split_sep_contains "/" p0) as Hsplit.
            destruct (Str.split "/" p0) as [|repo [|name more]]; [done| |].
            - exists line. split; [by left|]. repeat split; try done. by exists p0, p1, tl.
            - rewrite bool_decide_true by (simpl; lia).
              destruct (system_search lines) as [results|]; simpl.
              + destruct IH as (Hok & Hlen & Hsrc). split; [|split].
                * intros ln q0 q1 ql [->|Hin]%elem_of_cons ? ? Hq; [|by eapply Hok].
                  rewrite Hw in Hq. by simplify_eq.
                * by rewrite Hlen.
                * constructor; [|done]. simpl. destruct (Text.contains "aur" repo); auto.
              + destruct IH as (ln & Hin & ?). exists ln. split; [by right | done]. }
        all: rewrite bool_decide_false by (simpl; lia).
        all: destruct (system_search lines) as [results|]; simpl.
        all: try (destruct IH as (ln & Hin & ?); exists ln; split; [by right | done]).
        all: destruct IH as (Hok & Hlen & Hsrc); split; [|done].
        all: intros ln q0 q1 ql [->|Hin]%elem_of_cons ? ? Hq; [|by eapply Hok].
        all: by rewrite Hw in Hq. }
    all: destruct (system_search lines) as [results|]; cbv beta iota.
    all: try (destruct IH as (ln & Hin & ?); exists ln; split; [by right | done]).
    all: destruct IH as (Hok & Hlen & Hsrc); split; [|done].
    all: intros ln q0 q1 ql [->|Hin]%elem_of_cons ? ? Hq; [congruence | by eapply Hok].
Qed.

(** X27: the results of a system search.  [parse_system_search] raises
    IndexError exactly when a line with a slash that does not start with a
    space has two fields or more and no slash in the first one.  Otherwise
    there is one result for every line with a slash, not starting with a
    space, of two fields or more, and none for any other line, also not for
    the description lines that the loop steps over; every result has the
    source yay or pacman. *)
Theorem system_search_results output entry :
  (parse_system_search output entry = None ↔
     ∃ line, line ∈ Str.split Text.LF (Text.strip output)
       ∧ Text.contains "/" line = true ∧ Text.startswith " " line = false
       ∧ ∃ p0 p1 tl, Str.split_ws line = p0 :: p1 :: tl ∧ Text.contains "/" p0 = false)
  ∧ ∀ results, parse_system_search output entry = Some results →
      length results =
        length (List.filter
                  (λ line, Text.contains "/" line && negb (Text.startswith " " line)
                           && bool_decide (2 ≤ length (Str.split_ws line)))
                  (Str.split Text.LF (Text.strip output)))
      ∧ Forall (λ p, Found.source p = Config.SOURCE_YAY
                     ∨ Found.source p = Config.SOURCE_PACMAN) results.
Proof.
  unfold parse_system_search.
  pose proof (system_search_spec (Str.split Text.LF (Text.strip output))) as H.
  destruct (system_search (Str.split Text.LF (Text.strip output))) as [packages|]; simpl.
  - destruct H as (Hok & Hlen & Hsrc). split.
    + split; [done|]. intros (ln & Hin & Hc & Hs & p0 & p1 & tl & Hw & Hno).
      by rewrite (Hok ln p0 p1 tl Hin Hc Hs Hw) in Hno.
    + intros results [= <-].
      assert (Hperm : _sort_results (λ p, Some (Found.name p)) packages entry ≡ₚ packages).
      { unfold _sort_results. by rewrite !sort_by_perm. }
      split; [by rewrite Hperm | by rewrite Hperm].
  - split; [by split | done].
Qed.

Lemma system_search_results_witness :
  ∃ results,
    parse_system_search Scenario_search "vim" = Some results
    ∧ length results = 2
    ∧ Forall (λ p, Found.source p = Config.SOURCE_YAY
                   ∨ Found.source p = Config.SOURCE_PACMAN) results.
Proof.
  destruct (parse_system_search Scenario_search "vim") as [results|] eqn:H.
  - exists results. split; [done|].
    destruct (proj2 (system_search_results Scenario_search "vim") results H) as [Hlen Hsrc].
    split; [exact Hlen | exact Hsrc].
  - vm_compute in H. discriminate H.
Defined.
